(** * A shallow embedding of the tiered storage engine of local-storge-api

    The development follows the JavaScript sources:
    - [core/memory.js], [core/localstorage.js], [core/indexeddb.js]: the
      three storage layers;
    - the main module (class [LocalStorageAPI]): the orchestrator with its
      serialization pipeline, read cache, audit log, query builder and
      snapshot table.

    Conventions of the embedding.
    - JavaScript numbers are integers ([Z]), taken in the range where a
      double is exact and prints as a plain numeral; fractions, [NaN], the
      infinities and the negative zero are outside the model.
    - A JavaScript string is a [string] whose characters stand for UTF-16
      code units below 256.
    - [Date.now()] reads an oracle: the n-th call of a run returns
      [w_clock n].
    - [async] methods run to completion one after the other; every [await]
      is a sequencing point of the state monad [M].
    - Library and host functions ([JSON], lz-string, msgpack, [Date],
      [Blob], [localStorage], [indexedDB], the event emitter) are given the
      behaviour of their documentation on the inputs this program feeds
      them; an input whose result the model does not determine yields
      [Unmodelled], which is neither a value nor an exception. *)

From Stdlib Require Import List String Ascii ZArith NArith Bool Lia DecimalString.
Import ListNotations.

#[local] Set Warnings "-register-all".

Local Open Scope string_scope.
Local Open Scope Z_scope.
Local Open Scope list_scope.

(* ================================================================== *)
(** * Results of a call *)

(** A thrown JavaScript exception: the constructor that built it, its
    [name] and [message] properties, and the [code] property of the
    [StorageError] family and of the host errors that carry one. *)
Record error : Type := mkError {
  e_class : string;
  e_name : string;
  e_message : string;
  e_code : option string
}.

(** [new Error(message)] *)
Definition Error (message : string) : error :=
  mkError "Error" "Error" message None.

(** [class StorageError extends Error]: the constructor sets
    [this.name = 'StorageError'] and [this.code = code]; the subclasses do
    not rename themselves. *)
Definition StorageError (message code : string) : error :=
  mkError "StorageError" "StorageError" message (Some code).

Definition QuotaExceededError : error :=
  mkError "QuotaExceededError" "StorageError" "Storage quota exceeded"
          (Some "QUOTA_EXCEEDED").

Definition MigrationError (message : string) : error :=
  mkError "MigrationError" "StorageError" message (Some "MIGRATION_ERROR").

Definition SerializationError (message : string) : error :=
  mkError "SerializationError" "StorageError" message
          (Some "SERIALIZATION_ERROR").

(** Host errors. *)
Definition TypeError (message : string) : error :=
  mkError "TypeError" "TypeError" message None.
Definition SyntaxError (message : string) : error :=
  mkError "SyntaxError" "SyntaxError" message None.
Definition ReferenceError (message : string) : error :=
  mkError "ReferenceError" "ReferenceError" message None.
(** The [DOMException] a browser raises when an origin's storage is full. *)
Definition DOMQuotaExceeded : error :=
  mkError "DOMException" "QuotaExceededError" "The quota has been exceeded."
          None.
(** What [EventEmitter.emit('error', x)] throws when no listener is
    registered for ['error'] and [x] is not an [Error]; the message is cut
    to its fixed part (the emitter appends a rendering of [x]). *)
Definition UnhandledErrorEvent : error :=
  mkError "Error" "Error" "Unhandled error." (Some "ERR_UNHANDLED_ERROR").

Inductive outcome (A : Type) : Type :=
| Ok (a : A)
| Throw (e : error)
| Unmodelled.
Arguments Ok {A} a.
Arguments Throw {A} e.
Arguments Unmodelled {A}.

Definition error_eqb (a b : error) : bool :=
  String.eqb (e_class a) (e_class b) && String.eqb (e_name a) (e_name b)
  && String.eqb (e_message a) (e_message b)
  && match e_code a, e_code b with
     | Some x, Some y => String.eqb x y
     | None, None => true
     | _, _ => false
     end.

(** The pure fragment: a computation that may throw but has no state. *)
Definition obind {A B} (m : outcome A) (f : A -> outcome B) : outcome B :=
  match m with
  | Ok a => f a
  | Throw e => Throw e
  | Unmodelled => Unmodelled
  end.

(** The state-and-exception monad of the program: an exception keeps the
    state reached when it was thrown. *)
Definition M (S A : Type) : Type := S -> outcome A * S.

Definition ret {S A} (a : A) : M S A := fun s => (Ok a, s).
Definition throw {S A} (e : error) : M S A := fun s => (Throw e, s).
Definition unmodelled {S A} : M S A := fun s => (Unmodelled, s).
Definition bind {S A B} (m : M S A) (f : A -> M S B) : M S B :=
  fun s => match m s with
           | (Ok a, s') => f a s'
           | (Throw e, s') => (Throw e, s')
           | (Unmodelled, s') => (Unmodelled, s')
           end.
Definition pure_of {S A} (o : outcome A) : M S A := fun s => (o, s).
Definition gets {S A} (f : S -> A) : M S A := fun s => (Ok (f s), s).
Definition modify {S} (f : S -> S) : M S unit := fun s => (Ok tt, f s).
(** [try { body } catch (error) { handler error }] *)
Definition try_catch {S A} (body : M S A) (handler : error -> M S A) : M S A :=
  fun s => match body s with
           | (Throw e, s') => handler e s'
           | r => r
           end.

Declare Scope monad_scope.
Delimit Scope monad_scope with monad.
Notation "x <- m ;; k" := (bind m (fun x => k))
  (at level 61, m at next level, right associativity) : monad_scope.
Notation "m ;; k" := (bind m (fun _ => k))
  (at level 61, right associativity) : monad_scope.
Local Open Scope monad_scope.

(** [for (const x of xs) { await f(x) }] *)
Fixpoint for_each {S A} (f : A -> M S unit) (xs : list A) : M S unit :=
  match xs with
  | [] => ret tt
  | x :: r => f x ;; for_each f r
  end.

(** [keeps proj m]: running [m] leaves the part [proj] of the state as it
    was, whatever the outcome. *)
Definition keeps {S A X} (proj : S -> X) (m : M S A) : Prop :=
  forall s, proj (snd (m s)) = proj s.

(* ================================================================== *)
(** * JavaScript containers *)

Module Js.

(** ** Array indices among property names *)

Definition digit_of (c : ascii) : option N :=
  let n := N_of_ascii c in
  if ((48 <=? n) && (n <=? 57))%N then Some (n - 48)%N else None.

Fixpoint digits_value (s : string) (acc : N) : option N :=
  match s with
  | EmptyString => Some acc
  | String c r =>
      match digit_of c with
      | Some d => digits_value r (acc * 10 + d)%N
      | None => None
      end
  end.

(** A property name is an array index when it is the canonical decimal
    numeral of an integer below 2^32 - 1. *)
Definition array_index (k : string) : option N :=
  match k with
  | EmptyString => None
  | String c r =>
      if (Ascii.eqb c "0" && negb (String.eqb r ""))%bool then None
      else match digits_value k 0 with
           | Some n => if (n <? 4294967295)%N then Some n else None
           | None => None
           end
  end.

(** ** [Map] with string keys: insertion order, in-place update *)

Section StringMap.
Context {V : Type}.

Definition smap := list (string * V).

Fixpoint m_get (k : string) (m : smap) : option V :=
  match m with
  | [] => None
  | (k', v) :: r => if String.eqb k k' then Some v else m_get k r
  end.

Definition m_has (k : string) (m : smap) : bool :=
  match m_get k m with Some _ => true | None => false end.

Fixpoint m_replace (k : string) (v : V) (m : smap) : smap :=
  match m with
  | [] => []
  | (k', v') :: r =>
      if String.eqb k k' then (k', v) :: r else (k', v') :: m_replace k v r
  end.

Definition m_set (k : string) (v : V) (m : smap) : smap :=
  if m_has k m then m_replace k v m else m ++ [(k, v)].

Fixpoint m_delete (k : string) (m : smap) : smap :=
  match m with
  | [] => []
  | (k', v') :: r =>
      if String.eqb k k' then r else (k', v') :: m_delete k r
  end.

Definition m_keys (m : smap) : list string := map fst m.

(** ** Plain objects: own enumerable string-keyed properties

    [Object.keys], [Object.entries] and [for-in] list the array-index
    names in ascending order first and the other names in creation
    order.  The objects of the model all have [Object.prototype] as their
    prototype. *)

Fixpoint insert_index (i : N) (k : string) (v : V) (o : smap) : smap :=
  match o with
  | [] => [(k, v)]
  | (k', v') :: r =>
      match array_index k' with
      | Some j =>
          if (j <? i)%N then (k', v') :: insert_index i k v r
          else (k, v) :: o
      | None => (k, v) :: o
      end
  end.

(** [CreateDataProperty]: what an object literal, a spread,
    [Object.fromEntries] and [JSON.parse] do. *)
Definition define (k : string) (v : V) (o : smap) : smap :=
  if m_has k o then m_replace k v o
  else match array_index k with
       | Some i => insert_index i k v o
       | None => o ++ [(k, v)]
       end.

(** [o[k] = v] on a plain object whose prototype is [Object.prototype].
    The name ["__proto__"] reaches the accessor of [Object.prototype] and
    creates no own property.  Given [null] or an object, that accessor
    also changes the prototype of [o]; [assign] does not follow the
    change, so it is exact where ["__proto__"] is given a string or
    [undefined], as the payloads of the JSON strategy are, and where the
    names come from an object [assign] built of such payloads, which owns
    no ["__proto__"].  [set_property] below follows the prototype;
    [getMany], where ["__proto__"] can be given [null] or an object and
    can come more than once, uses it. *)
Definition assign (k : string) (v : V) (o : smap) : smap :=
  if String.eqb k "__proto__" then o else define k v o.

Definition fromEntries (l : list (string * V)) : smap :=
  fold_left (fun o kv => define (fst kv) (snd kv) o) l [].

End StringMap.
Arguments smap V : clear implicits.

(** The property names every plain object inherits from
    [Object.prototype]. *)
Definition proto_names : list string :=
  [ "constructor"; "__defineGetter__"; "__defineSetter__"; "hasOwnProperty";
    "__lookupGetter__"; "__lookupSetter__"; "isPrototypeOf";
    "propertyIsEnumerable"; "toString"; "valueOf"; "__proto__";
    "toLocaleString" ].

Definition inherited (k : string) : bool := existsb (String.eqb k) proto_names.

(** [k in o] *)
Definition has_in {V} (k : string) (o : smap V) : bool :=
  m_has k o || inherited k.

(** [array.slice(0, n)] for an integer [n]. *)
Definition slice0 {A} (n : Z) (l : list A) : list A :=
  if n <? 0 then firstn (Z.to_nat (Z.max 0 (Z.of_nat (List.length l) + n))) l
  else firstn (Z.to_nat n) l.

End Js.
Import Js.

(* ================================================================== *)
(** * JavaScript values *)

(** The values a caller can hand to the store.  [JFunction] stands for any
    callable; [JDate] holds a valid time value in milliseconds; [JBlob]
    holds the bytes and the media type of a [Blob]. *)
Inductive jsval : Type :=
| JUndefined
| JNull
| JBool (b : bool)
| JNum (n : Z)
| JStr (s : string)
| JArr (items : list jsval)
| JObj (props : list (string * jsval))
| JMap (entries : list (jsval * jsval))
| JSet (elems : list jsval)
| JDate (t : Z)
| JBlob (bytes : list ascii) (mime : string)
| JFunction.

(** Induction on values through the lists they nest. *)
Section JsvalInduction.
Variable P : jsval -> Prop.
Hypothesis H_undefined : P JUndefined.
Hypothesis H_null : P JNull.
Hypothesis H_bool : forall b, P (JBool b).
Hypothesis H_num : forall n, P (JNum n).
Hypothesis H_str : forall s, P (JStr s).
Hypothesis H_arr : forall l, Forall P l -> P (JArr l).
Hypothesis H_obj : forall ps, Forall (fun kv => P (snd kv)) ps -> P (JObj ps).
Hypothesis H_map :
  forall es, Forall (fun kv => P (fst kv) /\ P (snd kv)) es -> P (JMap es).
Hypothesis H_set : forall xs, Forall P xs -> P (JSet xs).
Hypothesis H_date : forall t, P (JDate t).
Hypothesis H_blob : forall b m, P (JBlob b m).
Hypothesis H_function : P JFunction.

Fixpoint jsval_nested_ind (v : jsval) : P v :=
  match v with
  | JUndefined => H_undefined
  | JNull => H_null
  | JBool b => H_bool b
  | JNum n => H_num n
  | JStr s => H_str s
  | JArr l =>
      H_arr l ((fix all (l : list jsval) : Forall P l :=
                  match l with
                  | [] => Forall_nil P
                  | x :: r => Forall_cons x (jsval_nested_ind x) (all r)
                  end) l)
  | JObj ps =>
      H_obj ps ((fix all (l : list (string * jsval))
                   : Forall (fun kv => P (snd kv)) l :=
                   match l with
                   | [] => Forall_nil _
                   | kv :: r => Forall_cons kv (jsval_nested_ind (snd kv)) (all r)
                   end) ps)
  | JMap es =>
      H_map es ((fix all (l : list (jsval * jsval))
                   : Forall (fun kv => P (fst kv) /\ P (snd kv)) l :=
                   match l with
                   | [] => Forall_nil _
                   | kv :: r =>
                       Forall_cons kv
                         (conj (jsval_nested_ind (fst kv)) (jsval_nested_ind (snd kv)))
                         (all r)
                   end) es)
  | JSet xs =>
      H_set xs ((fix all (l : list jsval) : Forall P l :=
                   match l with
                   | [] => Forall_nil P
                   | x :: r => Forall_cons x (jsval_nested_ind x) (all r)
                   end) xs)
  | JDate t => H_date t
  | JBlob b m => H_blob b m
  | JFunction => H_function
  end.

End JsvalInduction.

(** [!!v] for the values of the model (every object is truthy). *)
Definition truthy (v : jsval) : bool :=
  match v with
  | JUndefined | JNull => false
  | JBool b => b
  | JNum n => negb (n =? 0)
  | JStr s => negb (String.eqb s EmptyString)
  | _ => true
  end.

(** [o[k]] on a plain object with the default prototype: the own property,
    else the inherited one (a method of [Object.prototype], or the
    prototype object itself for ["__proto__"]). *)
Definition get_prop (k : string) (o : smap jsval) : jsval :=
  match m_get k o with
  | Some v => v
  | None =>
      if String.eqb k "__proto__" then JObj []
      else if inherited k then JFunction
      else JUndefined
  end.

(** SameValueZero, the key equality of [Map] and [Set].  Two objects are
    the same value only when they are the same object; the objects of a
    freshly parsed document are pairwise distinct. *)
Definition same_value_zero (a b : jsval) : bool :=
  match a, b with
  | JUndefined, JUndefined => true
  | JNull, JNull => true
  | JBool x, JBool y => Bool.eqb x y
  | JNum x, JNum y => x =? y
  | JStr x, JStr y => String.eqb x y
  | _, _ => false
  end.

(** ** Decimal numerals *)

(** The plain decimal numeral of an integer.  It is the text JavaScript
    gives a number that is a safe integer (at most 2^53 - 1 in absolute
    value); larger numbers are rounded to a double and, from 1e21 on,
    printed with an exponent, which the model does not follow. *)
Definition dec (n : Z) : string := NilZero.string_of_int (Z.to_int n).

Fixpoint zeros (n : nat) : string :=
  match n with
  | O => EmptyString
  | S k => String "0" (zeros k)
  end.

Definition pad (width : nat) (n : Z) : string :=
  let s := dec n in
  (zeros (width - String.length s) ++ s)%string.

(** ** [Date.prototype.toISOString] and its inverse *)

Definition civil_from_days (days : Z) : Z * Z * Z :=
  let z := days + 719468 in
  let era := z / 146097 in
  let doe := z - era * 146097 in
  let yoe := (doe - doe / 1460 + doe / 36524 - doe / 146096) / 365 in
  let doy := doe - (365 * yoe + yoe / 4 - yoe / 100) in
  let mp := (5 * doy + 2) / 153 in
  let d := doy - (153 * mp + 2) / 5 + 1 in
  let m := if mp <? 10 then mp + 3 else mp - 9 in
  let y := yoe + era * 400 in
  (if m <=? 2 then y + 1 else y, m, d).

Definition days_from_civil (y m d : Z) : Z :=
  let y' := if m <=? 2 then y - 1 else y in
  let era := y' / 400 in
  let yoe := y' - era * 400 in
  let mp := if 2 <? m then m - 3 else m + 9 in
  let doy := (153 * mp + 2) / 5 + d - 1 in
  let doe := yoe * 365 + yoe / 4 - yoe / 100 + doy in
  era * 146097 + doe - 719468.

Definition toISOString (t : Z) : string :=
  let '(y, m, d) := civil_from_days (t / 86400000) in
  let ms := t mod 86400000 in
  let year :=
    if (0 <=? y) && (y <=? 9999) then pad 4 y
    else ((if (y <? 0)%Z then "-" else "+") ++ pad 6 (Z.abs y))%string in
  (year ++ "-" ++ pad 2 m ++ "-" ++ pad 2 d ++ "T"
   ++ pad 2 (ms / 3600000) ++ ":" ++ pad 2 (ms mod 3600000 / 60000) ++ ":"
   ++ pad 2 (ms mod 60000 / 1000) ++ "." ++ pad 3 (ms mod 1000) ++ "Z")%string.

Definition field (from len : nat) (s : string) : option Z :=
  match digits_value (substring from len s) 0 with
  | Some n => Some (Z.of_N n)
  | None => None
  end.

(** The time value of a string in the format [toISOString] prints; the
    other formats [Date.parse] accepts are left undetermined ([None]). *)
Definition iso_parse (s : string) : option Z :=
  let '(sign, body) :=
    match s with
    | String "+" r => (1, r)
    | String "-" r => (-1, r)
    | _ => (1, s)
    end in
  let yl := (String.length body - 20)%nat in
  match field 0 yl body, field (yl + 1) 2 body, field (yl + 4) 2 body,
        field (yl + 7) 2 body, field (yl + 10) 2 body, field (yl + 13) 2 body,
        field (yl + 16) 3 body with
  | Some y, Some mo, Some d, Some h, Some mi, Some sec, Some ms =>
      let t := days_from_civil (sign * y) mo d * 86400000
               + h * 3600000 + mi * 60000 + sec * 1000 + ms in
      if String.eqb (toISOString t) s then Some t else None
  | _, _, _, _, _, _, _ => None
  end.

(** ** Base64 and data URLs ([FileReader.readAsDataURL], [atob]) *)

Definition b64_char (n : N) : ascii :=
  if (n <? 26)%N then ascii_of_N (65 + n)
  else if (n <? 52)%N then ascii_of_N (71 + n)
  else if (n <? 62)%N then ascii_of_N (n - 4)
  else if (n =? 62)%N then "+"%char else "/"%char.

Definition b64_value (c : ascii) : option N :=
  let n := N_of_ascii c in
  if ((65 <=? n) && (n <=? 90))%N then Some (n - 65)%N
  else if ((97 <=? n) && (n <=? 122))%N then Some (n - 71)%N
  else if ((48 <=? n) && (n <=? 57))%N then Some (n + 4)%N
  else if (n =? 43)%N then Some 62%N
  else if (n =? 47)%N then Some 63%N
  else None.

Fixpoint b64_encode (bytes : list ascii) : string :=
  match bytes with
  | [] => EmptyString
  | [a] =>
      let x := N_of_ascii a in
      String (b64_char (x / 4)) (String (b64_char (x mod 4 * 16)) "==")
  | [a; b] =>
      let x := N_of_ascii a in
      let y := N_of_ascii b in
      String (b64_char (x / 4))
        (String (b64_char (x mod 4 * 16 + y / 16))
           (String (b64_char (y mod 16 * 4)) "="))
  | a :: b :: c :: r =>
      let x := N_of_ascii a in
      let y := N_of_ascii b in
      let z := N_of_ascii c in
      String (b64_char (x / 4))
        (String (b64_char (x mod 4 * 16 + y / 16))
           (String (b64_char (y mod 16 * 4 + z / 64))
              (String (b64_char (z mod 64)) (b64_encode r))))
  end%N.

Fixpoint b64_decode_raw (s : string) : list ascii :=
  match s with
  | String a (String b (String c (String d r))) =>
      match b64_value a, b64_value b, b64_value c, b64_value d with
      | Some x, Some y, Some z, Some u =>
          ascii_of_N (x * 4 + y / 16) :: ascii_of_N (y mod 16 * 16 + z / 4)
          :: ascii_of_N (z mod 4 * 64 + u) :: b64_decode_raw r
      | Some x, Some y, Some z, None =>
          [ascii_of_N (x * 4 + y / 16); ascii_of_N (y mod 16 * 16 + z / 4)]
      | Some x, Some y, None, _ => [ascii_of_N (x * 4 + y / 16)]
      | _, _, _, _ => []
      end
  | _ => []
  end%N.

(** [atob] on canonical padded base64; the forgiving cases of the host
    function are left undetermined ([None]). *)
Definition atob (s : string) : option (list ascii) :=
  let bytes := b64_decode_raw s in
  if String.eqb (b64_encode bytes) s then Some bytes else None.

Definition data_url (mime : string) (bytes : list ascii) : string :=
  ("data:"
   ++ (if String.eqb mime EmptyString then "application/octet-stream" else mime)
   ++ ";base64," ++ b64_encode bytes)%string.

Fixpoint until_comma (s : string) : string :=
  match s with
  | EmptyString => EmptyString
  | String c r => if Ascii.eqb c "," then EmptyString else String c (until_comma r)
  end.

(** [s.split(',')[1]] *)
Fixpoint split_comma_1 (s : string) : option string :=
  match s with
  | EmptyString => None
  | String c r => if Ascii.eqb c "," then Some (until_comma r) else split_comma_1 r
  end.

(* ================================================================== *)
(** * [JSON], lz-string and msgpack *)

(** The document [JSON.stringify v] writes, as the value [JSON.parse]
    reads back from it; [None] when the result is [undefined].  A [Map], a
    [Set] and a [Blob] have no own enumerable property and print as an
    empty object, a [Date] prints through [toJSON], an [undefined] or a
    function is dropped from an object and becomes [null] in an array. *)
Fixpoint json_of (v : jsval) : option jsval :=
  match v with
  | JUndefined | JFunction => None
  | JNull => Some JNull
  | JBool b => Some (JBool b)
  | JNum n => Some (JNum n)
  | JStr s => Some (JStr s)
  | JArr l =>
      Some (JArr (map (fun x => match json_of x with
                                | Some j => j
                                | None => JNull
                                end) l))
  | JObj ps =>
      Some (JObj ((fix props (l : list (string * jsval)) :=
                     match l with
                     | [] => []
                     | (k, x) :: r =>
                         match json_of x with
                         | Some j => (k, j) :: props r
                         | None => props r
                         end
                     end) ps))
  | JMap _ | JSet _ | JBlob _ _ => Some (JObj [])
  | JDate t => Some (JStr (toISOString t))
  end.

Definition quote_char : ascii := ascii_of_N 34.
Definition backslash : ascii := ascii_of_N 92.

Definition hex_digit (n : N) : ascii :=
  if (n <? 10)%N then ascii_of_N (48 + n) else ascii_of_N (87 + n).

(** QuoteJSONString on one code unit. *)
Definition escape_char (c : ascii) : string :=
  let n := N_of_ascii c in
  if (n =? 34)%N then String backslash (String quote_char EmptyString)
  else if (n =? 92)%N then String backslash (String backslash EmptyString)
  else if (n =? 8)%N then String backslash "b"
  else if (n =? 9)%N then String backslash "t"
  else if (n =? 10)%N then String backslash "n"
  else if (n =? 12)%N then String backslash "f"
  else if (n =? 13)%N then String backslash "r"
  else if (n <? 32)%N then
    String backslash
      (String "u" (String "0" (String "0"
         (String (hex_digit (n / 16)) (String (hex_digit (n mod 16)) EmptyString)))))
  else String c EmptyString.

Fixpoint escape (s : string) : string :=
  match s with
  | EmptyString => EmptyString
  | String c r => (escape_char c ++ escape r)%string
  end.

Definition quote (s : string) : string :=
  String quote_char (escape s ++ String quote_char EmptyString)%string.

(** The text of a document (no indentation). *)
Fixpoint json_text (d : jsval) : string :=
  match d with
  | JBool true => "true"
  | JBool false => "false"
  | JNum n => dec n
  | JStr s => quote s
  | JArr l => ("[" ++ String.concat "," (map json_text l) ++ "]")%string
  | JObj ps =>
      ("{" ++ String.concat ","
                (map (fun kv => (quote (fst kv) ++ ":" ++ json_text (snd kv))%string) ps)
           ++ "}")%string
  | _ => "null"
  end.

(** [JSON.stringify(v)]: a string, or [undefined] ([None]). *)
Definition JSON_stringify (v : jsval) : option string :=
  option_map json_text (json_of v).

(** A document is JSON-native when [JSON.stringify] keeps all of it. *)
Fixpoint json_native (v : jsval) : bool :=
  match v with
  | JNull | JBool _ | JNum _ | JStr _ => true
  | JArr l => forallb json_native l
  | JObj ps => forallb (fun kv => json_native (snd kv)) ps
  | _ => false
  end.

(** What a storage layer holds as the [value] of an entry: the output of
    the write pipeline.
    - [PUndefined]: [undefined] ([JSON.stringify] of [undefined] or of a
      function, left alone by the identity compressor);
    - [PEmpty]: the empty string ([compressToUTF16] of [undefined]);
    - [PJson d]: the string [JSON.stringify] wrote for the document [d];
    - [PPacked d]: the [Uint8Array] msgpack wrote for [d];
    - [PLz p]: the string [compressToUTF16] made of the string [p];
    - [PCipher n p]: a string an encryption hook made of [p] (the hook
      chooses [n]);
    - [PIndexed d]: the plain object a [Uint8Array] turns into when it goes
      through [JSON.stringify] and [JSON.parse]. *)
Inductive payload : Type :=
| PUndefined
| PEmpty
| PJson (d : jsval)
| PPacked (d : jsval)
| PLz (p : payload)
| PCipher (n : nat) (p : payload)
| PIndexed (d : jsval).

(** [!data] is false for every payload but [undefined] and the empty
    string. *)
Definition payload_truthy (p : payload) : bool :=
  match p with
  | PUndefined | PEmpty => false
  | _ => true
  end.

Definition is_string_payload (p : payload) : bool :=
  match p with
  | PEmpty | PJson _ | PLz _ | PCipher _ _ => true
  | _ => false
  end.

Module Lib.

(** [JSON.stringify(data)] in the write pipeline. *)
Definition json_serialize (data : jsval) : payload :=
  match json_of data with
  | Some d => PJson d
  | None => PUndefined
  end.

(** [JSON.parse(data)]: the document of a JSON text; [undefined] is read
    as the text "undefined", which is no JSON. *)
Definition json_deserialize (p : payload) : outcome jsval :=
  match p with
  | PJson d => Ok d
  | PUndefined => Throw (SyntaxError "Unexpected token u in JSON at position 0")
  | _ => Unmodelled
  end.

(** [msgpackEncode(data)]: determined on JSON-native data, where
    [msgpackDecode] is its inverse. *)
Definition msgpackEncode (data : jsval) : outcome payload :=
  if json_native data then Ok (PPacked data) else Unmodelled.

Definition msgpackDecode (p : payload) : outcome jsval :=
  match p with
  | PPacked d => Ok d
  | _ => Unmodelled
  end.

(** [lzString.compressToUTF16(data)]: the empty string for [undefined] or
    [null], a string that [decompressFromUTF16] maps back for a string. *)
Definition compressToUTF16 (p : payload) : outcome payload :=
  match p with
  | PUndefined => Ok PEmpty
  | PPacked _ | PIndexed _ => Unmodelled
  | _ => Ok (PLz p)
  end.

Definition decompressFromUTF16 (p : payload) : outcome payload :=
  match p with
  | PLz q => Ok q
  | _ => Unmodelled
  end.

End Lib.

(** ** The constructors the read pipeline calls *)

Definition is_primitive (v : jsval) : bool :=
  match v with
  | JUndefined | JNull | JBool _ | JNum _ | JStr _ => true
  | _ => false
  end.

Fixpoint map_set (k v : jsval) (m : list (jsval * jsval)) : list (jsval * jsval) :=
  match m with
  | [] => [(k, v)]
  | (k', v') :: r =>
      if same_value_zero k k' then (k', v) :: r else (k', v') :: map_set k v r
  end.

Definition set_add (x : jsval) (s : list jsval) : list jsval :=
  if existsb (same_value_zero x) s then s else s ++ [x].

(** The key and the value [new Map] takes from one item of its
    argument. *)
Definition entry_of (e : jsval) : outcome (jsval * jsval) :=
  match e with
  | JArr l => Ok (nth 0 l JUndefined, nth 1 l JUndefined)
  | JObj ps => Ok (get_prop "0" ps, get_prop "1" ps)
  | _ =>
      if is_primitive e
      then Throw (TypeError "Iterator value is not an entry object")
      else Ok (JUndefined, JUndefined)
  end.

Fixpoint add_entries (l : list jsval) (m : list (jsval * jsval))
  : outcome (list (jsval * jsval)) :=
  match l with
  | [] => Ok m
  | e :: r => obind (entry_of e) (fun kv => add_entries r (map_set (fst kv) (snd kv) m))
  end.

Definition chars (s : string) : list jsval :=
  map (fun c => JStr (String c EmptyString)) (list_ascii_of_string s).

(** The items an iterable yields; [None] when the value is not iterable. *)
Definition iterate (v : jsval) : option (list jsval) :=
  match v with
  | JArr l => Some l
  | JStr s => Some (chars s)
  | JMap es => Some (map (fun kv => JArr [fst kv; snd kv]) es)
  | JSet xs => Some xs
  | _ => None
  end.

(** [new Map(v)] *)
Definition new_Map (v : jsval) : outcome jsval :=
  match v with
  | JUndefined | JNull => Ok (JMap [])
  | _ =>
      match iterate v with
      | Some l => obind (add_entries l []) (fun m => Ok (JMap m))
      | None => Throw (TypeError "object is not iterable")
      end
  end.

(** [new Set(v)] *)
Definition new_Set (v : jsval) : outcome jsval :=
  match v with
  | JUndefined | JNull => Ok (JSet [])
  | _ =>
      match iterate v with
      | Some l => Ok (JSet (fold_left (fun s x => set_add x s) l []))
      | None => Throw (TypeError "object is not iterable")
      end
  end.

(** [new Date(v)], where the model determines a valid date. *)
Definition new_Date (v : jsval) : outcome jsval :=
  match v with
  | JStr s =>
      match iso_parse s with
      | Some t => Ok (JDate t)
      | None => Unmodelled
      end
  | JNum n => if Z.abs n <=? 8640000000000000 then Ok (JDate n) else Unmodelled
  | _ => Unmodelled
  end.

(** [new Blob([Uint8Array.from(atob(value.split(',')[1]), ...)], {type})] *)
Definition new_Blob (value type : jsval) : outcome jsval :=
  match value with
  | JStr s =>
      match split_comma_1 s with
      | Some b64 =>
          match atob b64, type with
          | Some bytes, JStr mime => Ok (JBlob bytes mime)
          | Some bytes, JUndefined => Ok (JBlob bytes EmptyString)
          | _, _ => Unmodelled
          end
      | None => Unmodelled
      end
  | _ => Throw (TypeError "parsed.value.split is not a function")
  end.

(** ** Assignment to an object whose prototype can change

    [getMany] assigns the names it is given to a fresh object, and a name
    can be ["__proto__"]: the value assigned becomes the prototype of the
    object when it is [null] or an object.  An assignment of a name the
    object does not own looks the name up along the prototypes. *)

(** The prototype of the object: [Object.prototype], [null], or a value
    that was assigned to ["__proto__"]. *)
Inductive Prototype : Type :=
| ObjectPrototype
| NullPrototype
| ValuePrototype (u : jsval).

(** An object with its own properties and its prototype. *)
Record Obj : Type := mkObj {
  own : smap jsval;
  prototype : Prototype
}.

(** What the assignment of a name finds above the object: nothing or a
    writable data property (the assignment creates an own property), the
    accessor ["__proto__"] of [Object.prototype], an accessor without a
    setter (found on the prototype object of the class [holder]), or a
    property the model does not determine. *)
Inductive Slot : Type :=
| SlotCreates
| SlotProtoSetter
| SlotGetterOnly (holder : string)
| SlotUnknown.

(** [Object.prototype]: ["__proto__"] is its one accessor, its other
    properties are writable methods. *)
Definition slot_of_Object_prototype (k : string) : Slot :=
  if String.eqb k "__proto__" then SlotProtoSetter else SlotCreates.

(** The lookup along the prototypes.  The own properties of a plain
    object and of an array are writable data properties, ["__proto__"]
    among them when the object has one; [Array.prototype] and
    [Date.prototype] hold methods only; [size] of [Map.prototype] and
    [Set.prototype], and [size] and [type] of [Blob.prototype], are
    accessors without a setter; a function can own any property. *)
Definition slot_above (p : Prototype) (k : string) : Slot :=
  match p with
  | ObjectPrototype => slot_of_Object_prototype k
  | NullPrototype => SlotCreates
  | ValuePrototype u =>
      match u with
      | JObj ps => if m_has k ps then SlotCreates else slot_of_Object_prototype k
      | JMap _ =>
          if String.eqb k "size" then SlotGetterOnly "Map"
          else slot_of_Object_prototype k
      | JSet _ =>
          if String.eqb k "size" then SlotGetterOnly "Set"
          else slot_of_Object_prototype k
      | JBlob _ _ =>
          if (String.eqb k "size" || String.eqb k "type")%bool
          then SlotGetterOnly "Blob"
          else slot_of_Object_prototype k
      | JFunction => SlotUnknown
      | _ => slot_of_Object_prototype k
      end
  end.

(** [o[k] = v] in strict code (the body of a class).  An own property is
    written in place.  Otherwise the lookup decides: an own property is
    created; or the setter of ["__proto__"] takes [null] or an object as
    the new prototype and ignores any other value; or the assignment
    throws a [TypeError], as strict code does when the accessor has no
    setter. *)
Definition set_property (k : string) (v : jsval) (o : Obj) : outcome Obj :=
  if m_has k (own o) then Ok (mkObj (m_replace k v (own o)) (prototype o))
  else
    match slot_above (prototype o) k with
    | SlotCreates => Ok (mkObj (define k v (own o)) (prototype o))
    | SlotProtoSetter =>
        Ok (match v with
            | JNull => mkObj (own o) NullPrototype
            | _ => if is_primitive v then o else mkObj (own o) (ValuePrototype v)
            end)
    | SlotGetterOnly holder =>
        Throw (TypeError ("Cannot set property " ++ k ++ " of #<" ++ holder
                          ++ "> which has only a getter")%string)
    | SlotUnknown => Unmodelled
    end.

(* ================================================================== *)
(** * The storage substrates *)

(** The record a layer keeps for a key.  [ttl] is the absolute expiry
    instant in epoch milliseconds, or [None] for [null]. *)
Record Item : Type := mkItem {
  value : payload;
  createdAt : Z;
  updatedAt : Z;
  version : Z;
  ttl : option Z
}.

(** A string held by [localStorage]: the JSON text of an entry, or any
    other text. *)
Inductive lstext : Type :=
| LsItem (it : Item)
| LsText (s : string).

(** Everything outside the orchestrator object: the clock, the console, the
    globals of the host and the contents of the three substrates.
    - [w_clock], [w_ticks]: the [Date.now()] oracle and the number of calls
      made so far;
    - [w_window], [w_indexedDB]: whether [typeof window] and
      [typeof indexedDB] differ from ['undefined'];
    - [w_FileReader]: whether the global [FileReader] is defined (it is in
      a browser and under jsdom, and is not in Node);
    - [w_localStorage_ok]: whether the global [localStorage] can be
      reached;
    - [w_idb_full], [w_ls_full]: whether the origin's quota is used up, so
      that a write request fails with the host's [QuotaExceededError];
    - [w_idb]: the object store ['storage'] of each database, by database
      name, its records in key order;
    - [w_localStorage]: the items of [localStorage];
    - [w_memory]: the [data] map of the [MemoryStorage] instance. *)
Record World : Type := mkWorld {
  w_clock : nat -> Z;
  w_ticks : nat;
  w_console : list string;
  w_window : bool;
  w_indexedDB : bool;
  w_idb_full : bool;
  w_idb : smap (smap Item);
  w_localStorage_ok : bool;
  w_ls_full : bool;
  w_localStorage : smap lstext;
  w_memory : smap Item;
  w_FileReader : bool
}.

Definition set_ticks (n : nat) (w : World) : World :=
  mkWorld (w_clock w) n (w_console w) (w_window w) (w_indexedDB w)
          (w_idb_full w) (w_idb w) (w_localStorage_ok w) (w_ls_full w)
          (w_localStorage w) (w_memory w) (w_FileReader w).
Definition set_console (c : list string) (w : World) : World :=
  mkWorld (w_clock w) (w_ticks w) c (w_window w) (w_indexedDB w)
          (w_idb_full w) (w_idb w) (w_localStorage_ok w) (w_ls_full w)
          (w_localStorage w) (w_memory w) (w_FileReader w).
Definition set_idb (d : smap (smap Item)) (w : World) : World :=
  mkWorld (w_clock w) (w_ticks w) (w_console w) (w_window w) (w_indexedDB w)
          (w_idb_full w) d (w_localStorage_ok w) (w_ls_full w)
          (w_localStorage w) (w_memory w) (w_FileReader w).
Definition set_localStorage (l : smap lstext) (w : World) : World :=
  mkWorld (w_clock w) (w_ticks w) (w_console w) (w_window w) (w_indexedDB w)
          (w_idb_full w) (w_idb w) (w_localStorage_ok w) (w_ls_full w)
          l (w_memory w) (w_FileReader w).
Definition set_memory (m : smap Item) (w : World) : World :=
  mkWorld (w_clock w) (w_ticks w) (w_console w) (w_window w) (w_indexedDB w)
          (w_idb_full w) (w_idb w) (w_localStorage_ok w) (w_ls_full w)
          (w_localStorage w) m (w_FileReader w).

(** [Date.now()] *)
Definition Date_now : M World Z :=
  fun w => (Ok (w_clock w (w_ticks w)), set_ticks (S (w_ticks w)) w).

(** A number is truthy unless it is zero. *)
Definition truthy_num (n : option Z) : bool :=
  match n with
  | Some x => negb (x =? 0)
  | None => false
  end.

(** [ttl ? Date.now() + ttl * 1000 : null] *)
Definition expiry (secs : option Z) : M World (option Z) :=
  match secs with
  | Some s => if s =? 0 then ret None
              else (now <- Date_now ;; ret (Some (now + s * 1000)))
  | None => ret None
  end.

(** [item.ttl && Date.now() > item.ttl]: the clock is read only when the
    entry has a truthy [ttl]. *)
Definition expired (it : Item) : M World bool :=
  match ttl it with
  | Some t => if t =? 0 then ret false
              else (now <- Date_now ;; ret (t <? now))
  | None => ret false
  end.

(** [!item.ttl || Date.now() <= item.ttl] *)
Definition live (it : Item) : M World bool :=
  match ttl it with
  | Some t => if t =? 0 then ret true
              else (now <- Date_now ;; ret (now <=? t))
  | None => ret true
  end.

(** The entry a [set] builds: three readings of the clock at most, in the
    order of the object literal. *)
Definition new_item (v : payload) (secs : option Z) : M World Item :=
  c <- Date_now ;;
  u <- Date_now ;;
  e <- expiry secs ;;
  ret (mkItem v c u 1 e).

(** ** [core/memory.js] *)
Module MemoryStorage.

Definition set (key : string) (v : payload) (secs : option Z) : M World unit :=
  data <- new_item v secs ;;
  modify (fun w => set_memory (m_set key data (w_memory w)) w).

Definition get (key : string) : M World (option payload) :=
  item <- gets (fun w => m_get key (w_memory w)) ;;
  match item with
  | None => ret None
  | Some it =>
      gone <- expired it ;;
      if gone : bool
      then modify (fun w => set_memory (m_delete key (w_memory w)) w) ;; ret None
      else ret (Some (value it))
  end.

Definition remove (key : string) : M World unit :=
  modify (fun w => set_memory (m_delete key (w_memory w)) w).

Definition clear : M World unit :=
  modify (set_memory []).

Definition keys : M World (list string) :=
  gets (fun w => m_keys (w_memory w)).

Definition has (key : string) : M World bool :=
  item <- gets (fun w => m_get key (w_memory w)) ;;
  match item with
  | None => ret false
  | Some it =>
      gone <- expired it ;;
      if gone : bool
      then modify (fun w => set_memory (m_delete key (w_memory w)) w) ;; ret false
      else ret true
  end.

Definition size : M World Z :=
  entries <- gets w_memory ;;
  for_each (fun kv : string * Item =>
              gone <- expired (snd kv) ;;
              if gone : bool
              then modify (fun w => set_memory (m_delete (fst kv) (w_memory w)) w)
              else ret tt) entries ;;
  gets (fun w => Z.of_nat (List.length (w_memory w))).

Fixpoint export_items (items : list (string * Item)) (data : smap payload)
  : M World (smap payload) :=
  match items with
  | [] => ret data
  | (key, it) :: r =>
      ok <- live it ;;
      export_items r (if ok : bool then assign key (value it) data else data)
  end.

Definition exportAll : M World (smap payload) :=
  items <- gets w_memory ;;
  export_items items [].

Definition importAll (data : smap payload) : M World unit :=
  for_each (fun kv : string * payload => set (fst kv) (snd kv) None) data.

Definition supports : M World bool := ret true.

End MemoryStorage.

(** ** [core/localstorage.js] *)
Module LocalStorageStorage.

(** [`lsa_${namespace}_`] *)
Definition prefix (namespace : string) : string :=
  ("lsa_" ++ namespace ++ "_")%string.

(** What [JSON.parse(JSON.stringify(data))] makes of the [value] of an
    entry: a string stays itself, a typed array becomes a plain object. *)
Definition through_json (p : payload) : payload :=
  match p with
  | PPacked d => PIndexed d
  | _ => p
  end.

Definition no_localStorage : error :=
  ReferenceError "localStorage is not defined".

(** [localStorage.setItem(k, text)] *)
Definition setItem (k : string) (text : lstext) : M World unit :=
  fun w =>
    if negb (w_localStorage_ok w) then (Throw no_localStorage, w)
    else if w_ls_full w then (Throw DOMQuotaExceeded, w)
    else (Ok tt, set_localStorage (m_set k text (w_localStorage w)) w).

(** [localStorage.getItem(k)] *)
Definition getItem (k : string) : M World (option lstext) :=
  fun w =>
    if negb (w_localStorage_ok w) then (Throw no_localStorage, w)
    else (Ok (m_get k (w_localStorage w)), w).

(** [localStorage.removeItem(k)] *)
Definition removeItem (k : string) : M World unit :=
  fun w =>
    if negb (w_localStorage_ok w) then (Throw no_localStorage, w)
    else (Ok tt, set_localStorage (m_delete k (w_localStorage w)) w).

(** The names [localStorage] lists ([Object.keys], [key(i)]). *)
Definition names : M World (list string) :=
  fun w =>
    if negb (w_localStorage_ok w) then (Throw no_localStorage, w)
    else (Ok (m_keys (w_localStorage w)), w).

Definition set (namespace key : string) (v : payload) (secs : option Z)
  : M World unit :=
  data <- new_item v secs ;;
  setItem (prefix namespace ++ key)%string
          (LsItem (mkItem (through_json (value data)) (createdAt data)
                          (updatedAt data) (version data) (ttl data))).

Definition remove (namespace key : string) : M World unit :=
  removeItem (prefix namespace ++ key)%string.

Definition get (namespace key : string) : M World (option payload) :=
  item <- getItem (prefix namespace ++ key)%string ;;
  match item with
  | None => ret None
  | Some (LsText s) =>
      if String.eqb s EmptyString then ret None else unmodelled
  | Some (LsItem data) =>
      gone <- expired data ;;
      if gone : bool then remove namespace key ;; ret None
      else ret (Some (value data))
  end.

Definition clear (namespace : string) : M World unit :=
  ks <- names ;;
  for_each (fun k => if String.prefix (prefix namespace) k then removeItem k
                     else ret tt) ks.

(** [key.slice(this.prefix.length)] for each listed name that starts with
    the prefix. *)
Definition own_keys (namespace : string) (ks : list string) : list string :=
  map (fun k => substring (String.length (prefix namespace)) (String.length k) k)
      (filter (String.prefix (prefix namespace)) ks).

Definition keys (namespace : string) : M World (list string) :=
  ks <- names ;;
  ret (own_keys namespace ks).

Definition has (namespace key : string) : M World bool :=
  item <- getItem (prefix namespace ++ key)%string ;;
  ret (match item with Some _ => true | None => false end).

Definition size (namespace : string) : M World Z :=
  ks <- keys namespace ;;
  ret (Z.of_nat (List.length ks)).

Fixpoint export_keys (namespace : string) (ks : list string) (data : smap payload)
  : M World (smap payload) :=
  match ks with
  | [] => ret data
  | key :: r =>
      v <- get namespace key ;;
      export_keys namespace r
        (match v with Some p => assign key p data | None => data end)
  end.

Definition exportAll (namespace : string) : M World (smap payload) :=
  ks <- keys namespace ;;
  export_keys namespace ks [].

Definition importAll (namespace : string) (data : smap payload) : M World unit :=
  for_each (fun kv : string * payload => set namespace (fst kv) (snd kv) None) data.

(** The probe writes and removes the item ["__localStorage_test__"]. *)
Definition supports : M World bool :=
  try_catch
    (setItem "__localStorage_test__" (LsText "__localStorage_test__") ;;
     removeItem "__localStorage_test__" ;;
     ret true)
    (fun _ => ret false).

End LocalStorageStorage.

(** ** [core/indexeddb.js] *)
Module IndexedDBStorage.

(** [`LocalStorageAPI_${namespace}`] *)
Definition dbName (namespace : string) : string :=
  ("LocalStorageAPI_" ++ namespace)%string.

(** The object store ['storage'] of the database; a database that was
    never written is empty. *)
Definition store_of (namespace : string) (w : World) : smap Item :=
  match m_get (dbName namespace) (w_idb w) with
  | Some s => s
  | None => []
  end.

Definition set_store (namespace : string) (s : smap Item) (w : World) : World :=
  set_idb (m_set (dbName namespace) s (w_idb w)) w.

(** [store.put(data)]: records are kept in ascending key order. *)
Fixpoint put (k : string) (it : Item) (s : smap Item) : smap Item :=
  match s with
  | [] => [(k, it)]
  | (k', it') :: r =>
      if String.eqb k k' then (k, it) :: r
      else if String.ltb k k' then (k, it) :: s
      else (k', it') :: put k it r
  end.

(** [await this.waitForReady()]: [this.ready] is rejected when the global
    [indexedDB] does not exist. *)
Definition waitForReady : M World unit :=
  fun w =>
    if w_indexedDB w then (Ok tt, w)
    else (Throw (ReferenceError "indexedDB is not defined"), w).

Definition set (namespace key : string) (v : payload) (secs : option Z)
  : M World unit :=
  waitForReady ;;
  data <- new_item v secs ;;
  fun w =>
    if w_idb_full w then (Throw DOMQuotaExceeded, w)
    else (Ok tt, set_store namespace (put key data (store_of namespace w)) w).

Definition remove (namespace key : string) : M World unit :=
  waitForReady ;;
  modify (fun w => set_store namespace (m_delete key (store_of namespace w)) w).

(** The un-awaited [this.remove(key)] of an expired entry opens its
    transaction before any later request of the caller, so the deletion is
    in effect when [get] returns. *)
Definition get (namespace key : string) : M World (option payload) :=
  waitForReady ;;
  data <- gets (fun w => m_get key (store_of namespace w)) ;;
  match data with
  | None => ret None
  | Some it =>
      gone <- expired it ;;
      if gone : bool then remove namespace key ;; ret None
      else ret (Some (value it))
  end.

Definition clear (namespace : string) : M World unit :=
  waitForReady ;;
  modify (set_store namespace []).

Definition keys (namespace : string) : M World (list string) :=
  waitForReady ;;
  gets (fun w => m_keys (store_of namespace w)).

Definition has (namespace key : string) : M World bool :=
  v <- get namespace key ;;
  ret (match v with Some _ => true | None => false end).

Definition size (namespace : string) : M World Z :=
  ks <- keys namespace ;;
  ret (Z.of_nat (List.length ks)).

Fixpoint export_items (items : list (string * Item)) (data : smap payload)
  : M World (smap payload) :=
  match items with
  | [] => ret data
  | (key, it) :: r =>
      ok <- live it ;;
      export_items r (if ok : bool then assign key (value it) data else data)
  end.

Definition exportAll (namespace : string) : M World (smap payload) :=
  waitForReady ;;
  items <- gets (store_of namespace) ;;
  export_items items [].

Fixpoint import_items (data : list (string * payload)) (s : smap Item)
  : M World (smap Item) :=
  match data with
  | [] => ret s
  | (key, v) :: r =>
      c <- Date_now ;;
      u <- Date_now ;;
      import_items r (put key (mkItem v c u 1 None) s)
  end.

(** All the [put] requests share one transaction, which the promise
    follows; what a transaction does when the quota is used up is left
    undetermined. *)
Definition importAll (namespace : string) (data : smap payload) : M World unit :=
  waitForReady ;;
  s0 <- gets (store_of namespace) ;;
  s <- import_items data s0 ;;
  fun w =>
    match data with
    | [] => (Ok tt, w)
    | _ :: _ => if w_idb_full w then (Unmodelled, w)
                else (Ok tt, set_store namespace s w)
    end.

Definition supports : M World bool := gets w_indexedDB.

End IndexedDBStorage.

(** ** The common interface of the layers *)

Inductive LayerKind : Type := KIndexedDB | KLocalStorage | KMemory.

Record Layer : Type := mkLayer { kind : LayerKind; namespace : string }.

Module Backend.

Definition set (l : Layer) (key : string) (v : payload) (secs : option Z)
  : M World unit :=
  match kind l with
  | KIndexedDB => IndexedDBStorage.set (namespace l) key v secs
  | KLocalStorage => LocalStorageStorage.set (namespace l) key v secs
  | KMemory => MemoryStorage.set key v secs
  end.

Definition get (l : Layer) (key : string) : M World (option payload) :=
  match kind l with
  | KIndexedDB => IndexedDBStorage.get (namespace l) key
  | KLocalStorage => LocalStorageStorage.get (namespace l) key
  | KMemory => MemoryStorage.get key
  end.

Definition remove (l : Layer) (key : string) : M World unit :=
  match kind l with
  | KIndexedDB => IndexedDBStorage.remove (namespace l) key
  | KLocalStorage => LocalStorageStorage.remove (namespace l) key
  | KMemory => MemoryStorage.remove key
  end.

Definition clear (l : Layer) : M World unit :=
  match kind l with
  | KIndexedDB => IndexedDBStorage.clear (namespace l)
  | KLocalStorage => LocalStorageStorage.clear (namespace l)
  | KMemory => MemoryStorage.clear
  end.

Definition keys (l : Layer) : M World (list string) :=
  match kind l with
  | KIndexedDB => IndexedDBStorage.keys (namespace l)
  | KLocalStorage => LocalStorageStorage.keys (namespace l)
  | KMemory => MemoryStorage.keys
  end.

Definition has (l : Layer) (key : string) : M World bool :=
  match kind l with
  | KIndexedDB => IndexedDBStorage.has (namespace l) key
  | KLocalStorage => LocalStorageStorage.has (namespace l) key
  | KMemory => MemoryStorage.has key
  end.

Definition size (l : Layer) : M World Z :=
  match kind l with
  | KIndexedDB => IndexedDBStorage.size (namespace l)
  | KLocalStorage => LocalStorageStorage.size (namespace l)
  | KMemory => MemoryStorage.size
  end.

Definition exportAll (l : Layer) : M World (smap payload) :=
  match kind l with
  | KIndexedDB => IndexedDBStorage.exportAll (namespace l)
  | KLocalStorage => LocalStorageStorage.exportAll (namespace l)
  | KMemory => MemoryStorage.exportAll
  end.

Definition importAll (l : Layer) (data : smap payload) : M World unit :=
  match kind l with
  | KIndexedDB => IndexedDBStorage.importAll (namespace l) data
  | KLocalStorage => LocalStorageStorage.importAll (namespace l) data
  | KMemory => MemoryStorage.importAll data
  end.

Definition supports (l : Layer) : M World bool :=
  match kind l with
  | KIndexedDB => IndexedDBStorage.supports
  | KLocalStorage => LocalStorageStorage.supports
  | KMemory => MemoryStorage.supports
  end.

(** The entry a layer holds for a key, whatever its expiry. *)
Definition entry (l : Layer) (key : string) (w : World) : option Item :=
  match kind l with
  | KIndexedDB => m_get key (IndexedDBStorage.store_of (namespace l) w)
  | KLocalStorage =>
      match m_get (LocalStorageStorage.prefix (namespace l) ++ key)%string
                  (w_localStorage w) with
      | Some (LsItem it) => Some it
      | _ => None
      end
  | KMemory => m_get key (w_memory w)
  end.

(** The keys a layer lists, read off the substrate. *)
Definition stored_keys (l : Layer) (w : World) : list string :=
  match kind l with
  | KIndexedDB => m_keys (IndexedDBStorage.store_of (namespace l) w)
  | KLocalStorage =>
      LocalStorageStorage.own_keys (namespace l) (m_keys (w_localStorage w))
  | KMemory => m_keys (w_memory w)
  end.

End Backend.

(* ================================================================== *)
(** * The orchestrator: class [LocalStorageAPI] *)

(** A storage profile, as the pipeline reads it: [None] is [undefined]. *)
Record Profile : Type := mkProfile {
  compression : option string;
  serialization : option string;
  adaptive : bool;
  maxRetries : Z
}.

(** [StorageProfiles[name]]; a name inherited from [Object.prototype]
    yields an object with none of the fields. *)
Definition StorageProfiles (name : string) : option Profile :=
  if String.eqb name "ultra-fast" then
    Some (mkProfile (Some "none") (Some "json") false 1)
  else if String.eqb name "max-compression" then
    Some (mkProfile (Some "lz-string") (Some "msgpack") true 3)
  else if String.eqb name "low-memory" then
    Some (mkProfile (Some "lz-string") (Some "json") false 1)
  else if String.eqb name "safe-mode" then
    Some (mkProfile (Some "none") (Some "json") false 5)
  else if inherited name then Some (mkProfile None None false 0)
  else None.

Definition safe_mode_profile : Profile :=
  mkProfile (Some "none") (Some "json") false 5.

(** The [options] argument of [set]. *)
Record SetOptions : Type := mkSetOptions {
  opt_ttl : option Z;
  opt_serialization : option string;
  opt_compression : option string;
  opt_force : bool
}.

Definition no_options : SetOptions := mkSetOptions None None None false.

(** The hooks are taken to be functions of their arguments that do not
    call the store. *)
Record Hooks : Type := mkHooks {
  beforeSet : option (string -> jsval -> SetOptions -> outcome jsval);
  afterSet : option (string -> jsval -> SetOptions -> outcome unit);
  beforeDelete : option (string -> outcome jsval);
  afterDelete : option (string -> outcome unit);
  beforeClear : option (outcome jsval);
  afterClear : option (outcome unit)
}.

Definition no_hooks : Hooks := mkHooks None None None None None None.

Record Encryption : Type := mkEncryption {
  preWriteEncrypt : option (payload -> outcome payload);
  postReadDecrypt : option (payload -> outcome payload)
}.

Record Sync : Type := mkSync {
  channel : bool;
  tabId : option string
}.

(** The [options] argument of the constructor. *)
Record Options : Type := mkOptions {
  o_namespace : option string;
  o_profile : option string;
  o_version : option Z;
  o_debug : bool;
  o_safeMode : bool;
  o_hooks : option Hooks;
  o_encryption : option Encryption;
  o_sync : option Sync;
  o_cacheTTL : option Z
}.

Definition default_options : Options :=
  mkOptions None None None false false None None None None.

(** What a method reads and no call changes: the fields of the instance
    that no method assigns after the constructor, and the one global of
    the host a method refers to by name, [FileReader].  [cacheTTL] is the
    property [get] reads as [this.cacheTTL]; [host_FileReader] tells
    whether [FileReader] is defined on the host the instance lives on. *)
Record Config : Type := mkConfig {
  c_namespace : string;
  profile : Profile;
  c_version : Z;
  debug : bool;
  safeMode : bool;
  hooks : Hooks;
  encryption : option Encryption;
  sync : option Sync;
  cacheTTL : option Z;
  layers : list Layer;
  currentLayer : Layer;
  host_FileReader : bool
}.

Record CacheRecord : Type := mkCacheRecord {
  cached_value : jsval;
  timestamp : Z
}.

Record AuditRecord : Type := mkAudit {
  action : string;
  audit_key : option string;
  audit_timestamp : Z;
  size : option Z
}.

Record HistoryRecord : Type := mkHistory {
  h_type : string;
  h_key : string;
  h_value : option jsval;
  h_oldValue : jsval
}.

Record Snapshot : Type := mkSnapshot {
  data : smap jsval;
  snap_timestamp : Z;
  snap_version : Z
}.

Record Metrics : Type := mkMetrics {
  reads : Z;
  writes : Z;
  deletes : Z;
  readLatency : list Z;
  writeLatency : list Z;
  errors : list error
}.

Inductive Event : Type :=
| EvChange (key : string) (v : jsval)
| EvDelete (key : string)
| EvClear
| EvImport
| EvError (act : string) (key : option string) (e : error).

Record Message : Type := mkMessage {
  msg_type : string;
  msg_tabId : string;
  msg_timestamp : Z;
  msg_key : option string;
  msg_value : option jsval
}.

(** The fields of the instance that the methods update, with the record
    of what the instance emitted and posted.  [error_listeners] counts the
    listeners registered for ['error']; listeners are taken to return
    normally and not to call the store. *)
Record Self : Type := mkSelf {
  cache : smap CacheRecord;
  auditLog : list AuditRecord;
  operationHistory : list HistoryRecord;
  snapshots : smap Snapshot;
  metrics : Metrics;
  error_listeners : nat;
  emitted : list Event;
  posted : list Message
}.

Definition set_cache (c : smap CacheRecord) (s : Self) : Self :=
  mkSelf c (auditLog s) (operationHistory s) (snapshots s) (metrics s)
         (error_listeners s) (emitted s) (posted s).
Definition set_auditLog (a : list AuditRecord) (s : Self) : Self :=
  mkSelf (cache s) a (operationHistory s) (snapshots s) (metrics s)
         (error_listeners s) (emitted s) (posted s).
Definition set_operationHistory (h : list HistoryRecord) (s : Self) : Self :=
  mkSelf (cache s) (auditLog s) h (snapshots s) (metrics s)
         (error_listeners s) (emitted s) (posted s).
Definition set_snapshots (n : smap Snapshot) (s : Self) : Self :=
  mkSelf (cache s) (auditLog s) (operationHistory s) n (metrics s)
         (error_listeners s) (emitted s) (posted s).
Definition set_metrics (m : Metrics) (s : Self) : Self :=
  mkSelf (cache s) (auditLog s) (operationHistory s) (snapshots s) m
         (error_listeners s) (emitted s) (posted s).
Definition set_emitted (e : list Event) (s : Self) : Self :=
  mkSelf (cache s) (auditLog s) (operationHistory s) (snapshots s) (metrics s)
         (error_listeners s) e (posted s).
Definition set_posted (p : list Message) (s : Self) : Self :=
  mkSelf (cache s) (auditLog s) (operationHistory s) (snapshots s) (metrics s)
         (error_listeners s) (emitted s) p.

Definition new_self : Self :=
  mkSelf [] [] [] [] (mkMetrics 0 0 0 [] [] []) 0 [] [].

Record State : Type := mkState {
  world : World;
  self : Self
}.

(** A call into a layer or the host touches the world only. *)
Definition in_world {A} (m : M World A) : M State A :=
  fun st => let (r, w) := m (world st) in (r, mkState w (self st)).

(** An update of a field of [this]. *)
Definition update (f : Self -> Self) : M State unit :=
  fun st => (Ok tt, mkState (world st) (f (self st))).

Definition read {A} (f : Self -> A) : M State A :=
  fun st => (Ok (f (self st)), st).

Definition now : M State Z := in_world Date_now.

Module LocalStorageAPI.

(** ** Construction *)

(** The loop of [initLayers]: the first layer whose [supports()] is true. *)
Fixpoint first_supported (ls : list Layer) : M World (option Layer) :=
  match ls with
  | [] => ret None
  | l :: r =>
      ok <- Backend.supports l ;;
      if ok : bool then ret (Some l) else first_supported r
  end.

(** [initLayers()]: the candidate layers in priority order and the one
    selected; the last candidate stands in when no layer reports
    support. *)
Definition initLayers (ns : string) : M World (list Layer * Layer) :=
  isNodeJS <- gets (fun w => negb (w_window w)) ;;
  let candidates :=
    (if isNodeJS : bool then []
     else [mkLayer KIndexedDB ns; mkLayer KLocalStorage ns])
    ++ [mkLayer KMemory ns] in
  found <- first_supported candidates ;;
  ret (candidates,
       match found with
       | Some l => l
       | None => last candidates (mkLayer KMemory ns)
       end).

(** [x || y] on strings *)
Definition str_or (a b : option string) : option string :=
  match a with
  | Some s => if String.eqb s EmptyString then b else a
  | None => b
  end.

(** [new LocalStorageAPI(options)].  No assignment of the constructor
    reads [options.cacheTTL].  The context of the later calls takes
    [host_FileReader] from the host. *)
Definition constructor (options : Options) : M World (Config * Self) :=
  let ns := match str_or (o_namespace options) None with
            | Some s => s
            | None => EmptyString
            end in
  let prof := match o_profile options with
              | Some name =>
                  match StorageProfiles name with
                  | Some p => p
                  | None => safe_mode_profile
                  end
              | None => safe_mode_profile
              end in
  let ver := match o_version options with
             | Some v => if v =? 0 then 1 else v
             | None => 1
             end in
  let hk := match o_hooks options with Some h => h | None => no_hooks end in
  chosen <- initLayers ns ;;
  reader <- gets w_FileReader ;;
  ret (mkConfig ns prof ver (o_debug options) (o_safeMode options) hk
                (o_encryption options) (o_sync options) None
                (fst chosen) (snd chosen) reader,
       new_self).

(** ** The serialization pipeline *)

Inductive found (A : Type) : Type :=
| Found (a : A)
| Inherited
| Missing.
Arguments Found {A} a.
Arguments Inherited {A}.
Arguments Missing {A}.

Inductive strategy : Type := SJson | SMsgpack.
Inductive engine : Type := ELz | ENone.

(** [SerializationStrategies[name]]: a strategy, a member of
    [Object.prototype], or [undefined]. *)
Definition SerializationStrategies (name : option string) : found strategy :=
  match name with
  | Some s =>
      if String.eqb s "json" then Found SJson
      else if String.eqb s "msgpack" then Found SMsgpack
      else if inherited s then Inherited
      else Missing
  | None => Missing
  end.

(** [CompressionEngines[name]] *)
Definition CompressionEngines (name : option string) : found engine :=
  match name with
  | Some s =>
      if String.eqb s "lz-string" then Found ELz
      else if String.eqb s "none" then Found ENone
      else if inherited s then Inherited
      else Missing
  | None => Missing
  end.

(** The tagged structure [serialize] substitutes for a [Map], a [Set], a
    [Date] or a [Blob] at the top of the value.  The branch of a [Blob]
    runs [new FileReader()] in the executor of a promise: where the host
    defines no [FileReader] ([reader] is [false]) the promise is rejected
    with the [ReferenceError] of the unresolved name, and so is
    [serialize]. *)
Definition tag (reader : bool) (v : jsval) : outcome jsval :=
  match v with
  | JMap es =>
      Ok (JObj [("__type", JStr "Map");
                ("value", JArr (map (fun kv => JArr [fst kv; snd kv]) es))])
  | JSet xs => Ok (JObj [("__type", JStr "Set"); ("value", JArr xs)])
  | JDate t => Ok (JObj [("__type", JStr "Date"); ("value", JStr (toISOString t))])
  | JBlob bytes mime =>
      if reader
      then Ok (JObj [("__type", JStr "Blob"); ("value", JStr (data_url mime bytes));
                     ("type", JStr mime)])
      else Throw (ReferenceError "FileReader is not defined")
  | _ => Ok v
  end.

Definition shown (name : option string) : string :=
  match name with Some s => s | None => "undefined" end.

Definition serialize (cfg : Config) (v : jsval) (options : SetOptions)
  : outcome payload :=
  let strategy := str_or (opt_serialization options) (serialization (profile cfg)) in
  let compression := str_or (opt_compression options) (compression (profile cfg)) in
  obind (tag (host_FileReader cfg) v)
    (fun data =>
       match SerializationStrategies strategy with
       | Missing =>
           Throw (SerializationError
                    ("Unknown serialization strategy: " ++ shown strategy)%string)
       | Inherited => Throw (TypeError "serializer.serialize is not a function")
       | Found s =>
           obind (match s with
                  | SJson => Ok (Lib.json_serialize data)
                  | SMsgpack => Lib.msgpackEncode data
                  end)
             (fun serialized =>
                obind (match CompressionEngines compression with
                       | Found ELz => Lib.compressToUTF16 serialized
                       | Found ENone => Ok serialized
                       | Inherited =>
                           Throw (TypeError "compressor.compress is not a function")
                       | Missing => Ok serialized
                       end)
                  (fun serialized =>
                     match encryption cfg with
                     | Some enc =>
                         match preWriteEncrypt enc with
                         | Some f => f serialized
                         | None => Ok serialized
                         end
                     | None => Ok serialized
                     end))
       end).

(** The reverse of [tag] on a parsed document. *)
Definition hydrate (parsed : jsval) : outcome jsval :=
  match parsed with
  | JObj ps =>
      match get_prop "__type" ps with
      | JStr t =>
          if String.eqb t "Map" then new_Map (get_prop "value" ps)
          else if String.eqb t "Set" then new_Set (get_prop "value" ps)
          else if String.eqb t "Date" then new_Date (get_prop "value" ps)
          else if String.eqb t "Blob" then
            new_Blob (get_prop "value" ps) (get_prop "type" ps)
          else Ok parsed
      | _ => Ok parsed
      end
  | _ => Ok parsed
  end.

Definition deserialize (cfg : Config) (p : payload) : outcome jsval :=
  match p with
  | PUndefined => Ok JUndefined
  | PEmpty => Ok (JStr EmptyString)
  | _ =>
      obind (match encryption cfg with
             | Some enc =>
                 match postReadDecrypt enc with
                 | Some f => f p
                 | None => Ok p
                 end
             | None => Ok p
             end)
        (fun p1 =>
           obind (match CompressionEngines (compression (profile cfg)) with
                  | Found ELz => Lib.decompressFromUTF16 p1
                  | Found ENone => Ok p1
                  | Inherited =>
                      Throw (TypeError "compressor.decompress is not a function")
                  | Missing => Ok p1
                  end)
             (fun p2 =>
                obind (match SerializationStrategies (serialization (profile cfg)) with
                       | Found SJson => Lib.json_deserialize p2
                       | Found SMsgpack => Lib.msgpackDecode p2
                       | Inherited =>
                           Throw (TypeError "serializer.deserialize is not a function")
                       | Missing =>
                           Throw (TypeError "Cannot read properties of undefined")
                       end)
                  hydrate))
  end.

(** ** Logging, events and cross-tab messages *)

(** [log(level, message)] with the default namespace ['storage']; [upper]
    is [level.toUpperCase()]. *)
Definition log (cfg : Config) (level upper message : string) : M State unit :=
  if (negb (debug cfg) && negb (String.eqb level "error"))%bool then ret tt
  else in_world (modify (fun w =>
         set_console (w_console w ++ [("[storage] " ++ upper ++ ": " ++ message)%string]) w)).

(** [this.emit(name, payload)]: an ['error'] event that no listener takes
    is thrown. *)
Definition emit (ev : Event) : M State unit :=
  fun st =>
    match ev with
    | EvError _ _ _ =>
        if Nat.eqb (error_listeners (self st)) 0
        then (Throw UnhandledErrorEvent, st)
        else (Ok tt, mkState (world st) (set_emitted (emitted (self st) ++ [ev]) (self st)))
    | _ => (Ok tt, mkState (world st) (set_emitted (emitted (self st) ++ [ev]) (self st)))
    end.

(** [broadcast(type, data)] *)
Definition broadcast (cfg : Config) (type : string) (key : option string)
           (v : option jsval) : M State unit :=
  match sync cfg with
  | Some s =>
      if channel s then
        t <- now ;;
        update (fun me =>
          set_posted (posted me ++
            [mkMessage type
               (match str_or (tabId s) None with Some i => i | None => "unknown" end)
               t key v]) me)
      else ret tt
  | None => ret tt
  end.

(** The [catch] block every guarded method shares. *)
Definition on_error {A} (act : string) (key : option string) (e : error)
  : M State A :=
  update (fun me =>
    set_metrics (mkMetrics (reads (metrics me)) (writes (metrics me))
                           (deletes (metrics me)) (readLatency (metrics me))
                           (writeLatency (metrics me))
                           (errors (metrics me) ++ [e])) me) ;;
  emit (EvError act key e) ;;
  throw e.

Definition count_read : M State unit :=
  update (fun me =>
    set_metrics (mkMetrics (reads (metrics me) + 1) (writes (metrics me))
                           (deletes (metrics me)) (readLatency (metrics me))
                           (writeLatency (metrics me)) (errors (metrics me))) me).

(** ** Reading *)

(** [this.cacheTTL || 300000] *)
Definition cache_window (cfg : Config) : Z :=
  match cacheTTL cfg with
  | Some n => if n =? 0 then 300000 else n
  | None => 300000
  end.

(** The part of [get] after a cache miss. *)
Definition get_from_layer (cfg : Config) (key : string) (startTime : Z)
  : M State jsval :=
  serialized <- in_world (Backend.get (currentLayer cfg) key) ;;
  match serialized with
  | None => ret JNull
  | Some p =>
      if payload_truthy p then
        v <- pure_of (deserialize cfg p) ;;
        t <- now ;;
        update (fun me => set_cache (m_set key (mkCacheRecord v t) (cache me)) me) ;;
        count_read ;;
        t' <- now ;;
        update (fun me =>
          set_metrics (mkMetrics (reads (metrics me)) (writes (metrics me))
                                 (deletes (metrics me))
                                 (readLatency (metrics me) ++ [t' - startTime])
                                 (writeLatency (metrics me)) (errors (metrics me))) me) ;;
        ret v
      else ret JNull
  end.

Definition get (cfg : Config) (key : string) : M State jsval :=
  startTime <- now ;;
  try_catch
    (cached <- read (fun me => m_get key (cache me)) ;;
     match cached with
     | Some c =>
         t <- now ;;
         if t - timestamp c <? cache_window cfg
         then count_read ;; ret (cached_value c)
         else get_from_layer cfg key startTime
     | None => get_from_layer cfg key startTime
     end)
    (on_error "get" (Some key)).

Definition has (cfg : Config) (key : string) : M State bool :=
  in_world (Backend.has (currentLayer cfg) key).

Definition size (cfg : Config) : M State Z :=
  in_world (Backend.size (currentLayer cfg)).

Definition keys (cfg : Config) : M State (list string) :=
  in_world (Backend.keys (currentLayer cfg)).

Fixpoint deserialize_entries (cfg : Config) (l : list (string * payload))
         (deserialized : smap jsval) : outcome (smap jsval) :=
  match l with
  | [] => Ok deserialized
  | (key, p) :: r =>
      obind (deserialize cfg p)
            (fun v => deserialize_entries cfg r (assign key v deserialized))
  end.

Definition exportAll (cfg : Config) : M State (smap jsval) :=
  stored <- in_world (Backend.exportAll (currentLayer cfg)) ;;
  pure_of (deserialize_entries cfg stored []).

(** ** Writing *)

(** [JSON.stringify(value).length] *)
Definition text_size (v : jsval) : outcome Z :=
  match JSON_stringify v with
  | Some s => Ok (Z.of_nat (String.length s))
  | None => Throw (TypeError "Cannot read properties of undefined (reading 'length')")
  end.

(** The body of [set] from the serialization on, with the value the
    [beforeSet] hook left. *)
Definition set_commit (cfg : Config) (key : string) (v : jsval)
           (options : SetOptions) (startTime : Z) : M State unit :=
  (if (safeMode cfg && negb (opt_force options))%bool
   then log cfg "warn" "WARN"
            ("Safe mode: Confirming set operation for key " ++ key)%string
   else ret tt) ;;
  serialized <- pure_of (serialize cfg v options) ;;
  in_world (Backend.set (currentLayer cfg) key serialized (opt_ttl options)) ;;
  t <- now ;;
  update (fun me => set_cache (m_set key (mkCacheRecord v t) (cache me)) me) ;;
  t <- now ;;
  sz <- pure_of (text_size v) ;;
  update (fun me => set_auditLog (auditLog me ++ [mkAudit "set" (Some key) t (Some sz)]) me) ;;
  oldValue <- get cfg key ;;
  update (fun me =>
    set_operationHistory (operationHistory me ++ [mkHistory "set" key (Some v) oldValue]) me) ;;
  update (fun me =>
    set_metrics (mkMetrics (reads (metrics me)) (writes (metrics me) + 1)
                           (deletes (metrics me)) (readLatency (metrics me))
                           (writeLatency (metrics me)) (errors (metrics me))) me) ;;
  t <- now ;;
  update (fun me =>
    set_metrics (mkMetrics (reads (metrics me)) (writes (metrics me))
                           (deletes (metrics me)) (readLatency (metrics me))
                           (writeLatency (metrics me) ++ [t - startTime])
                           (errors (metrics me))) me) ;;
  (match sync cfg with
   | Some _ => broadcast cfg "set" (Some key) (Some v)
   | None => ret tt
   end) ;;
  emit (EvChange key v) ;;
  match afterSet (hooks cfg) with
  | Some h => pure_of (h key v options)
  | None => ret tt
  end.

(** Whether a hook result is the veto [false]. *)
Definition is_false (v : jsval) : bool :=
  match v with
  | JBool false => true
  | _ => false
  end.

Definition set (cfg : Config) (key : string) (v : jsval) (options : SetOptions)
  : M State unit :=
  startTime <- now ;;
  try_catch
    (match beforeSet (hooks cfg) with
     | Some h =>
         result <- pure_of (h key v options) ;;
         if is_false result then ret tt
         else set_commit cfg key
                (match result with JUndefined => v | _ => result end)
                options startTime
     | None => set_commit cfg key v options startTime
     end)
    (on_error "set" (Some key)).

(** The body of [remove] after the [beforeDelete] hook. *)
Definition remove_commit (cfg : Config) (key : string) : M State unit :=
  oldValue <- get cfg key ;;
  in_world (Backend.remove (currentLayer cfg) key) ;;
  update (fun me => set_cache (m_delete key (cache me)) me) ;;
  t <- now ;;
  update (fun me => set_auditLog (auditLog me ++ [mkAudit "delete" (Some key) t None]) me) ;;
  update (fun me =>
    set_operationHistory (operationHistory me ++ [mkHistory "delete" key None oldValue]) me) ;;
  (match sync cfg with
   | Some _ => broadcast cfg "delete" (Some key) None
   | None => ret tt
   end) ;;
  emit (EvDelete key) ;;
  match afterDelete (hooks cfg) with
  | Some h => pure_of (h key)
  | None => ret tt
  end.

Definition remove (cfg : Config) (key : string) : M State unit :=
  try_catch
    (match beforeDelete (hooks cfg) with
     | Some h =>
         result <- pure_of (h key) ;;
         if is_false result then ret tt else remove_commit cfg key
     | None => remove_commit cfg key
     end)
    (on_error "delete" (Some key)).

(** The body of [clear] after the [beforeClear] hook. *)
Definition clear_commit (cfg : Config) : M State unit :=
  in_world (Backend.clear (currentLayer cfg)) ;;
  update (set_cache []) ;;
  t <- now ;;
  update (fun me => set_auditLog (auditLog me ++ [mkAudit "clear" None t None]) me) ;;
  (match sync cfg with
   | Some _ => broadcast cfg "clear" None None
   | None => ret tt
   end) ;;
  emit EvClear ;;
  match afterClear (hooks cfg) with
  | Some h => pure_of h
  | None => ret tt
  end.

Definition clear (cfg : Config) : M State unit :=
  try_catch
    (match beforeClear (hooks cfg) with
     | Some h =>
         result <- pure_of h ;;
         if is_false result then ret tt else clear_commit cfg
     | None => clear_commit cfg
     end)
    (on_error "clear" None).

Fixpoint serialize_entries (cfg : Config) (l : list (string * jsval))
         (serialized : smap payload) : outcome (smap payload) :=
  match l with
  | [] => Ok serialized
  | (key, v) :: r =>
      obind (serialize cfg v no_options)
            (fun p => serialize_entries cfg r (assign key p serialized))
  end.

Definition importAll (cfg : Config) (d : smap jsval) : M State unit :=
  update (set_cache []) ;;
  serialized <- pure_of (serialize_entries cfg d []) ;;
  in_world (Backend.importAll (currentLayer cfg) serialized) ;;
  emit EvImport.

(** ** Batch operations *)

Definition setMany (cfg : Config) (items : list (string * jsval))
           (options : SetOptions) : M State unit :=
  for_each (fun kv : string * jsval => set cfg (fst kv) (snd kv) options) items.

(** [results[key] = await this.get(key)] for each key in turn; [results]
    starts as [{}].  The method has no handler: a [TypeError] of the
    assignment leaves it as it is. *)
Fixpoint getMany_from (cfg : Config) (ks : list string) (results : Obj)
  : M State Obj :=
  match ks with
  | [] => ret results
  | key :: r =>
      v <- get cfg key ;;
      results <- pure_of (set_property key v results) ;;
      getMany_from cfg r results
  end.

Definition getMany (cfg : Config) (ks : list string) : M State Obj :=
  getMany_from cfg ks (mkObj [] ObjectPrototype).

(** The class declares [deleteMany] twice; the later declaration, the loop
    over [remove], is the method of the prototype. *)
Definition deleteMany (cfg : Config) (ks : list string) : M State unit :=
  for_each (remove cfg) ks.

(** The simple names of the core interface. *)
Definition save := set.
Definition load := get.
Definition delete := remove.
Definition reset := clear.
Definition exists_ := has.
Definition count := size.
Definition all := exportAll.
Definition saveMany := setMany.
Definition loadMany := getMany.

(** ** The query builder *)

Record QueryOptions : Type := mkQuery {
  q_filter : option (jsval -> string -> bool);
  q_sort : option (string * jsval -> string * jsval -> Z);
  q_limit : option Z;
  q_take : option Z
}.

(** [query()] *)
Definition query : QueryOptions := mkQuery None None None None.

(** [{ ...options, filter: fn }] and the like: each builder call keeps the
    other slots of the options object. *)
Definition filter (fn : jsval -> string -> bool) (o : QueryOptions) : QueryOptions :=
  mkQuery (Some fn) (q_sort o) (q_limit o) (q_take o).
Definition sort (fn : string * jsval -> string * jsval -> Z) (o : QueryOptions)
  : QueryOptions :=
  mkQuery (q_filter o) (Some fn) (q_limit o) (q_take o).
Definition limit (n : Z) (o : QueryOptions) : QueryOptions :=
  mkQuery (q_filter o) (q_sort o) (Some n) (q_take o).
Definition take (n : Z) (o : QueryOptions) : QueryOptions :=
  mkQuery (q_filter o) (q_sort o) (q_limit o) (Some n).

(** [Array.prototype.sort] with a comparator: the stable order. *)
Fixpoint insert_by {A} (cmp : A -> A -> Z) (x : A) (l : list A) : list A :=
  match l with
  | [] => [x]
  | y :: r => if cmp x y <=? 0 then x :: l else y :: insert_by cmp x r
  end.

Definition sort_by {A} (cmp : A -> A -> Z) (l : list A) : list A :=
  fold_right (insert_by cmp) [] l.

(** [options.limit || options.take] *)
Definition effective_limit (o : QueryOptions) : option Z :=
  if truthy_num (q_limit o) then q_limit o
  else if truthy_num (q_take o) then q_take o
  else None.

(** The entries [execute] keeps and orders, before any truncation. *)
Definition selected (o : QueryOptions) (allData : smap jsval) : list (string * jsval) :=
  let results := allData in
  let results := match q_filter o with
                 | Some fn => List.filter (fun kv => fn (snd kv) (fst kv)) results
                 | None => results
                 end in
  match q_sort o with
  | Some cmp => sort_by cmp results
  | None => results
  end.

(** What [execute] does with the exported data. *)
Definition run_query (o : QueryOptions) (allData : smap jsval) : smap jsval :=
  let results := selected o allData in
  let results := match effective_limit o with
                 | Some n => slice0 n results
                 | None => results
                 end in
  fromEntries results.

Definition execute (cfg : Config) (o : QueryOptions) : M State (smap jsval) :=
  allData <- exportAll cfg ;;
  ret (run_query o allData).

(** ** Snapshots *)

Definition saveSnapshot (cfg : Config) (name : string) : M State unit :=
  d <- exportAll cfg ;;
  t <- now ;;
  update (fun me => set_snapshots (m_set name (mkSnapshot d t (c_version cfg)) (snapshots me)) me).

Definition loadSnapshot (cfg : Config) (name : string) : M State unit :=
  snapshot <- read (fun me => m_get name (snapshots me)) ;;
  match snapshot with
  | None => throw (Error "Snapshot not found")
  | Some s => importAll cfg (data s)
  end.

Definition listSnapshots : M State (list (string * Snapshot)) :=
  read snapshots.

Record Diff : Type := mkDiff {
  added : list string;
  removed : list string;
  changed : list string
}.

(** [new Set([...a, ...b])] on names: first occurrences, in order. *)
Fixpoint distinct (seen l : list string) : list string :=
  match l with
  | [] => []
  | k :: r =>
      if existsb (String.eqb k) seen then distinct seen r
      else k :: distinct (k :: seen) r
  end.

(** [a === b] on two results of [JSON.stringify] *)
Definition same_text (a b : option string) : bool :=
  match a, b with
  | Some x, Some y => String.eqb x y
  | None, None => true
  | _, _ => false
  end.

Fixpoint diff_keys (d1 d2 : smap jsval) (ks : list string) (acc : Diff) : Diff :=
  match ks with
  | [] => acc
  | key :: r =>
      diff_keys d1 d2 r
        (if negb (has_in key d1) then
           mkDiff (added acc ++ [key]) (removed acc) (changed acc)
         else if negb (has_in key d2) then
           mkDiff (added acc) (removed acc ++ [key]) (changed acc)
         else if same_text (JSON_stringify (get_prop key d1))
                           (JSON_stringify (get_prop key d2)) then acc
         else mkDiff (added acc) (removed acc) (changed acc ++ [key]))
  end.

(** The comparison of the data of two snapshots. *)
Definition diff_data (d1 d2 : smap jsval) : Diff :=
  diff_keys d1 d2 (distinct [] (m_keys d1 ++ m_keys d2)) (mkDiff [] [] []).

Definition compareSnapshots (name1 name2 : string) : M State Diff :=
  s1 <- read (fun me => m_get name1 (snapshots me)) ;;
  s2 <- read (fun me => m_get name2 (snapshots me)) ;;
  match s1, s2 with
  | Some a, Some b => ret (diff_data (data a) (data b))
  | _, _ => throw (Error "Snapshot not found")
  end.

Definition getAuditLog : M State (list AuditRecord) := read auditLog.

End LocalStorageAPI.

(* ================================================================== *)
(** * Notions of the specification *)

(** Modelled from the spec: deep equality of two values, which the spec
    uses without defining it.  Primitives are compared by value, arrays
    item by item, plain objects by their sets of properties whatever the
    order, maps and sets entry by entry in insertion order, dates by time
    value, blobs by content and media type; values of different kinds and
    functions are unequal. *)
Fixpoint deep_equal (a b : jsval) : bool :=
  match a, b with
  | JUndefined, JUndefined => true
  | JNull, JNull => true
  | JBool x, JBool y => Bool.eqb x y
  | JNum x, JNum y => x =? y
  | JStr x, JStr y => String.eqb x y
  | JArr xs, JArr ys =>
      (fix items (l m : list jsval) : bool :=
         match l, m with
         | [], [] => true
         | x :: l', y :: m' => deep_equal x y && items l' m'
         | _, _ => false
         end) xs ys
  | JObj ps, JObj qs =>
      Nat.eqb (List.length ps) (List.length qs)
      && (fix props (l : list (string * jsval)) : bool :=
            match l with
            | [] => true
            | (k, v) :: l' =>
                match m_get k qs with
                | Some w => deep_equal v w
                | None => false
                end && props l'
            end) ps
  | JMap es, JMap fs =>
      (fix entries (l m : list (jsval * jsval)) : bool :=
         match l, m with
         | [], [] => true
         | (k, v) :: l', (k', v') :: m' =>
             deep_equal k k' && deep_equal v v' && entries l' m'
         | _, _ => false
         end) es fs
  | JSet xs, JSet ys =>
      (fix items (l m : list jsval) : bool :=
         match l, m with
         | [], [] => true
         | x :: l', y :: m' => deep_equal x y && items l' m'
         | _, _ => false
         end) xs ys
  | JDate s, JDate t => s =? t
  | JBlob b1 m1, JBlob b2 m2 =>
      String.eqb (string_of_list_ascii b1) (string_of_list_ascii b2)
      && String.eqb m1 m2
  | _, _ => false
  end.

(** Modelled from the spec: the error kind NotFoundError of the taxonomy,
    recognised by the name of the class of the thrown object. *)
Definition is_NotFoundError (e : error) : bool :=
  String.eqb (e_class e) "NotFoundError".

(** ** Worlds and runs for the examples *)

(** A host without [window] and without [FileReader]: Node, the tests'
    environment, where only the volatile layer is a candidate. *)
Definition node_world (clock : nat -> Z) : World :=
  mkWorld clock 0 [] false false false [] false false [] [] false.

(** A browser with [indexedDB] and [localStorage] and nothing stored. *)
Definition browser_world (clock : nat -> Z) : World :=
  mkWorld clock 0 [] true true false [] true false [] [] true.

(** A browser without [indexedDB]. *)
Definition browser_without_idb (clock : nat -> Z) : World :=
  mkWorld clock 0 [] true false false [] true false [] [] true.

(** A clock that reads [early] for the first [n] calls and [late]
    afterwards. *)
Definition step_clock (n : nat) (early late : Z) : nat -> Z :=
  fun i => if (i <? n)%nat then early else late.

(** Runs a call and keeps the state. *)
Definition exec {S A} (m : M S A) (s : S) : S := snd (m s).
Definition result {S A} (m : M S A) (s : S) : outcome A := fst (m s).

(** [new LocalStorageAPI(options)] in a world: the configuration and the
    first state.  The constructor always returns ([constructor_total]
    below), so the second branch is never taken. *)
Definition create (options : Options) (w : World) : Config * State :=
  match LocalStorageAPI.constructor options w with
  | (Ok (cfg, me), w') => (cfg, mkState w' me)
  | (_, w') =>
      (mkConfig EmptyString safe_mode_profile 1 false false no_hooks None None
                None [mkLayer KMemory EmptyString] (mkLayer KMemory EmptyString)
                (w_FileReader w'),
       mkState w' new_self)
  end.



(** The value of the repository's test of complex data types. *)
Definition complex_value : jsval :=
  JObj [("a", JNum 1); ("b", JArr [JNum 2; JNum 3]);
        ("c", JMap [(JStr "d", JNum 4)])].

(** What that value reads back as. *)
Definition complex_read_back : jsval :=
  JObj [("a", JNum 1); ("b", JArr [JNum 2; JNum 3]); ("c", JObj [])].

(** [{ ttl: secs }] *)
Definition with_ttl (secs : Z) : SetOptions := mkSetOptions (Some secs) None None false.

(** The value [set] goes on with after the [beforeSet] hook: the hook's
    replacement, or the argument when there is no hook or it returns
    [undefined]; [None] when the hook vetoes the call or does not return
    normally. *)
Definition hooked_value (cfg : Config) (key : string) (v : jsval)
           (options : SetOptions) : option jsval :=
  match beforeSet (hooks cfg) with
  | Some h =>
      match h key v options with
      | Ok r => if LocalStorageAPI.is_false r then None
                else Some (match r with JUndefined => v | _ => r end)
      | _ => None
      end
  | None => Some v
  end.


(** The three layers of the empty namespace. *)
Definition idb_layer : Layer := mkLayer KIndexedDB EmptyString.
Definition ls_layer : Layer := mkLayer KLocalStorage EmptyString.
Definition memory_layer : Layer := mkLayer KMemory EmptyString.

(** A clock that advances by ten milliseconds at every reading. *)
Definition ticking_clock : nat -> Z := fun n => Z.of_nat n * 10.

(** A state of an instance that holds two snapshots. *)
Definition two_snapshots : State :=
  mkState (node_world (fun _ => 0))
    (set_snapshots
       [("s1", mkSnapshot [("x", JNum 1)] 0 1);
        ("s2", mkSnapshot [("x", JNum 1); ("y", JNum 2)] 0 1)]
       new_self).

(** Two worlds that differ at most by the number of clock readings made
    and by the console. *)
Definition same_stores (w w' : World) : Prop :=
  w_idb w' = w_idb w /\ w_localStorage w' = w_localStorage w
  /\ w_memory w' = w_memory w /\ w_clock w' = w_clock w
  /\ w_window w' = w_window w /\ w_indexedDB w' = w_indexedDB w
  /\ w_idb_full w' = w_idb_full w
  /\ w_localStorage_ok w' = w_localStorage_ok w /\ w_ls_full w' = w_ls_full w.

(** A fresh instance on a host without [window], under a clock that
    stands still. *)
Definition node_api : Config * State :=
  create default_options (node_world (fun _ => 0)).

(** A fresh instance in a browser, under a clock that stands still. *)
Definition browser_api : Config * State :=
  create default_options (browser_world (fun _ => 0)).


(** The state of [node_api] after x was written, the snapshot "s" taken
    and y written. *)
Definition after_snapshot : State :=
  exec (LocalStorageAPI.set (fst node_api) "x" (JNum 1) no_options ;;
        LocalStorageAPI.saveSnapshot (fst node_api) "s" ;;
        LocalStorageAPI.set (fst node_api) "y" (JNum 2) no_options)
       (snd node_api).

(** A plain object that the read pipeline takes for a tagged structure:
    its [__type] is one of the four tags. *)
Definition tagged (v : jsval) : bool :=
  match v with
  | JObj ps =>
      match get_prop "__type" ps with
      | JStr t =>
          String.eqb t "Map" || String.eqb t "Set" || String.eqb t "Date"
          || String.eqb t "Blob"
      | _ => false
      end
  | _ => false
  end.


(** Whether the [beforeDelete] hook lets [remove] go on: there is no hook,
    or it returns normally something other than [false]. *)
Definition delete_allowed (cfg : Config) (key : string) : bool :=
  match beforeDelete (hooks cfg) with
  | Some h =>
      match h key with
      | Ok r => negb (LocalStorageAPI.is_false r)
      | _ => false
      end
  | None => true
  end.

(** The same for [beforeClear] and [clear]. *)
Definition clear_allowed (cfg : Config) : bool :=
  match beforeClear (hooks cfg) with
  | Some h =>
      match h with
      | Ok r => negb (LocalStorageAPI.is_false r)
      | _ => false
      end
  | None => true
  end.

(* ================================================================== *)
(** * Notions for the further properties *)

(** ** Hooks *)

(** Whether the [beforeSet] hook vetoes the call: it returns normally the
    value [false]. *)
Definition set_vetoed (cfg : Config) (key : string) (v : jsval)
           (options : SetOptions) : bool :=
  match beforeSet (hooks cfg) with
  | Some h =>
      match h key v options with
      | Ok r => LocalStorageAPI.is_false r
      | _ => false
      end
  | None => false
  end.

(** The same for [beforeDelete] and [beforeClear]. *)
Definition delete_vetoed (cfg : Config) (key : string) : bool :=
  match beforeDelete (hooks cfg) with
  | Some h =>
      match h key with
      | Ok r => LocalStorageAPI.is_false r
      | _ => false
      end
  | None => false
  end.

Definition clear_vetoed (cfg : Config) : bool :=
  match beforeClear (hooks cfg) with
  | Some h =>
      match h with
      | Ok r => LocalStorageAPI.is_false r
      | _ => false
      end
  | None => false
  end.

(** ** Parts of the state *)

(** The table [this.snapshots]. *)
Definition snapshot_table (st : State) : smap Snapshot := snapshots (self st).

(** The state after one reading of the clock. *)
Definition tick (st : State) : State :=
  mkState (set_ticks (S (w_ticks (world st))) (world st)) (self st).

(** What the next [Date.now()] returns. *)
Definition clock_reading (st : State) : Z := w_clock (world st) (w_ticks (world st)).

(** The history, the events emitted, the recorded errors, the counters of
    writes and deletions and the write latencies. *)
Definition ledger (st : State)
  : list HistoryRecord * list Event * list error * Z * Z * list Z :=
  (operationHistory (self st), emitted (self st), errors (metrics (self st)),
   writes (metrics (self st)), deletes (metrics (self st)),
   writeLatency (metrics (self st))).

(** The cache, the history and the counter of reads. *)
Definition shelf (st : State) : smap CacheRecord * list HistoryRecord * Z :=
  (cache (self st), operationHistory (self st), reads (metrics (self st))).

(** The number of clock readings made, and the clock. *)
Definition timeline (st : State) : nat * (nat -> Z) :=
  (w_ticks (world st), w_clock (world st)).

(** [this.metrics.deletes] *)
Definition deletes_of (st : State) : Z := deletes (metrics (self st)).

(** The clock and the globals of the host. *)
Definition host (w : World) : (nat -> Z) * bool * bool * bool * bool * bool :=
  (w_clock w, w_window w, w_indexedDB w, w_idb_full w, w_localStorage_ok w,
   w_ls_full w).

(** The contents of the three substrates, with the host. *)
Definition substrate (w : World)
  : smap (smap Item) * smap lstext * smap Item
    * ((nat -> Z) * bool * bool * bool * bool * bool) :=
  (w_idb w, w_localStorage w, w_memory w, host w).

Definition substrate_of (st : State) := substrate (world st).

(** What an IndexedDB layer of the namespace [ns'] sees, with the two other
    substrates. *)
Definition beside (ns' : string) (w : World) : smap Item * smap lstext * smap Item :=
  (IndexedDBStorage.store_of ns' w, w_localStorage w, w_memory w).

(** ** The pipeline *)

(** [options.serialization || this.profile.serialization] *)
Definition strategy_name (cfg : Config) (options : SetOptions) : option string :=
  LocalStorageAPI.str_or (opt_serialization options) (serialization (profile cfg)).

(** The error [serialize] throws for a strategy that does not exist. *)
Definition unknown_strategy (cfg : Config) (options : SetOptions) : error :=
  SerializationError
    ("Unknown serialization strategy: "
     ++ LocalStorageAPI.shown (strategy_name cfg options)).


(** Whether the value is a [Blob] on a host that defines no [FileReader]:
    [serialize] then fails at [new FileReader()], before it looks the
    strategy up. *)
Definition blob_without_reader (cfg : Config) (v : jsval) : bool :=
  match v with
  | JBlob _ _ => negb (host_FileReader cfg)
  | _ => false
  end.

(** The error of a [serialize] whose strategy does not exist. *)
Definition strategy_failure (cfg : Config) (v : jsval) (options : SetOptions)
  : error :=
  if blob_without_reader cfg v then ReferenceError "FileReader is not defined"
  else unknown_strategy cfg options.

(** [this.metrics.errors.push(error)] *)
Definition note_error (e : error) (me : Self) : Self :=
  set_metrics (mkMetrics (reads (metrics me)) (writes (metrics me))
                         (deletes (metrics me)) (readLatency (metrics me))
                         (writeLatency (metrics me)) (errors (metrics me) ++ [e])) me.

(** No two members are the same value for [Set] and [Map]
    (SameValueZero). *)
Fixpoint pairwise_distinct (xs : list jsval) : bool :=
  match xs with
  | [] => true
  | x :: r => negb (existsb (same_value_zero x) r) && pairwise_distinct r
  end.

(** Whether a string contains a comma. *)
Fixpoint has_comma (s : string) : bool :=
  match s with
  | EmptyString => false
  | String c r => Ascii.eqb c "," || has_comma r
  end.

(** ** Entries and their expiry *)

(** The [ttl] field a write in world [w] stores: the third reading of the
    clock plus [secs * 1000], or [null] for a falsy [secs]. *)
Definition deadline (secs : option Z) (w : World) : option Z :=
  match secs with
  | Some s => if s =? 0 then None
              else Some (w_clock w (S (S (w_ticks w))) + s * 1000)
  | None => None
  end.

(** The number of clock readings a write makes. *)
Definition readings (secs : option Z) : nat :=
  if truthy_num secs then 3%nat else 2%nat.

(** [ttl && now > ttl] *)
Definition lapsed (d : option Z) (t : Z) : bool :=
  match d with
  | Some x => negb (x =? 0) && (x <? t)
  | None => false
  end.

(** What a layer hands back for a payload it was given: [localStorage]
    keeps the JSON text of the entry. *)
Definition as_stored (l : Layer) (p : payload) : payload :=
  match kind l with
  | KLocalStorage => LocalStorageStorage.through_json p
  | _ => p
  end.

(** The entry a write in world [w] builds, and the world after its clock
    readings. *)
Definition written (v : payload) (secs : option Z) (w : World) : Item :=
  mkItem v (w_clock w (w_ticks w)) (w_clock w (S (w_ticks w))) 1 (deadline secs w).

Definition after_readings (secs : option Z) (w : World) : World :=
  set_ticks (readings secs + w_ticks w) w.

(** Whether the substrate of a layer has an item under the name of the
    key, whatever the item is. *)
Definition holds (l : Layer) (key : string) (w : World) : bool :=
  match kind l with
  | KIndexedDB => m_has key (IndexedDBStorage.store_of (namespace l) w)
  | KLocalStorage =>
      m_has (LocalStorageStorage.prefix (namespace l) ++ key)%string (w_localStorage w)
  | KMemory => m_has key (w_memory w)
  end.

(** Whether the substrate of a layer can be reached: the global it needs
    exists. *)
Definition reachable (l : Layer) (w : World) : bool :=
  match kind l with
  | KIndexedDB => w_indexedDB w
  | KLocalStorage => w_localStorage_ok w
  | KMemory => true
  end.

(** The names under which the substrate of a layer holds its items. *)
Definition raw_names (l : Layer) (w : World) : list string :=
  match kind l with
  | KIndexedDB => m_keys (IndexedDBStorage.store_of (namespace l) w)
  | KLocalStorage => m_keys (w_localStorage w)
  | KMemory => m_keys (w_memory w)
  end.

(** Each name is held once, in the read cache and in the active layer, as
    in a [Map], a [Storage] and an object store. *)
Definition one_entry_per_key (cfg : Config) (st : State) : Prop :=
  NoDup (m_keys (cache (self st)))
  /\ NoDup (raw_names (currentLayer cfg) (world st)).

Definition stays_one_per_key (cfg : Config) (s s' : State) : Prop :=
  one_entry_per_key cfg s -> one_entry_per_key cfg s'.

(** The items of [localStorage] whose name does not start with the prefix
    of a namespace. *)
Definition foreign_items (ns : string) (ls : smap lstext) : smap lstext :=
  filter (fun kv => negb (String.prefix (LocalStorageStorage.prefix ns) (fst kv))) ls.

(** Less than the cache window elapses between any two of the [n] clock
    readings that follow. *)
Definition within_window (cfg : Config) (w : World) (n : nat) : Prop :=
  forall i j, (w_ticks w <= i)%nat -> (i <= j)%nat -> (j <= w_ticks w + n)%nat ->
              w_clock w j - w_clock w i < LocalStorageAPI.cache_window cfg.

(** [respects R m]: a run of [m] takes a state to one related to it by
    [R], whatever the outcome. *)
Definition respects {S A} (R : S -> S -> Prop) (m : M S A) : Prop :=
  forall s, R s (snd (m s)).

(** ** [supports()] of the orchestrator *)

(** The object [supports()] returns. *)
Record Support : Type := mkSupport {
  s_indexedDB : bool;
  s_localStorage : bool;
  s_memory : bool;
  s_current : string
}.

(** [layer.constructor.name] *)
Definition class_name (k : LayerKind) : string :=
  match k with
  | KIndexedDB => "IndexedDBStorage"
  | KLocalStorage => "LocalStorageStorage"
  | KMemory => "MemoryStorage"
  end.

(** The [forEach] of [supports()]: the lower-cased class name of a layer
    contains exactly one of the three substrings tested ('indexeddb',
    'localstorage', 'memory'), the one of its kind. *)
Fixpoint supports_each (ls : list Layer) (r : Support) : M World Support :=
  match ls with
  | [] => ret r
  | l :: rest =>
      ok <- Backend.supports l ;;
      supports_each rest
        (match kind l with
         | KIndexedDB => mkSupport ok (s_localStorage r) (s_memory r) (s_current r)
         | KLocalStorage => mkSupport (s_indexedDB r) ok (s_memory r) (s_current r)
         | KMemory => mkSupport (s_indexedDB r) (s_localStorage r) ok (s_current r)
         end)
  end.

Definition supports (cfg : Config) : M State Support :=
  in_world (supports_each (layers cfg)
              (mkSupport false false false (class_name (kind (currentLayer cfg))))).

(** The flag [supports()] reports for a kind of layer. *)
Definition reported (r : Support) (k : LayerKind) : bool :=
  match k with
  | KIndexedDB => s_indexedDB r
  | KLocalStorage => s_localStorage r
  | KMemory => s_memory r
  end.

(** The layers [initLayers] builds in a world, and the kind it selects. *)
Definition candidates (ns : string) (w : World) : list Layer :=
  (if w_window w then [mkLayer KIndexedDB ns; mkLayer KLocalStorage ns] else [])
  ++ [mkLayer KMemory ns].

Definition selected_kind (w : World) : LayerKind :=
  if negb (w_window w) then KMemory
  else if w_indexedDB w then KIndexedDB
  else if (w_localStorage_ok w && negb (w_ls_full w))%bool then KLocalStorage
  else KMemory.

(** ** Instances for the examples *)

(** Hooks that veto every mutation. *)
Definition veto_hooks : Hooks :=
  mkHooks (Some (fun _ _ _ => Ok (JBool false))) None
          (Some (fun _ => Ok (JBool false))) None
          (Some (Ok (JBool false))) None.

Definition veto_api : Config * State :=
  create (mkOptions None None None false false (Some veto_hooks) None None None)
         (node_world (fun _ => 0)).

(** Encryption hooks that wrap and unwrap the payload. *)
Definition cipher : Encryption :=
  mkEncryption (Some (fun p => Ok (PCipher 0 p)))
               (Some (fun c => match c with
                               | PCipher _ p => Ok p
                               | _ => Unmodelled
                               end)).

Definition cipher_api : Config * State :=
  create (mkOptions None None None false false None (Some cipher) None None)
         (node_world (fun _ => 0)).

(** The state of [node_api] after x was written. *)
Definition after_set : State :=
  exec (LocalStorageAPI.set (fst node_api) "x" (JNum 1) no_options) (snd node_api).

(** A browser whose [localStorage] holds one entry in each of the
    namespaces a, a_b and c. *)
Definition three_namespaces : World :=
  exec (LocalStorageStorage.set "a" "k" (PJson (JNum 1)) None ;;
        LocalStorageStorage.set "a_b" "k" (PJson (JNum 2)) None ;;
        LocalStorageStorage.set "c" "k" (PJson (JNum 3)) None)
       (browser_without_idb (fun _ => 0)).

(** [{ serialization: 'yaml' }] *)
Definition yaml_options : SetOptions := mkSetOptions None (Some "yaml") None false.

(** The integers from [start] on, [fuel] of them. *)
Fixpoint upto (fuel : nat) (start : Z) : list Z :=
  match fuel with
  | O => []
  | S k => start :: upto k (start + 1)
  end.

(** [iso_parse] after the sign: [body] is the text without it. *)
Definition iso_parse_from (sign : Z) (body s : string) : option Z :=
  let yl := (String.length body - 20)%nat in
  match field 0 yl body, field (yl + 1) 2 body, field (yl + 4) 2 body,
        field (yl + 7) 2 body, field (yl + 10) 2 body, field (yl + 13) 2 body,
        field (yl + 16) 3 body with
  | Some y, Some mo, Some d, Some h, Some mi, Some sec, Some ms =>
      let t := days_from_civil (sign * y) mo d * 86400000
               + h * 3600000 + mi * 60000 + sec * 1000 + ms in
      if String.eqb (toISOString t) s then Some t else None
  | _, _, _, _, _, _, _ => None
  end.

(** The messages the instance has posted to the other tabs. *)
Definition posted_of (st : State) : list Message := posted (self st).

(** [this.sync && this.sync.channel] *)
Definition has_channel (cfg : Config) : bool :=
  match sync cfg with
  | Some s => channel s
  | None => false
  end.

(** [this.sync.tabId || 'unknown'] *)
Definition tab_name (cfg : Config) : string :=
  match sync cfg with
  | Some s => match LocalStorageAPI.str_or (tabId s) None with
              | Some i => i
              | None => "unknown"
              end
  | None => "unknown"
  end.

(** An instance with a channel to the other tabs. *)
Definition sync_api : Config * State :=
  create (mkOptions None None None false false None None
            (Some (mkSync true (Some "tab-1"))) None)
         (node_world (fun _ => 0)).

(** The clock is the same one, and no reading of it was taken back. *)
Definition later (w w' : World) : Prop :=
  w_clock w' = w_clock w /\ (w_ticks w <= w_ticks w')%nat.

Definition later_on (st st' : State) : Prop := later (world st) (world st').

(* ================================================================== *)
(** * Properties *)

(** ** The monad *)

Section MonadFacts.
Context {S : Type}.

Lemma bind_Ok_inv {A B} (m : M S A) (f : A -> M S B) s b s' :
  bind m f s = (Ok b, s') ->
  exists a s1, m s = (Ok a, s1) /\ f a s1 = (Ok b, s').
Proof.
  unfold bind. destruct (m s) as [[a | e |] s1]; intro H.
  - exists a, s1. split; [reflexivity | exact H].
  - discriminate H.
  - discriminate H.
Qed.


Lemma bind_Throw {A B} (m : M S A) (f : A -> M S B) s e s1 :
  m s = (Throw e, s1) -> bind m f s = (Throw e, s1).
Proof. intro H. unfold bind. rewrite H. reflexivity. Qed.

(** A guarded body that returns normally did so without its handler, when
    the handler never returns normally. *)
Lemma try_catch_Ok_inv {A} (body : M S A) (handler : error -> M S A) s a s' :
  (forall e s0 x s1, handler e s0 <> (Ok x, s1)) ->
  try_catch body handler s = (Ok a, s') -> body s = (Ok a, s').
Proof.
  intros Hh. unfold try_catch. destruct (body s) as [[x | e |] s1]; intro H.
  - exact H.
  - exfalso. exact (Hh e s1 a s' H).
  - exact H.
Qed.

Lemma keeps_ret {A X} (proj : S -> X) (a : A) : keeps proj (ret a).
Proof. intro s. reflexivity. Qed.

Lemma keeps_throw {A X} (proj : S -> X) e : keeps proj (@throw S A e).
Proof. intro s. reflexivity. Qed.

Lemma keeps_unmodelled {A X} (proj : S -> X) : keeps proj (@unmodelled S A).
Proof. intro s. reflexivity. Qed.

Lemma keeps_pure_of {A X} (proj : S -> X) (o : outcome A) : keeps proj (pure_of o).
Proof. intro s. reflexivity. Qed.

Lemma keeps_gets {A X} (proj : S -> X) (f : S -> A) : keeps proj (gets f).
Proof. intro s. reflexivity. Qed.

Lemma keeps_bind {A B X} (proj : S -> X) (m : M S A) (f : A -> M S B) :
  keeps proj m -> (forall a, keeps proj (f a)) -> keeps proj (bind m f).
Proof.
  intros Hm Hf s. unfold bind. specialize (Hm s).
  destruct (m s) as [[a | e |] s1]; simpl in *.
  - rewrite (Hf a s1). exact Hm.
  - exact Hm.
  - exact Hm.
Qed.

Lemma keeps_try_catch {A X} (proj : S -> X) (body : M S A) handler :
  keeps proj body -> (forall e, keeps proj (handler e)) ->
  keeps proj (try_catch body handler).
Proof.
  intros Hb Hh s. unfold try_catch. specialize (Hb s).
  destruct (body s) as [[a | e |] s1]; simpl in *.
  - exact Hb.
  - rewrite (Hh e s1). exact Hb.
  - exact Hb.
Qed.

Lemma keeps_for_each {A X} (proj : S -> X) (f : A -> M S unit) xs :
  (forall x, keeps proj (f x)) -> keeps proj (for_each f xs).
Proof.
  intro Hf. induction xs as [| x r IH]; simpl.
  - apply keeps_ret.
  - apply keeps_bind; [apply Hf | intros _; exact IH].
Qed.

End MonadFacts.

(** ** Maps and objects *)

Section MapFacts.
Context {V : Type}.
Implicit Types (m : smap V) (k : string) (v : V).

Lemma m_has_In k m : m_has k m = true <-> In k (m_keys m).
Proof.
  unfold m_has. induction m as [| [k' v'] r IH]; simpl.
  - split; [discriminate | intros []].
  - destruct (String.eqb_spec k k') as [-> | Hne].
    + split; auto.
    + rewrite IH. split; [auto | intros [H | H]; [congruence | exact H]].
Qed.

Lemma m_has_false k m : m_has k m = false <-> ~ In k (m_keys m).
Proof.
  rewrite <- m_has_In. destruct (m_has k m); split; congruence.
Qed.

Lemma m_keys_replace k v m : m_keys (m_replace k v m) = m_keys m.
Proof.
  induction m as [| [k' v'] r IH]; simpl; [reflexivity |].
  destruct (String.eqb k k'); simpl; [reflexivity | now rewrite IH].
Qed.

Lemma m_keys_app m1 m2 : m_keys (m1 ++ m2) = m_keys m1 ++ m_keys m2.
Proof. apply map_app. Qed.

Lemma In_m_keys_set k k' v m :
  In k (m_keys (m_set k' v m)) <-> k = k' \/ In k (m_keys m).
Proof.
  unfold m_set. destruct (m_has k' m) eqn:E.
  - rewrite m_keys_replace. apply m_has_In in E.
    split; [auto | intros [-> | H]; assumption].
  - rewrite m_keys_app, in_app_iff. simpl. intuition.
Qed.

Lemma m_get_replace_same k v m :
  m_has k m = true -> m_get k (m_replace k v m) = Some v.
Proof.
  unfold m_has. induction m as [| [k' v'] r IH]; simpl; [discriminate |].
  destruct (String.eqb k k') eqn:E; simpl; rewrite E; auto.
Qed.

Lemma m_get_app_None k m1 m2 :
  m_has k m1 = false -> m_get k (m1 ++ m2) = m_get k m2.
Proof.
  unfold m_has. induction m1 as [| [k' v'] r IH]; simpl; [reflexivity |].
  destruct (String.eqb k k'); [discriminate | exact IH].
Qed.

Lemma m_get_set_same k v m : m_get k (m_set k v m) = Some v.
Proof.
  unfold m_set. destruct (m_has k m) eqn:E.
  - now apply m_get_replace_same.
  - rewrite (m_get_app_None _ _ _ E). simpl. now rewrite String.eqb_refl.
Qed.

Lemma In_m_keys_insert_index i k k' v m :
  In k (m_keys (insert_index i k' v m)) <-> k = k' \/ In k (m_keys m).
Proof.
  induction m as [| [k0 v0] r IH]; simpl.
  - intuition.
  - destruct (array_index k0) as [j |].
    + destruct (j <? i)%N; simpl; [rewrite IH |]; intuition.
    + simpl. intuition.
Qed.

Lemma In_m_keys_define k k' v m :
  In k (m_keys (define k' v m)) <-> k = k' \/ In k (m_keys m).
Proof.
  unfold define. destruct (m_has k' m) eqn:E.
  - rewrite m_keys_replace. apply m_has_In in E.
    split; [auto | intros [-> | H]; assumption].
  - destruct (array_index k') as [i |].
    + apply In_m_keys_insert_index.
    + rewrite m_keys_app, in_app_iff. simpl. intuition.
Qed.

Lemma In_m_keys_assign k k' v m :
  In k (m_keys (assign k' v m)) <->
  (k = k' /\ k' <> "__proto__") \/ In k (m_keys m).
Proof.
  unfold assign. destruct (String.eqb_spec k' "__proto__") as [E | E].
  - intuition.
  - rewrite In_m_keys_define. intuition.
Qed.

End MapFacts.

Lemma In_distinct seen l k :
  In k (LocalStorageAPI.distinct seen l) <-> In k l /\ ~ In k seen.
Proof.
  revert seen. induction l as [| x r IH]; intro seen; simpl.
  - intuition.
  - destruct (existsb (String.eqb x) seen) eqn:E.
    + rewrite IH. apply existsb_exists in E. destruct E as [y [Hy Exy]].
      apply String.eqb_eq in Exy. subst y.
      split; [intuition | intros [[-> | H] Hn]; [contradiction | auto]].
    + simpl. rewrite IH. simpl.
      assert (Hx : ~ In x seen).
      { intro Hin. apply Bool.not_true_iff_false in E. apply E.
        apply existsb_exists. exists x. split; [exact Hin | apply String.eqb_refl]. }
      destruct (string_dec x k) as [-> | Hne].
      * intuition.
      * intuition.
Qed.

(** ** Snapshot comparison *)

Lemma same_text_spec a b : LocalStorageAPI.same_text a b = true <-> a = b.
Proof.
  destruct a as [x |], b as [y |]; simpl.
  - rewrite String.eqb_eq. split; congruence.
  - split; discriminate.
  - split; discriminate.
  - split; reflexivity.
Qed.

Lemma has_in_keys {V} k (d : smap V) : In k (m_keys d) -> has_in k d = true.
Proof.
  intro H. unfold has_in. apply m_has_In in H. now rewrite H.
Qed.

(** What the loop of [compareSnapshots] adds to each list. *)
Lemma diff_keys_spec d1 d2 ks : forall acc k,
  (In k (LocalStorageAPI.added (LocalStorageAPI.diff_keys d1 d2 ks acc)) <->
     In k (LocalStorageAPI.added acc) \/ (In k ks /\ has_in k d1 = false))
  /\ (In k (LocalStorageAPI.removed (LocalStorageAPI.diff_keys d1 d2 ks acc)) <->
        In k (LocalStorageAPI.removed acc)
        \/ (In k ks /\ has_in k d1 = true /\ has_in k d2 = false))
  /\ (In k (LocalStorageAPI.changed (LocalStorageAPI.diff_keys d1 d2 ks acc)) <->
        In k (LocalStorageAPI.changed acc)
        \/ (In k ks /\ has_in k d1 = true /\ has_in k d2 = true
            /\ JSON_stringify (get_prop k d1) <> JSON_stringify (get_prop k d2))).
Proof.
  induction ks as [| x r IH]; intros acc k; simpl.
  - intuition.
  - destruct (has_in x d1) eqn:E1; simpl.
    + destruct (has_in x d2) eqn:E2; simpl.
      * destruct (LocalStorageAPI.same_text (JSON_stringify (get_prop x d1))
                                          (JSON_stringify (get_prop x d2))) eqn:E3.
        -- apply same_text_spec in E3.
           destruct (IH acc k) as (Ha & Hr & Hc). rewrite Ha, Hr, Hc.
           repeat split; intros H; intuition (subst; congruence).
        -- assert (N3 : JSON_stringify (get_prop x d1) <> JSON_stringify (get_prop x d2)).
           { intro H. apply same_text_spec in H. congruence. }
           destruct (IH (LocalStorageAPI.mkDiff (LocalStorageAPI.added acc)
                           (LocalStorageAPI.removed acc)
                           (LocalStorageAPI.changed acc ++ [x])) k) as (Ha & Hr & Hc).
           rewrite Ha, Hr, Hc. simpl. rewrite in_app_iff. simpl.
           repeat split; intros H; intuition (subst; congruence).
      * destruct (IH (LocalStorageAPI.mkDiff (LocalStorageAPI.added acc)
                        (LocalStorageAPI.removed acc ++ [x])
                        (LocalStorageAPI.changed acc)) k) as (Ha & Hr & Hc).
        rewrite Ha, Hr, Hc. simpl. rewrite in_app_iff. simpl.
        repeat split; intros H; intuition (subst; congruence).
    + destruct (IH (LocalStorageAPI.mkDiff (LocalStorageAPI.added acc ++ [x])
                      (LocalStorageAPI.removed acc)
                      (LocalStorageAPI.changed acc)) k) as (Ha & Hr & Hc).
      rewrite Ha, Hr, Hc. simpl. rewrite in_app_iff. simpl.
      repeat split; intros H; intuition (subst; congruence).
Qed.

Lemma diff_data_added d1 d2 k :
  In k (LocalStorageAPI.added (LocalStorageAPI.diff_data d1 d2)) <->
  In k (m_keys d2) /\ has_in k d1 = false.
Proof.
  unfold LocalStorageAPI.diff_data.
  destruct (diff_keys_spec d1 d2
              (LocalStorageAPI.distinct [] (m_keys d1 ++ m_keys d2))
              (LocalStorageAPI.mkDiff [] [] []) k) as (Ha & _ & _).
  rewrite Ha, In_distinct, in_app_iff. simpl.
  split.
  - intros [[] | [[[H | H] _] E]].
    + apply has_in_keys in H. congruence.
    + auto.
  - intros [H E]. right. intuition.
Qed.

Lemma diff_data_removed d1 d2 k :
  In k (LocalStorageAPI.removed (LocalStorageAPI.diff_data d1 d2)) <->
  In k (m_keys d1) /\ has_in k d2 = false.
Proof.
  unfold LocalStorageAPI.diff_data.
  destruct (diff_keys_spec d1 d2
              (LocalStorageAPI.distinct [] (m_keys d1 ++ m_keys d2))
              (LocalStorageAPI.mkDiff [] [] []) k) as (_ & Hr & _).
  rewrite Hr, In_distinct, in_app_iff. simpl.
  split.
  - intros [[] | [[[H | H] _] [E1 E2]]].
    + auto.
    + apply has_in_keys in H. congruence.
  - intros [H E]. right. pose proof (has_in_keys _ _ H). intuition.
Qed.

Lemma diff_data_changed d1 d2 k :
  In k (LocalStorageAPI.changed (LocalStorageAPI.diff_data d1 d2)) <->
  (In k (m_keys d1) \/ In k (m_keys d2))
  /\ has_in k d1 = true /\ has_in k d2 = true
  /\ JSON_stringify (get_prop k d1) <> JSON_stringify (get_prop k d2).
Proof.
  unfold LocalStorageAPI.diff_data.
  destruct (diff_keys_spec d1 d2
              (LocalStorageAPI.distinct [] (m_keys d1 ++ m_keys d2))
              (LocalStorageAPI.mkDiff [] [] []) k) as (_ & _ & Hc).
  rewrite Hc, In_distinct, in_app_iff. simpl. intuition.
Qed.

(** ** The layers *)

Lemma m_get_put_same k it s : m_get k (IndexedDBStorage.put k it s) = Some it.
Proof.
  induction s as [| [k' it'] r IH]; simpl.
  - now rewrite String.eqb_refl.
  - destruct (String.eqb k k') eqn:E; simpl.
    + now rewrite String.eqb_refl.
    + destruct (String.ltb k k'); simpl.
      * now rewrite String.eqb_refl.
      * rewrite E. exact IH.
Qed.

Lemma store_of_set_store ns s w :
  IndexedDBStorage.store_of ns (IndexedDBStorage.set_store ns s w) = s.
Proof.
  unfold IndexedDBStorage.store_of, IndexedDBStorage.set_store. simpl.
  now rewrite m_get_set_same.
Qed.

(** The entry [new_item] builds carries the first two readings of the
    clock. *)
Lemma new_item_stamps v secs w it w' :
  new_item v secs w = (Ok it, w') ->
  createdAt it = w_clock w (w_ticks w)
  /\ updatedAt it = w_clock w (S (w_ticks w))
  /\ value it = v
  /\ w_memory w' = w_memory w /\ w_localStorage w' = w_localStorage w
  /\ w_idb w' = w_idb w /\ w_indexedDB w' = w_indexedDB w
  /\ w_idb_full w' = w_idb_full w /\ w_ls_full w' = w_ls_full w
  /\ w_localStorage_ok w' = w_localStorage_ok w.
Proof.
  unfold new_item, expiry, bind, Date_now, ret.
  destruct secs as [s |]; [destruct (s =? 0) |]; simpl;
    intro H; inversion H; subst; simpl; repeat split; reflexivity.
Qed.

Lemma new_item_total v secs w : exists it w', new_item v secs w = (Ok it, w').
Proof.
  unfold new_item, expiry, bind, Date_now, ret.
  destruct secs as [s |]; [destruct (s =? 0) |]; simpl; eauto.
Qed.

(** ** Construction and the read cache *)

(** The constructor always returns, and the instance it builds has no
    [cacheTTL] property. *)
Lemma constructor_total options w :
  exists cfg me w',
    LocalStorageAPI.constructor options w = (Ok (cfg, me), w')
    /\ cacheTTL cfg = None.
Proof.
  unfold LocalStorageAPI.constructor, LocalStorageAPI.initLayers, bind, gets, ret.
  destruct (w_window w) eqn:Ew; simpl.
  - unfold Backend.supports at 1. simpl.
    unfold IndexedDBStorage.supports, gets, bind.
    destruct (w_indexedDB w) eqn:Ei; simpl.
    + eauto.
    + unfold Backend.supports at 1. simpl.
      unfold LocalStorageStorage.supports, try_catch, bind,
        LocalStorageStorage.setItem, LocalStorageStorage.removeItem, ret.
      destruct (w_localStorage_ok w) eqn:El; simpl.
      * destruct (w_ls_full w) eqn:Ef; simpl.
        -- eauto.
        -- rewrite El. simpl. eauto.
      * eauto.
  - eauto.
Qed.

(** A read of a key whose cache record is younger than the window is
    served from the cache: the call reads the clock twice, counts one read
    and changes nothing else. *)
Lemma get_cache_hit cfg key c st :
  m_get key (cache (self st)) = Some c ->
  w_clock (world st) (S (w_ticks (world st))) - timestamp c
    < LocalStorageAPI.cache_window cfg ->
  LocalStorageAPI.get cfg key st
  = (Ok (cached_value c),
     mkState (set_ticks (S (S (w_ticks (world st)))) (world st))
             (set_metrics
                (mkMetrics (reads (metrics (self st)) + 1)
                           (writes (metrics (self st)))
                           (deletes (metrics (self st)))
                           (readLatency (metrics (self st)))
                           (writeLatency (metrics (self st)))
                           (errors (metrics (self st))))
                (self st))).
Proof.
  intros Hc Ht. destruct st as [w me]. simpl in *.
  unfold LocalStorageAPI.get, now, in_world, Date_now, try_catch, bind, read.
  simpl. rewrite Hc. simpl.
  apply Z.ltb_lt in Ht. rewrite Ht.
  unfold LocalStorageAPI.count_read, update, ret. simpl. reflexivity.
Qed.

(** A cache hit on a running instance: the key was written at time 0 with
    a one-second TTL and is read at time 2000, with [cacheTTL: 1] among the
    constructor options. *)
Example cache_hit_despite_option :
  let api := create (mkOptions None None None false false None None None (Some 1))
                    (node_world (step_clock 9 0 2000)) in
  result (LocalStorageAPI.set (fst api) "k" (JStr "v") (with_ttl 1) ;;
          LocalStorageAPI.get (fst api) "k") (snd api)
  = Ok (JStr "v").
Proof. vm_compute. reflexivity. Qed.

(** ** Snapshots *)

(** C5 (amended): for a name the snapshot table does not hold,
    [loadSnapshot] and [compareSnapshots] (in either argument position)
    throw a plain [Error] with the message "Snapshot not found" and leave
    the state as it was; the thrown object is no NotFoundError. *)
Theorem unregistered_snapshot_throws_plain_Error cfg st name other :
  m_get name (snapshots (self st)) = None ->
  LocalStorageAPI.loadSnapshot cfg name st = (Throw (Error "Snapshot not found"), st)
  /\ LocalStorageAPI.compareSnapshots name other st
     = (Throw (Error "Snapshot not found"), st)
  /\ LocalStorageAPI.compareSnapshots other name st
     = (Throw (Error "Snapshot not found"), st)
  /\ e_class (Error "Snapshot not found") = "Error"
  /\ is_NotFoundError (Error "Snapshot not found") = false.
Proof.
  intro H.
  unfold LocalStorageAPI.loadSnapshot, LocalStorageAPI.compareSnapshots, bind, read, throw.
  rewrite H. repeat split.
  destruct (m_get other (snapshots (self st))); reflexivity.
Qed.

(** C5 (witness): the theorem at the state [two_snapshots] and the name
    "s3". *)
Lemma unregistered_snapshot_witness :
  m_get "s3" (snapshots (self two_snapshots)) = None
  /\ LocalStorageAPI.loadSnapshot
       (fst (create default_options (node_world (fun _ => 0)))) "s3" two_snapshots
     = (Throw (Error "Snapshot not found"), two_snapshots).
Proof.
  split.
  - reflexivity.
  - apply (unregistered_snapshot_throws_plain_Error
             (fst (create default_options (node_world (fun _ => 0))))
             two_snapshots "s3" "s1").
    reflexivity.
Defined.

(** C5 (counterexample): on a fresh instance [loadSnapshot("missing")] and
    [compareSnapshots("missing", "s1")] throw an object of class [Error],
    which is not of the NotFoundError kind. *)
Lemma missing_snapshot_is_generic_error :
  result (LocalStorageAPI.loadSnapshot
            (fst (create default_options (node_world (fun _ => 0)))) "missing")
         (snd (create default_options (node_world (fun _ => 0))))
  = Throw (mkError "Error" "Error" "Snapshot not found" None)
  /\ result (LocalStorageAPI.compareSnapshots "missing" "s1") two_snapshots
     = Throw (mkError "Error" "Error" "Snapshot not found" None)
  /\ is_NotFoundError (mkError "Error" "Error" "Snapshot not found" None) = false.
Proof. vm_compute. repeat split; reflexivity. Qed.

(** C8 (amended): for two registered snapshots a and b,
    [compareSnapshots(a,b).added] and [compareSnapshots(b,a).removed] hold
    the same keys, and so do [removed] and the reverse [added]; [added] is
    the keys of b for which [key in a.data] is false (a name inherited from
    [Object.prototype] counts as present), [removed] the keys of a for
    which [key in b.data] is false, and [changed] the keys that are [in]
    both and whose values have different [JSON.stringify] texts. *)
Theorem compareSnapshots_by_json_text name1 name2 a b st :
  m_get name1 (snapshots (self st)) = Some a ->
  m_get name2 (snapshots (self st)) = Some b ->
  exists d d',
    LocalStorageAPI.compareSnapshots name1 name2 st = (Ok d, st)
    /\ LocalStorageAPI.compareSnapshots name2 name1 st = (Ok d', st)
    /\ (forall k, In k (LocalStorageAPI.added d) <-> In k (LocalStorageAPI.removed d'))
    /\ (forall k, In k (LocalStorageAPI.removed d) <-> In k (LocalStorageAPI.added d'))
    /\ (forall k, In k (LocalStorageAPI.added d) <->
                  In k (m_keys (data b)) /\ has_in k (data a) = false)
    /\ (forall k, In k (LocalStorageAPI.removed d) <->
                  In k (m_keys (data a)) /\ has_in k (data b) = false)
    /\ (forall k, In k (LocalStorageAPI.changed d) <->
                  (In k (m_keys (data a)) \/ In k (m_keys (data b)))
                  /\ has_in k (data a) = true /\ has_in k (data b) = true
                  /\ JSON_stringify (get_prop k (data a))
                     <> JSON_stringify (get_prop k (data b))).
Proof.
  intros Ha Hb.
  exists (LocalStorageAPI.diff_data (data a) (data b)),
         (LocalStorageAPI.diff_data (data b) (data a)).
  unfold LocalStorageAPI.compareSnapshots, bind, read, ret.
  rewrite Ha, Hb.
  split; [reflexivity |]. split; [reflexivity |].
  split; [| split; [| split; [| split]]]; intro k.
  - rewrite diff_data_added, diff_data_removed. reflexivity.
  - rewrite diff_data_added, diff_data_removed. reflexivity.
  - apply diff_data_added.
  - apply diff_data_removed.
  - apply diff_data_changed.
Qed.

(** C8 (witness): the theorem at the state [two_snapshots]. *)
Lemma compareSnapshots_witness :
  m_get "s1" (snapshots (self two_snapshots)) = Some (mkSnapshot [("x", JNum 1)] 0 1)
  /\ m_get "s2" (snapshots (self two_snapshots))
     = Some (mkSnapshot [("x", JNum 1); ("y", JNum 2)] 0 1)
  /\ exists d d',
       LocalStorageAPI.compareSnapshots "s1" "s2" two_snapshots = (Ok d, two_snapshots)
       /\ LocalStorageAPI.compareSnapshots "s2" "s1" two_snapshots = (Ok d', two_snapshots)
       /\ (forall k, In k (LocalStorageAPI.added d) <-> In k (LocalStorageAPI.removed d')).
Proof.
  split; [reflexivity |]. split; [reflexivity |].
  destruct (compareSnapshots_by_json_text "s1" "s2"
              (mkSnapshot [("x", JNum 1)] 0 1)
              (mkSnapshot [("x", JNum 1); ("y", JNum 2)] 0 1)
              two_snapshots eq_refl eq_refl)
    as (d & d' & H1 & H2 & H3 & _).
  exists d, d'. split; [exact H1 |]. split; [exact H2 | exact H3].
Defined.

(** C8 (counterexample): the key "m" holds the map a->1 in the snapshot s1
    and the map a->2 in s2, two deep-unequal values, and the key
    "constructor" is present in s2 only; the comparison reports no added
    key and "constructor" as the only changed key. *)
Lemma compareSnapshots_misses_changed_map :
  result
    (LocalStorageAPI.set (fst (create default_options (node_world (fun _ => 0))))
                         "m" (JMap [(JStr "a", JNum 1)]) no_options ;;
     LocalStorageAPI.saveSnapshot (fst (create default_options (node_world (fun _ => 0)))) "s1" ;;
     LocalStorageAPI.set (fst (create default_options (node_world (fun _ => 0))))
                         "m" (JMap [(JStr "a", JNum 2)]) no_options ;;
     LocalStorageAPI.set (fst (create default_options (node_world (fun _ => 0))))
                         "constructor" (JNum 2) no_options ;;
     LocalStorageAPI.saveSnapshot (fst (create default_options (node_world (fun _ => 0)))) "s2" ;;
     d <- LocalStorageAPI.compareSnapshots "s1" "s2" ;;
     table <- LocalStorageAPI.listSnapshots ;;
     ret (d, map (fun s => (fst s, data (snd s))) table))
    (snd (create default_options (node_world (fun _ => 0))))
  = Ok (LocalStorageAPI.mkDiff [] [] ["constructor"],
        [("s1", [("m", JMap [(JStr "a", JNum 1)])]);
         ("s2", [("m", JMap [(JStr "a", JNum 2)]); ("constructor", JNum 2)])])
  /\ deep_equal (JMap [(JStr "a", JNum 1)]) (JMap [(JStr "a", JNum 2)]) = false.
Proof. vm_compute. split; reflexivity. Qed.

(** ** The query builder *)

Lemma slice0_length {A} n (l : list A) :
  0 <= n -> List.length (slice0 n l) = Nat.min (Z.to_nat n) (List.length l).
Proof.
  intro H. unfold slice0. destruct (n <? 0) eqn:E.
  - apply Z.ltb_lt in E. lia.
  - apply length_firstn.
Qed.

(** C9 (amended): [limit] and [take] fill two separate slots of the
    options object, so the two orders of calling them build the same
    builder; [execute] truncates by the [limit] slot whenever it holds a
    non-zero number, whichever call came last, and the [take] slot is then
    ignored: the result is made of the selected entries cut by
    [slice(0, n)], the first [n] of them for a positive [n].  The [take]
    slot decides only when the [limit] slot is unset or zero. *)
Theorem limit_slot_overrides_take cfg o n m st :
  n <> 0 ->
  LocalStorageAPI.take m (LocalStorageAPI.limit n o)
  = LocalStorageAPI.limit n (LocalStorageAPI.take m o)
  /\ (forall d, LocalStorageAPI.run_query (LocalStorageAPI.take m (LocalStorageAPI.limit n o)) d
                = fromEntries (slice0 n (LocalStorageAPI.selected o d)))
  /\ (forall d, LocalStorageAPI.run_query (LocalStorageAPI.limit n (LocalStorageAPI.take m o)) d
                = fromEntries (slice0 n (LocalStorageAPI.selected o d)))
  /\ LocalStorageAPI.execute cfg (LocalStorageAPI.take m (LocalStorageAPI.limit n o)) st
     = LocalStorageAPI.execute cfg (LocalStorageAPI.limit n (LocalStorageAPI.take m o)) st
  /\ (forall d, 0 < n ->
        List.length (slice0 n (LocalStorageAPI.selected o d))
        = Nat.min (Z.to_nat n) (List.length (LocalStorageAPI.selected o d)))
  /\ (forall o' d, truthy_num (LocalStorageAPI.q_limit o') = false ->
        LocalStorageAPI.run_query (LocalStorageAPI.take n o') d
        = fromEntries (slice0 n (LocalStorageAPI.selected o' d))).
Proof.
  intro Hn.
  assert (E : (n =? 0) = false) by now apply Z.eqb_neq.
  assert (H1 : forall d, LocalStorageAPI.run_query
                           (LocalStorageAPI.take m (LocalStorageAPI.limit n o)) d
                         = fromEntries (slice0 n (LocalStorageAPI.selected o d))).
  { intro d. unfold LocalStorageAPI.run_query, LocalStorageAPI.effective_limit. simpl.
    rewrite E. reflexivity. }
  split; [reflexivity |]. split; [exact H1 |]. split; [exact H1 |].
  split; [reflexivity |]. split.
  - intros d Hp. apply slice0_length. lia.
  - intros o' d Hl.
    unfold LocalStorageAPI.run_query, LocalStorageAPI.effective_limit. simpl.
    rewrite Hl, E. reflexivity.
Qed.

(** C9 (witness): the theorem at [limit(1)] and [take(2)]. *)
Lemma limit_slot_witness :
  1 <> 0
  /\ forall d, LocalStorageAPI.run_query
                 (LocalStorageAPI.take 2 (LocalStorageAPI.limit 1 LocalStorageAPI.query)) d
               = fromEntries (slice0 1 (LocalStorageAPI.selected LocalStorageAPI.query d)).
Proof.
  split.
  - lia.
  - apply (limit_slot_overrides_take
             (fst (create default_options (node_world (fun _ => 0))))
             LocalStorageAPI.query 1 2
             (snd (create default_options (node_world (fun _ => 0))))).
    lia.
Defined.

(** C9 (counterexample): with the entries a, b and c stored,
    [query().limit(1).take(2).execute()] returns one entry, not two. *)
Lemma limit_then_take_keeps_limit :
  result
    (LocalStorageAPI.setMany (fst (create default_options (node_world (fun _ => 0))))
       [("a", JNum 1); ("b", JNum 2); ("c", JNum 3)] no_options ;;
     LocalStorageAPI.execute (fst (create default_options (node_world (fun _ => 0))))
       (LocalStorageAPI.take 2 (LocalStorageAPI.limit 1 LocalStorageAPI.query)))
    (snd (create default_options (node_world (fun _ => 0))))
  = Ok [("a", JNum 1)].
Proof. vm_compute. reflexivity. Qed.

(** ** Timestamps of an entry *)

(** C7 (amended): in each of the three layers a write that returns stores
    an entry whose [createdAt] is the reading of the clock at that write
    and whose [updatedAt] is the next reading, whether or not the key had
    an entry before: both fields are refreshed by every write, and
    [createdAt] does not survive a later write. *)
Theorem every_write_restamps_createdAt l key p secs w w' :
  Backend.set l key p secs w = (Ok tt, w') ->
  exists it,
    Backend.entry l key w' = Some it
    /\ createdAt it = w_clock w (w_ticks w)
    /\ updatedAt it = w_clock w (S (w_ticks w)).
Proof.
  destruct l as [[| |] ns]; unfold Backend.set, Backend.entry; simpl.
  - unfold IndexedDBStorage.set. intro H.
    apply bind_Ok_inv in H as (u & w1 & Hready & H).
    unfold IndexedDBStorage.waitForReady in Hready.
    destruct (w_indexedDB w); inversion Hready; subst.
    apply bind_Ok_inv in H as (it & w2 & Hitem & H).
    destruct (w_idb_full w2); inversion H; subst.
    exists it. rewrite store_of_set_store, m_get_put_same.
    apply new_item_stamps in Hitem. tauto.
  - unfold LocalStorageStorage.set. intro H.
    apply bind_Ok_inv in H as (it & w2 & Hitem & H).
    unfold LocalStorageStorage.setItem in H.
    destruct (negb (w_localStorage_ok w2)); [discriminate |].
    destruct (w_ls_full w2); inversion H; subst. simpl.
    rewrite m_get_set_same. eexists. split; [reflexivity |]. simpl.
    apply new_item_stamps in Hitem. tauto.
  - unfold MemoryStorage.set. intro H.
    apply bind_Ok_inv in H as (it & w2 & Hitem & H).
    unfold modify in H. inversion H; subst. simpl.
    rewrite m_get_set_same. exists it. split; [reflexivity |].
    apply new_item_stamps in Hitem. tauto.
Qed.

(** C7 (witness): the theorem at a second write of the key "k" to the
    volatile layer, under a clock that advances by 10 ms per reading. *)
Lemma restamp_witness :
  Backend.set memory_layer "k" (PJson (JNum 2)) None
    (exec (Backend.set memory_layer "k" (PJson (JNum 1)) None) (node_world ticking_clock))
  = (Ok tt,
     exec (Backend.set memory_layer "k" (PJson (JNum 2)) None)
       (exec (Backend.set memory_layer "k" (PJson (JNum 1)) None) (node_world ticking_clock)))
  /\ exists it,
       Backend.entry memory_layer "k"
         (exec (Backend.set memory_layer "k" (PJson (JNum 2)) None)
            (exec (Backend.set memory_layer "k" (PJson (JNum 1)) None)
               (node_world ticking_clock)))
       = Some it
       /\ createdAt it = 20 /\ updatedAt it = 30.
Proof.
  split.
  - reflexivity.
  - apply (every_write_restamps_createdAt memory_layer "k" (PJson (JNum 2)) None
             (exec (Backend.set memory_layer "k" (PJson (JNum 1)) None)
                   (node_world ticking_clock))).
    reflexivity.
Defined.

(** C7 (counterexample): in each layer the key "k" is written twice under
    a clock that advances by 10 ms per reading; [createdAt] is 0 after the
    first write and 20 after the second. *)
Lemma createdAt_changes_on_second_write :
  (option_map createdAt
     (Backend.entry memory_layer "k"
        (exec (Backend.set memory_layer "k" (PJson (JNum 1)) None)
              (node_world ticking_clock))) = Some 0
   /\ option_map createdAt
        (Backend.entry memory_layer "k"
           (exec (Backend.set memory_layer "k" (PJson (JNum 1)) None ;;
                  Backend.set memory_layer "k" (PJson (JNum 2)) None)
                 (node_world ticking_clock))) = Some 20)
  /\ (option_map createdAt
        (Backend.entry ls_layer "k"
           (exec (Backend.set ls_layer "k" (PJson (JNum 1)) None)
                 (browser_world ticking_clock))) = Some 0
      /\ option_map createdAt
           (Backend.entry ls_layer "k"
              (exec (Backend.set ls_layer "k" (PJson (JNum 1)) None ;;
                     Backend.set ls_layer "k" (PJson (JNum 2)) None)
                    (browser_world ticking_clock))) = Some 20)
  /\ (option_map createdAt
        (Backend.entry idb_layer "k"
           (exec (Backend.set idb_layer "k" (PJson (JNum 1)) None)
                 (browser_world ticking_clock))) = Some 0
      /\ option_map createdAt
           (Backend.entry idb_layer "k"
              (exec (Backend.set idb_layer "k" (PJson (JNum 1)) None ;;
                     Backend.set idb_layer "k" (PJson (JNum 2)) None)
                    (browser_world ticking_clock))) = Some 20).
Proof. vm_compute. repeat split; reflexivity. Qed.

(** ** Failure of a write *)

Lemma same_stores_refl w : same_stores w w.
Proof. unfold same_stores. repeat split; reflexivity. Qed.










(** ** Import and snapshots over the layers *)

(** *** Strings *)

Lemma prefix_append p k : String.prefix p (p ++ k)%string = true.
Proof.
  induction p as [| c p IH]; simpl.
  - destruct k; reflexivity.
  - destruct (Ascii.ascii_dec c c) as [_ | N]; [exact IH | contradiction].
Qed.

Lemma substring_all k n : (String.length k <= n)%nat -> substring 0 n k = k.
Proof.
  revert n. induction k as [| c k IH]; intros n H; simpl.
  - destruct n; reflexivity.
  - destruct n; simpl in *; [lia |]. rewrite IH; [reflexivity | lia].
Qed.

Lemma substring_skip p k n :
  (String.length k <= n)%nat -> substring (String.length p) n (p ++ k)%string = k.
Proof.
  intro H. induction p as [| c p IH]; simpl.
  - now apply substring_all.
  - exact IH.
Qed.

Lemma length_append p k : String.length (p ++ k)%string = (String.length p + String.length k)%nat.
Proof. induction p; simpl; [reflexivity | now rewrite IHp]. Qed.

Lemma In_own_keys ns names k :
  In k (LocalStorageStorage.own_keys ns names) <->
  exists name, In name names
               /\ String.prefix (LocalStorageStorage.prefix ns) name = true
               /\ substring (String.length (LocalStorageStorage.prefix ns))
                            (String.length name) name = k.
Proof.
  unfold LocalStorageStorage.own_keys. rewrite in_map_iff. split.
  - intros (name & Hk & Hin). apply filter_In in Hin. exists name. tauto.
  - intros (name & Hin & Hp & Hk). exists name. rewrite filter_In. tauto.
Qed.

Lemma own_keys_after_set ns key (text : lstext) (ls : smap lstext) k :
  In k (LocalStorageStorage.own_keys ns
          (m_keys (m_set (LocalStorageStorage.prefix ns ++ key)%string text ls))) <->
  k = key \/ In k (LocalStorageStorage.own_keys ns (m_keys ls)).
Proof.
  rewrite !In_own_keys. split.
  - intros (name & Hin & Hp & Hk). apply In_m_keys_set in Hin. destruct Hin as [-> | Hin].
    + left. rewrite substring_skip in Hk; [congruence |].
      rewrite length_append. lia.
    + right. exists name. tauto.
  - intros [-> | (name & Hin & Hp & Hk)].
    + exists (LocalStorageStorage.prefix ns ++ key)%string. split; [| split].
      * apply In_m_keys_set. now left.
      * apply prefix_append.
      * apply substring_skip. rewrite length_append. lia.
    + exists name. split; [apply In_m_keys_set; now right | tauto].
Qed.

Lemma In_m_keys_put k k' it s :
  In k (m_keys (IndexedDBStorage.put k' it s)) <-> k = k' \/ In k (m_keys s).
Proof.
  induction s as [| [k0 it0] r IH]; simpl.
  - intuition.
  - destruct (String.eqb_spec k' k0) as [-> | Hne]; simpl.
    + intuition.
    + destruct (String.ltb k' k0); simpl; [| rewrite IH]; intuition.
Qed.

(** *** [importAll] of each layer *)

Lemma memory_importAll_keys ser : forall w w',
  MemoryStorage.importAll ser w = (Ok tt, w') ->
  forall k, In k (m_keys (w_memory w')) <-> In k (m_keys (w_memory w)) \/ In k (m_keys ser).
Proof.
  unfold MemoryStorage.importAll.
  induction ser as [| [key p] r IH]; intros w w' H k; simpl in *.
  - inversion H; subst. intuition.
  - apply bind_Ok_inv in H as ([] & w1 & Hset & Hrest).
    unfold MemoryStorage.set in Hset.
    apply bind_Ok_inv in Hset as (it & w0 & Hit & Hmod).
    apply new_item_stamps in Hit. unfold modify in Hmod. inversion Hmod; subst.
    rewrite (IH _ _ Hrest k). simpl. rewrite In_m_keys_set.
    destruct Hit as (_ & _ & _ & Hm & _). rewrite Hm. intuition.
Qed.

Lemma ls_importAll_keys ns ser : forall w w',
  LocalStorageStorage.importAll ns ser w = (Ok tt, w') ->
  forall k, In k (LocalStorageStorage.own_keys ns (m_keys (w_localStorage w'))) <->
            In k (LocalStorageStorage.own_keys ns (m_keys (w_localStorage w)))
            \/ In k (m_keys ser).
Proof.
  unfold LocalStorageStorage.importAll.
  induction ser as [| [key p] r IH]; intros w w' H k.
  - inversion H; subst. simpl. intuition.
  - cbn [for_each fst snd] in H.
    apply bind_Ok_inv in H as ([] & w1 & Hset & Hrest).
    unfold LocalStorageStorage.set in Hset.
    apply bind_Ok_inv in Hset as (it & w0 & Hit & Hput).
    apply new_item_stamps in Hit. unfold LocalStorageStorage.setItem in Hput.
    destruct (negb (w_localStorage_ok w0)); [discriminate |].
    destruct (w_ls_full w0); [discriminate |].
    apply (f_equal snd) in Hput. cbn [snd] in Hput. subst w1.
    rewrite (IH _ _ Hrest k). unfold set_localStorage. cbn [w_localStorage].
    rewrite own_keys_after_set.
    destruct Hit as (_ & _ & _ & _ & Hl & _). rewrite Hl.
    unfold m_keys. cbn [map fst In]. intuition (subst; auto).
Qed.

Lemma import_items_keys data : forall s w s' w',
  IndexedDBStorage.import_items data s w = (Ok s', w') ->
  same_stores w w'
  /\ forall k, In k (m_keys s') <-> In k (m_keys s) \/ In k (m_keys data).
Proof.
  induction data as [| [key p] r IH]; intros s w s' w' H; simpl in *.
  - inversion H; subst. split; [apply same_stores_refl | intuition].
  - unfold bind, Date_now in H. simpl in H.
    apply IH in H. destruct H as (Hs & Hk). split.
    + unfold same_stores in *. simpl in Hs. exact Hs.
    + intro k. rewrite Hk, In_m_keys_put. intuition.
Qed.

Lemma idb_importAll_keys ns ser w w' :
  IndexedDBStorage.importAll ns ser w = (Ok tt, w') ->
  forall k, In k (m_keys (IndexedDBStorage.store_of ns w')) <->
            In k (m_keys (IndexedDBStorage.store_of ns w)) \/ In k (m_keys ser).
Proof.
  unfold IndexedDBStorage.importAll. intros H k.
  apply bind_Ok_inv in H as ([] & w1 & Hready & H).
  unfold IndexedDBStorage.waitForReady in Hready.
  destruct (w_indexedDB w); inversion Hready; subst.
  apply bind_Ok_inv in H as (s0 & w2 & Hs0 & H).
  unfold gets in Hs0. inversion Hs0; subst.
  apply bind_Ok_inv in H as (s & w3 & Himp & H).
  apply import_items_keys in Himp. destruct Himp as (Hs & Hk).
  destruct ser as [| x r].
  - inversion H; subst. destruct Hs as (Hi & _).
    unfold IndexedDBStorage.store_of. rewrite Hi. simpl. intuition.
  - destruct (w_idb_full w3); inversion H; subst.
    rewrite store_of_set_store. apply Hk.
Qed.

Lemma Backend_importAll_keys l ser w w' :
  Backend.importAll l ser w = (Ok tt, w') ->
  forall k, In k (Backend.stored_keys l w') <->
            In k (Backend.stored_keys l w) \/ In k (m_keys ser).
Proof.
  unfold Backend.importAll, Backend.stored_keys.
  destruct (kind l).
  - apply idb_importAll_keys.
  - apply ls_importAll_keys.
  - apply memory_importAll_keys.
Qed.

Lemma serialize_entries_keys cfg l : forall acc ser,
  LocalStorageAPI.serialize_entries cfg l acc = Ok ser ->
  forall k, In k (m_keys ser) <->
            In k (m_keys acc) \/ (In k (m_keys l) /\ k <> "__proto__").
Proof.
  induction l as [| [key v] r IH]; intros acc ser H k; simpl in *.
  - inversion H; subst. intuition.
  - destruct (LocalStorageAPI.serialize cfg v no_options) as [p | |]; simpl in H;
      try discriminate.
    rewrite (IH _ _ H k), In_m_keys_assign. intuition (subst; auto).
Qed.

Lemma keys_are_stored_keys cfg st ks st' :
  LocalStorageAPI.keys cfg st = (Ok ks, st') ->
  ks = Backend.stored_keys (currentLayer cfg) (world st) /\ st' = st.
Proof.
  unfold LocalStorageAPI.keys, in_world, Backend.keys, Backend.stored_keys.
  destruct st as [w me]. simpl.
  destruct (kind (currentLayer cfg)).
  - unfold IndexedDBStorage.keys, IndexedDBStorage.waitForReady, bind, gets.
    destruct (w_indexedDB w); intro H; inversion H; subst. auto.
  - unfold LocalStorageStorage.keys, LocalStorageStorage.names, bind, ret.
    destruct (negb (w_localStorage_ok w)); intro H; inversion H; subst. auto.
  - unfold MemoryStorage.keys, gets. intro H; inversion H; subst. auto.
Qed.

(** C4 (amended): [loadSnapshot] of a registered name imports the
    snapshot over the live state without clearing it: after the call the
    keys of the active layer are the keys it held before together with the
    snapshot's keys (but for a key "__proto__"), so a key absent from the
    snapshot stays; the cache is emptied, one ['import'] event is emitted
    and the audit log is left as it was. *)
Theorem loadSnapshot_merges_into_live_state cfg name s st st' :
  m_get name (snapshots (self st)) = Some s ->
  LocalStorageAPI.loadSnapshot cfg name st = (Ok tt, st') ->
  (forall k, In k (Backend.stored_keys (currentLayer cfg) (world st')) <->
             In k (Backend.stored_keys (currentLayer cfg) (world st))
             \/ (In k (m_keys (data s)) /\ k <> "__proto__"))
  /\ (forall ks st'', LocalStorageAPI.keys cfg st' = (Ok ks, st'') ->
                      ks = Backend.stored_keys (currentLayer cfg) (world st'))
  /\ cache (self st') = []
  /\ emitted (self st') = emitted (self st) ++ [EvImport]
  /\ auditLog (self st') = auditLog (self st).
Proof.
  intros Hs H. unfold LocalStorageAPI.loadSnapshot in H.
  unfold bind at 1 in H. unfold read at 1 in H. rewrite Hs in H.
  unfold LocalStorageAPI.importAll in H.
  apply bind_Ok_inv in H as ([] & st1 & Hclear & H).
  unfold update in Hclear. inversion Hclear; subst; clear Hclear.
  apply bind_Ok_inv in H as (ser & st2 & Hser & H).
  unfold pure_of in Hser.
  destruct (LocalStorageAPI.serialize_entries cfg (data s) []) as [ser' | |] eqn:Eser;
    inversion Hser; subst; clear Hser.
  apply bind_Ok_inv in H as ([] & st3 & Himp & H).
  unfold in_world in Himp. simpl in Himp.
  destruct (Backend.importAll (currentLayer cfg) ser (world st)) as [r w3] eqn:Eimp.
  inversion Himp; subst; clear Himp.
  unfold LocalStorageAPI.emit in H. inversion H; subst; clear H. simpl.
  split; [| split; [| repeat split; reflexivity]].
  - intro k. rewrite (Backend_importAll_keys _ _ _ _ Eimp k).
    rewrite (serialize_entries_keys _ _ _ _ Eser k). simpl. intuition.
  - intros ks st'' Hk. apply keys_are_stored_keys in Hk. simpl in Hk. tauto.
Qed.

(** C4 (witness): the theorem at [after_snapshot] and the snapshot "s". *)
Lemma loadSnapshot_witness :
  m_get "s" (snapshots (self after_snapshot)) = Some (mkSnapshot [("x", JNum 1)] 0 1)
  /\ LocalStorageAPI.loadSnapshot (fst node_api) "s" after_snapshot
     = (Ok tt, exec (LocalStorageAPI.loadSnapshot (fst node_api) "s") after_snapshot)
  /\ cache (self (exec (LocalStorageAPI.loadSnapshot (fst node_api) "s") after_snapshot))
     = [].
Proof.
  split; [reflexivity |]. split; [reflexivity |].
  apply (loadSnapshot_merges_into_live_state (fst node_api) "s"
           (mkSnapshot [("x", JNum 1)] 0 1) after_snapshot
           (exec (LocalStorageAPI.loadSnapshot (fst node_api) "s") after_snapshot)
           eq_refl eq_refl).
Defined.

(** C4 (counterexample): x is written, the snapshot "s" is taken, y is
    written; the snapshot holds the key x only, and after
    [loadSnapshot("s")] the live keys are x and y. *)
Lemma loadSnapshot_keeps_later_key :
  option_map (fun s => m_keys (data s)) (m_get "s" (snapshots (self after_snapshot)))
  = Some ["x"]
  /\ result (LocalStorageAPI.loadSnapshot (fst node_api) "s" ;;
             LocalStorageAPI.keys (fst node_api)) after_snapshot
     = Ok ["x"; "y"]
  /\ result (LocalStorageAPI.loadSnapshot (fst node_api) "s" ;;
             LocalStorageAPI.get (fst node_api) "y") after_snapshot
     = Ok (JNum 2).
Proof. vm_compute. repeat split; reflexivity. Qed.

(* ================================================================== *)
(** * Where the code departs from its contract *)

(** C1 (failing input): the value of the repository's own round-trip test,
    an object that holds a [Map].  The write succeeds; a read that reaches
    the layer (here a [get] issued 300000 ms later, when the cache record
    has aged out, and an [all] issued at once, which never looks at the
    cache) returns the object with an empty plain object in place of the
    map, which is not deep-equal to the value written. *)
Theorem nested_map_is_lost_on_read :
  result (LocalStorageAPI.set (fst (create default_options
                                      (node_world (step_clock 8 0 300000))))
                              "complex" complex_value no_options ;;
          LocalStorageAPI.get (fst (create default_options
                                      (node_world (step_clock 8 0 300000))))
                              "complex")
         (snd (create default_options (node_world (step_clock 8 0 300000))))
  = Ok complex_read_back
  /\ result (LocalStorageAPI.save (fst node_api) "complex" complex_value no_options ;;
             LocalStorageAPI.all (fst node_api)) (snd node_api)
     = Ok [("complex", complex_read_back)]
  /\ deep_equal complex_read_back complex_value = false
  /\ LocalStorageAPI.serialize (fst node_api) complex_value no_options
     = Ok (PJson complex_read_back).
Proof. vm_compute. repeat split; reflexivity. Qed.

(** C2 (failing input): the key "k" is written at time 0 with a TTL of one
    second, so that its entry expires at 1000, and is looked up at time
    2000.  On the volatile layer [keys()] still lists "k" and [get("k")]
    returns the value (from the cache); on the localStorage layer
    [has("k")] is true and [keys()] lists "k"; on the IndexedDB layer
    [keys()] lists "k". *)
Theorem expired_entry_is_still_listed :
  (option_map ttl
     (Backend.entry memory_layer "k"
        (world (exec (LocalStorageAPI.set
                        (fst (create default_options (node_world (step_clock 9 0 2000))))
                        "k" (JStr "v") (with_ttl 1))
                     (snd (create default_options (node_world (step_clock 9 0 2000)))))))
   = Some (Some 1000)
   /\ result (LocalStorageAPI.set
                (fst (create default_options (node_world (step_clock 9 0 2000))))
                "k" (JStr "v") (with_ttl 1) ;;
              LocalStorageAPI.keys
                (fst (create default_options (node_world (step_clock 9 0 2000)))))
             (snd (create default_options (node_world (step_clock 9 0 2000))))
      = Ok ["k"]
   /\ result (LocalStorageAPI.set
                (fst (create default_options (node_world (step_clock 9 0 2000))))
                "k" (JStr "v") (with_ttl 1) ;;
              LocalStorageAPI.get
                (fst (create default_options (node_world (step_clock 9 0 2000)))) "k")
             (snd (create default_options (node_world (step_clock 9 0 2000))))
      = Ok (JStr "v"))
  /\ (currentLayer (fst (create default_options (browser_without_idb (step_clock 9 0 2000))))
      = ls_layer
      /\ result (LocalStorageAPI.set
                   (fst (create default_options (browser_without_idb (step_clock 9 0 2000))))
                   "k" (JStr "v") (with_ttl 1) ;;
                 LocalStorageAPI.has
                   (fst (create default_options (browser_without_idb (step_clock 9 0 2000))))
                   "k")
                (snd (create default_options (browser_without_idb (step_clock 9 0 2000))))
         = Ok true
      /\ result (LocalStorageAPI.set
                   (fst (create default_options (browser_without_idb (step_clock 9 0 2000))))
                   "k" (JStr "v") (with_ttl 1) ;;
                 LocalStorageAPI.keys
                   (fst (create default_options (browser_without_idb (step_clock 9 0 2000)))))
                (snd (create default_options (browser_without_idb (step_clock 9 0 2000))))
         = Ok ["k"])
  /\ (currentLayer (fst (create default_options (browser_world (step_clock 9 0 2000))))
      = idb_layer
      /\ result (LocalStorageAPI.set
                   (fst (create default_options (browser_world (step_clock 9 0 2000))))
                   "k" (JStr "v") (with_ttl 1) ;;
                 LocalStorageAPI.keys
                   (fst (create default_options (browser_world (step_clock 9 0 2000)))))
                (snd (create default_options (browser_world (step_clock 9 0 2000))))
         = Ok ["k"]).
Proof. vm_compute. repeat split; reflexivity. Qed.

(** C6 (failing input): [importAll({x: 1})] on a fresh instance commits x
    to the layer and emits ['import'], and the audit log stays empty; so
    does it after [loadSnapshot].  The sibling calls [set], [remove] and
    [clear] each append their record, and [setMany] one record per item. *)
Theorem importAll_leaves_audit_log_unchanged :
  result (LocalStorageAPI.importAll (fst node_api) [("x", JNum 1)] ;;
          LocalStorageAPI.getAuditLog) (snd node_api) = Ok []
  /\ Backend.entry memory_layer "x"
       (world (exec (LocalStorageAPI.importAll (fst node_api) [("x", JNum 1)])
                    (snd node_api)))
     = Some (mkItem (PJson (JNum 1)) 0 0 1 None)
  /\ emitted (self (exec (LocalStorageAPI.importAll (fst node_api) [("x", JNum 1)])
                         (snd node_api))) = [EvImport]
  /\ auditLog (self (exec (LocalStorageAPI.loadSnapshot (fst node_api) "s") after_snapshot))
     = auditLog (self after_snapshot)
  /\ result (LocalStorageAPI.set (fst node_api) "x" (JNum 1) no_options ;;
             LocalStorageAPI.remove (fst node_api) "x" ;;
             LocalStorageAPI.clear (fst node_api) ;;
             LocalStorageAPI.getAuditLog) (snd node_api)
     = Ok [mkAudit "set" (Some "x") 0 (Some 1);
           mkAudit "delete" (Some "x") 0 None;
           mkAudit "clear" None 0 None]
  /\ result (LocalStorageAPI.setMany (fst node_api)
               [("a", JNum 1); ("b", JNum 2)] no_options ;;
             LocalStorageAPI.getAuditLog) (snd node_api)
     = Ok [mkAudit "set" (Some "a") 0 (Some 1);
           mkAudit "set" (Some "b") 0 (Some 1)].
Proof. vm_compute. repeat split; reflexivity. Qed.

(* ================================================================== *)
(** * What does hold *)

(** ** The audit log *)

Section SelfFrame.
Context {X : Type} (f : Self -> X).





End SelfFrame.








Lemma on_error_not_Ok {A} act key e st (x : A) st' :
  LocalStorageAPI.on_error act key e st <> (Ok x, st').
Proof.
  unfold LocalStorageAPI.on_error, bind, update, LocalStorageAPI.emit, throw. simpl.
  destruct (Nat.eqb (error_listeners (self st)) 0); simpl; discriminate.
Qed.

Lemma keeps_run {S A X} (proj : S -> X) (m : M S A) s r s' :
  keeps proj m -> m s = (r, s') -> proj s' = proj s.
Proof. intros Hk Hm. specialize (Hk s). rewrite Hm in Hk. exact Hk. Qed.







(** ** The pipeline on JSON-native values *)

Lemma json_of_native v : json_native v = true -> json_of v = Some v.
Proof.
  induction v using jsval_nested_ind; simpl; intro Hn; try discriminate;
    try reflexivity.
  - f_equal. f_equal.
    induction H as [| x r Hx Hr IH]; simpl in *; [reflexivity |].
    apply andb_true_iff in Hn. destruct Hn as [Hn1 Hn2].
    rewrite (Hx Hn1), (IH Hn2). reflexivity.
  - f_equal. f_equal.
    induction H as [| [k x] r Hx Hr IH]; simpl in *; [reflexivity |].
    apply andb_true_iff in Hn. destruct Hn as [Hn1 Hn2].
    rewrite (Hx Hn1), (IH Hn2). reflexivity.
Qed.

Lemma hydrate_untagged v : tagged v = false -> LocalStorageAPI.hydrate v = Ok v.
Proof.
  unfold tagged, LocalStorageAPI.hydrate. destruct v; try reflexivity.
  destruct (get_prop "__type" props); try reflexivity.
  intro H. apply orb_false_iff in H. destruct H as [H H4].
  apply orb_false_iff in H. destruct H as [H H3].
  apply orb_false_iff in H. destruct H as [H1 H2].
  rewrite H1, H2, H3, H4. reflexivity.
Qed.

Lemma tag_native reader v :
  json_native v = true -> LocalStorageAPI.tag reader v = Ok v.
Proof. destruct v; simpl; try discriminate; reflexivity. Qed.

(** X2: under a profile whose strategy is json and whose compression is
    none or lz-string, and without encryption hooks, the write pipeline
    followed by the read pipeline returns a JSON-native value (null, a
    boolean, an integer, a string, and arrays and plain objects of these)
    as it was, provided the value is not a plain object carrying one of the
    four [__type] tags. *)
Theorem json_native_round_trip cfg v :
  encryption cfg = None ->
  serialization (profile cfg) = Some "json" ->
  compression (profile cfg) = Some "none"
  \/ compression (profile cfg) = Some "lz-string" ->
  json_native v = true ->
  tagged v = false ->
  obind (LocalStorageAPI.serialize cfg v no_options) (LocalStorageAPI.deserialize cfg)
  = Ok v.
Proof.
  intros He Hs Hc Hn Ht.
  unfold LocalStorageAPI.serialize, LocalStorageAPI.deserialize. simpl.
  rewrite He, Hs, (tag_native _ _ Hn). simpl.
  unfold Lib.json_serialize. rewrite (json_of_native _ Hn).
  destruct Hc as [Hc | Hc]; rewrite Hc; simpl; now apply hydrate_untagged.
Qed.

(** X2 (witness): the theorem at the default profile and a nested
    JSON-native object. *)
Lemma json_native_round_trip_witness :
  encryption (fst node_api) = None
  /\ serialization (profile (fst node_api)) = Some "json"
  /\ compression (profile (fst node_api)) = Some "none"
  /\ json_native (JObj [("a", JNum 1); ("b", JArr [JNull; JStr "s"; JBool true])]) = true
  /\ tagged (JObj [("a", JNum 1); ("b", JArr [JNull; JStr "s"; JBool true])]) = false
  /\ obind (LocalStorageAPI.serialize (fst node_api)
              (JObj [("a", JNum 1); ("b", JArr [JNull; JStr "s"; JBool true])])
              no_options)
           (LocalStorageAPI.deserialize (fst node_api))
     = Ok (JObj [("a", JNum 1); ("b", JArr [JNull; JStr "s"; JBool true])]).
Proof.
  split; [reflexivity |]. split; [reflexivity |]. split; [reflexivity |].
  split; [reflexivity |]. split; [reflexivity |].
  apply (json_native_round_trip (fst node_api)
           (JObj [("a", JNum 1); ("b", JArr [JNull; JStr "s"; JBool true])])).
  - reflexivity.
  - reflexivity.
  - left. reflexivity.
  - reflexivity.
  - reflexivity.
Defined.

(** The four tagged kinds at the top of a value do come back, on these
    inputs; the [Blob] where the host has a [FileReader]. *)
Example tagged_values_round_trip :
  obind (LocalStorageAPI.serialize (fst node_api) (JDate 1700000000123) no_options)
        (LocalStorageAPI.deserialize (fst node_api)) = Ok (JDate 1700000000123)
  /\ obind (LocalStorageAPI.serialize (fst node_api)
              (JMap [(JStr "d", JNum 4); (JNum 1, JArr [JNull])]) no_options)
           (LocalStorageAPI.deserialize (fst node_api))
     = Ok (JMap [(JStr "d", JNum 4); (JNum 1, JArr [JNull])])
  /\ obind (LocalStorageAPI.serialize (fst node_api) (JSet [JStr "d"; JNum 4]) no_options)
           (LocalStorageAPI.deserialize (fst node_api))
     = Ok (JSet [JStr "d"; JNum 4])
  /\ obind (LocalStorageAPI.serialize (fst browser_api)
              (JBlob (list_ascii_of_string "hey") "text/plain") no_options)
           (LocalStorageAPI.deserialize (fst browser_api))
     = Ok (JBlob (list_ascii_of_string "hey") "text/plain").
Proof. vm_compute. repeat split; reflexivity. Qed.

(** ** Selection of the layer *)

(** X3: the constructor selects the IndexedDB layer when [window] and
    [indexedDB] exist, the localStorage layer when [window] exists,
    [indexedDB] does not and the probe write to [localStorage] succeeds, and
    the volatile layer otherwise; it never fails. *)
Theorem initial_layer_by_priority options w :
  exists cfg me w',
    LocalStorageAPI.constructor options w = (Ok (cfg, me), w')
    /\ kind (currentLayer cfg)
       = (if negb (w_window w) then KMemory
          else if w_indexedDB w then KIndexedDB
          else if (w_localStorage_ok w && negb (w_ls_full w))%bool then KLocalStorage
          else KMemory)
    /\ In (currentLayer cfg) (layers cfg).
Proof.
  unfold LocalStorageAPI.constructor, LocalStorageAPI.initLayers, bind, gets, ret.
  destruct (w_window w) eqn:Ew; simpl.
  - unfold Backend.supports at 1. simpl.
    unfold IndexedDBStorage.supports, gets, bind.
    destruct (w_indexedDB w) eqn:Ei; simpl.
    + eexists; eexists; eexists. split; [reflexivity |]. simpl. auto.
    + unfold Backend.supports at 1. simpl.
      unfold LocalStorageStorage.supports, try_catch, bind,
        LocalStorageStorage.setItem, LocalStorageStorage.removeItem, ret.
      destruct (w_localStorage_ok w) eqn:El; simpl.
      * destruct (w_ls_full w) eqn:Ef; simpl.
        -- eexists; eexists; eexists. split; [reflexivity |]. simpl. auto.
        -- rewrite El. simpl.
           eexists; eexists; eexists. split; [reflexivity |]. simpl. auto.
      * eexists; eexists; eexists. split; [reflexivity |]. simpl. auto.
  - eexists; eexists; eexists. split; [reflexivity |]. simpl. auto.
Qed.

(* ================================================================== *)
(** * Further properties of the code *)

(** ** Frames over the state of the instance *)

Section StateFrame.
Context {X : Type} (proj : State -> X).

Lemma frame_in_world {A} (m : M World A) :
  (forall w w' me, proj (mkState w' me) = proj (mkState w me)) ->
  keeps proj (in_world m).
Proof.
  intros H st. unfold in_world. destruct (m (world st)) as [r w']. simpl.
  destruct st as [w me]. apply H.
Qed.

Lemma frame_update (g : Self -> Self) :
  (forall w me, proj (mkState w (g me)) = proj (mkState w me)) ->
  keeps proj (update g).
Proof. intros H st. destruct st as [w me]. simpl. apply H. Qed.

Lemma frame_read {A} (g : Self -> A) : keeps proj (read g).
Proof. intro st. reflexivity. Qed.

Lemma frame_emit_plain ev :
  (forall w me e, proj (mkState w (set_emitted e me)) = proj (mkState w me)) ->
  keeps proj (LocalStorageAPI.emit ev).
Proof.
  intros H st. unfold LocalStorageAPI.emit. destruct st as [w me].
  destruct ev; try (simpl; apply H).
  simpl. destruct (Nat.eqb (error_listeners me) 0); simpl; [reflexivity | apply H].
Qed.

End StateFrame.

Ltac frame_step :=
  match goal with
  | |- keeps _ (bind _ _) => apply keeps_bind; [| intro]
  | |- keeps _ (ret _) => apply keeps_ret
  | |- keeps _ (throw _) => apply keeps_throw
  | |- keeps _ (pure_of _) => apply keeps_pure_of
  | |- keeps _ (try_catch _ _) => apply keeps_try_catch; [| intro]
  | |- keeps _ (for_each _ _) => apply keeps_for_each; intro
  | |- keeps _ (in_world _) => apply frame_in_world; intros; reflexivity
  | |- keeps _ now => apply frame_in_world; intros; reflexivity
  | |- keeps _ (update _) => apply frame_update; intros; reflexivity
  | |- keeps _ (read _) => apply frame_read
  | |- keeps _ (LocalStorageAPI.emit _) => apply frame_emit_plain; intros; reflexivity
  | |- keeps _ (match ?x with _ => _ end) => destruct x
  end.

Ltac frame :=
  unfold LocalStorageAPI.log, LocalStorageAPI.broadcast, LocalStorageAPI.count_read;
  repeat frame_step.

(** X4: a [beforeSet], [beforeDelete] or [beforeClear] hook that returns
    [false] makes the call return normally with nothing changed: no layer
    is touched, nothing is cached, logged, counted or emitted.  [set] has
    read the clock once by then; [remove] and [clear] leave the state
    exactly as it was. *)
Theorem vetoed_call_changes_nothing cfg :
  (forall key v options st,
      set_vetoed cfg key v options = true ->
      LocalStorageAPI.set cfg key v options st
      = (Ok tt, mkState (set_ticks (S (w_ticks (world st))) (world st)) (self st)))
  /\ (forall key st,
         delete_vetoed cfg key = true ->
         LocalStorageAPI.remove cfg key st = (Ok tt, st))
  /\ (forall st,
         clear_vetoed cfg = true ->
         LocalStorageAPI.clear cfg st = (Ok tt, st)).
Proof.
  split; [| split].
  - intros key v options [w me] H. unfold set_vetoed in H.
    unfold LocalStorageAPI.set, bind, now, in_world, Date_now, try_catch, pure_of. simpl.
    destruct (beforeSet (hooks cfg)) as [h |]; [| discriminate].
    destruct (h key v options) as [r | |]; try discriminate.
    rewrite H. reflexivity.
  - intros key [w me] H. unfold delete_vetoed in H.
    unfold LocalStorageAPI.remove, bind, try_catch, pure_of.
    destruct (beforeDelete (hooks cfg)) as [h |]; [| discriminate].
    destruct (h key) as [r | |]; try discriminate.
    rewrite H. reflexivity.
  - intros [w me] H. unfold clear_vetoed in H.
    unfold LocalStorageAPI.clear, bind, try_catch, pure_of.
    destruct (beforeClear (hooks cfg)) as [h |]; [| discriminate].
    destruct h as [r | |]; try discriminate.
    rewrite H. reflexivity.
Qed.

(** X4 (witness): a [set] on an instance whose hooks veto every mutation. *)
Lemma vetoed_call_witness :
  set_vetoed (fst veto_api) "x" (JNum 1) no_options = true
  /\ LocalStorageAPI.set (fst veto_api) "x" (JNum 1) no_options (snd veto_api)
     = (Ok tt, mkState (set_ticks (S (w_ticks (world (snd veto_api))))
                          (world (snd veto_api)))
                       (self (snd veto_api))).
Proof.
  split; [vm_compute; reflexivity |].
  apply (proj1 (vetoed_call_changes_nothing (fst veto_api))).
  vm_compute. reflexivity.
Defined.

(** ** The snapshot table *)

Lemma on_error_keeps_snapshots {A} act key e :
  keeps snapshot_table (@LocalStorageAPI.on_error A act key e).
Proof. unfold LocalStorageAPI.on_error, snapshot_table. frame. Qed.

Lemma get_keeps_snapshots cfg key : keeps snapshot_table (LocalStorageAPI.get cfg key).
Proof.
  unfold LocalStorageAPI.get, LocalStorageAPI.get_from_layer. 
  unfold snapshot_table. frame; apply on_error_keeps_snapshots.
Qed.

Lemma set_keeps_snapshots cfg key v o :
  keeps snapshot_table (LocalStorageAPI.set cfg key v o).
Proof.
  unfold LocalStorageAPI.set, LocalStorageAPI.set_commit.
  unfold snapshot_table; frame;
    try apply get_keeps_snapshots; try apply on_error_keeps_snapshots.
Qed.

Lemma remove_keeps_snapshots cfg key :
  keeps snapshot_table (LocalStorageAPI.remove cfg key).
Proof.
  unfold LocalStorageAPI.remove, LocalStorageAPI.remove_commit.
  unfold snapshot_table; frame;
    try apply get_keeps_snapshots; try apply on_error_keeps_snapshots.
Qed.

Lemma clear_keeps_snapshots cfg : keeps snapshot_table (LocalStorageAPI.clear cfg).
Proof.
  unfold LocalStorageAPI.clear, LocalStorageAPI.clear_commit.
  unfold snapshot_table; frame; try apply on_error_keeps_snapshots.
Qed.

Lemma importAll_keeps_snapshots cfg d :
  keeps snapshot_table (LocalStorageAPI.importAll cfg d).
Proof. unfold LocalStorageAPI.importAll, snapshot_table. frame. Qed.

Lemma exportAll_keeps_snapshots cfg : keeps snapshot_table (LocalStorageAPI.exportAll cfg).
Proof. unfold LocalStorageAPI.exportAll, snapshot_table. frame. Qed.

(** X5: the snapshot table is changed by [saveSnapshot] only.  [set],
    [get], [remove], [clear], [importAll], [loadSnapshot], [setMany],
    [deleteMany] and a query leave it as it was whatever their outcome, so
    a stored snapshot is not affected by later writes; a [saveSnapshot]
    that returns puts under its name the data [exportAll] returned, with
    the instance's version, and replaces nothing else. *)
Theorem only_saveSnapshot_changes_the_snapshot_table cfg :
  (forall key v o, keeps snapshot_table (LocalStorageAPI.set cfg key v o))
  /\ (forall key, keeps snapshot_table (LocalStorageAPI.get cfg key))
  /\ (forall key, keeps snapshot_table (LocalStorageAPI.remove cfg key))
  /\ keeps snapshot_table (LocalStorageAPI.clear cfg)
  /\ (forall d, keeps snapshot_table (LocalStorageAPI.importAll cfg d))
  /\ (forall name, keeps snapshot_table (LocalStorageAPI.loadSnapshot cfg name))
  /\ (forall items o, keeps snapshot_table (LocalStorageAPI.setMany cfg items o))
  /\ (forall ks, keeps snapshot_table (LocalStorageAPI.deleteMany cfg ks))
  /\ (forall q, keeps snapshot_table (LocalStorageAPI.execute cfg q))
  /\ (forall name st st',
         LocalStorageAPI.saveSnapshot cfg name st = (Ok tt, st') ->
         exists d t s1,
           LocalStorageAPI.exportAll cfg st = (Ok d, s1)
           /\ snapshot_table st'
              = m_set name (mkSnapshot d t (c_version cfg)) (snapshot_table st)).
Proof.
  repeat split.
  - intros. apply set_keeps_snapshots.
  - intros. apply get_keeps_snapshots.
  - intros. apply remove_keeps_snapshots.
  - apply clear_keeps_snapshots.
  - intros. apply importAll_keeps_snapshots.
  - intros name. unfold LocalStorageAPI.loadSnapshot.
    apply keeps_bind; [apply frame_read | intros [s |]].
    + apply importAll_keeps_snapshots.
    + apply keeps_throw.
  - intros. unfold LocalStorageAPI.setMany. apply keeps_for_each. intro.
    apply set_keeps_snapshots.
  - intros. unfold LocalStorageAPI.deleteMany. apply keeps_for_each. intro.
    apply remove_keeps_snapshots.
  - intros. unfold LocalStorageAPI.execute.
    apply keeps_bind; [apply exportAll_keeps_snapshots | intro; apply keeps_ret].
  - intros name st st' H. unfold LocalStorageAPI.saveSnapshot in H.
    apply bind_Ok_inv in H as (d & s1 & H1 & H).
    apply bind_Ok_inv in H as (t & s2 & H2 & H).
    exists d, t, s1. split; [exact H1 |].
    assert (E1 : snapshot_table s1 = snapshot_table st).
    { eapply keeps_run; [| exact H1]. apply exportAll_keeps_snapshots. }
    assert (E2 : snapshot_table s2 = snapshot_table s1).
    { eapply keeps_run; [| exact H2]. unfold snapshot_table. frame. }
    unfold update in H. inversion H; subst. unfold snapshot_table in *. simpl.
    congruence.
Qed.

(** ** A snapshot against itself *)

Lemma same_text_refl a : LocalStorageAPI.same_text a a = true.
Proof. destruct a; simpl; [apply String.eqb_refl | reflexivity]. Qed.

Lemma diff_keys_same d ks acc :
  (forall k, In k ks -> has_in k d = true) ->
  LocalStorageAPI.diff_keys d d ks acc = acc.
Proof.
  revert acc. induction ks as [| k r IH]; intros acc H; simpl; [reflexivity |].
  rewrite (H k (or_introl eq_refl)). simpl. rewrite same_text_refl.
  apply IH. intros k' Hk. apply H. right. exact Hk.
Qed.

Lemma diff_data_same d :
  LocalStorageAPI.diff_data d d = LocalStorageAPI.mkDiff [] [] [].
Proof.
  unfold LocalStorageAPI.diff_data. apply diff_keys_same.
  intros k Hk. apply In_distinct in Hk. destruct Hk as [Hk _].
  apply has_in_keys. apply in_app_or in Hk. tauto.
Qed.

(** X6: the comparison of two registered snapshots that hold the same data
    (in particular of a snapshot with itself) reports nothing added,
    removed or changed, and changes nothing. *)
Theorem unchanged_snapshots_compare_empty name1 name2 a b st :
  m_get name1 (snapshots (self st)) = Some a ->
  m_get name2 (snapshots (self st)) = Some b ->
  data a = data b ->
  LocalStorageAPI.compareSnapshots name1 name2 st
  = (Ok (LocalStorageAPI.mkDiff [] [] []), st).
Proof.
  intros Ha Hb Hd. unfold LocalStorageAPI.compareSnapshots, bind, read.
  rewrite Ha, Hb. unfold ret. rewrite Hd, diff_data_same. reflexivity.
Qed.

(** X6 (witness): the snapshot s1 compared with itself. *)
Lemma unchanged_snapshots_witness :
  m_get "s1" (snapshots (self two_snapshots)) = Some (mkSnapshot [("x", JNum 1)] 0 1)
  /\ data (mkSnapshot [("x", JNum 1)] 0 1) = data (mkSnapshot [("x", JNum 1)] 0 1)
  /\ LocalStorageAPI.compareSnapshots "s1" "s1" two_snapshots
     = (Ok (LocalStorageAPI.mkDiff [] [] []), two_snapshots).
Proof.
  split; [vm_compute; reflexivity |]. split; [reflexivity |].
  apply (unchanged_snapshots_compare_empty "s1" "s1"
           (mkSnapshot [("x", JNum 1)] 0 1) (mkSnapshot [("x", JNum 1)] 0 1));
    vm_compute; reflexivity.
Defined.

(** ** [set] through its hook *)

Lemma now_run st : now st = (Ok (clock_reading st), tick st).
Proof. reflexivity. Qed.

Lemma set_as_commit cfg key v v' options st :
  hooked_value cfg key v options = Some v' ->
  LocalStorageAPI.set cfg key v options st
  = try_catch (LocalStorageAPI.set_commit cfg key v' options (clock_reading st))
      (LocalStorageAPI.on_error "set" (Some key)) (tick st).
Proof.
  unfold hooked_value, LocalStorageAPI.set. intro H.
  unfold bind at 1. rewrite now_run.
  destruct (beforeSet (hooks cfg)) as [h |].
  - unfold try_catch, bind at 1, pure_of.
    destruct (h key v options) as [r | |]; try discriminate.
    destruct (LocalStorageAPI.is_false r); [discriminate |].
    inversion H; subst. reflexivity.
  - inversion H; subst. reflexivity.
Qed.

Lemma on_error_run {A} act key e st :
  @LocalStorageAPI.on_error A act key e st
  = if Nat.eqb (error_listeners (self st)) 0
    then (Throw UnhandledErrorEvent, mkState (world st) (note_error e (self st)))
    else (Throw e,
          mkState (world st)
            (set_emitted (emitted (self st) ++ [EvError act key e])
               (note_error e (self st)))).
Proof.
  unfold LocalStorageAPI.on_error, bind, update, LocalStorageAPI.emit, throw, note_error.
  cbn [self world set_metrics error_listeners].
  destruct (Nat.eqb (error_listeners (self st)) 0); reflexivity.
Qed.

Lemma safe_mode_notice_run cfg key options st :
  exists s1,
    (if (safeMode cfg && negb (opt_force options))%bool
     then LocalStorageAPI.log cfg "warn" "WARN"
            ("Safe mode: Confirming set operation for key " ++ key)%string
     else ret tt) st = (Ok tt, s1)
    /\ same_stores (world s1) (world st) /\ w_ticks (world s1) = w_ticks (world st)
    /\ self s1 = self st.
Proof.
  destruct (safeMode cfg && negb (opt_force options))%bool.
  - unfold LocalStorageAPI.log.
    destruct (negb (debug cfg) && negb ("warn" =? "error")%string)%bool.
    + eexists. split; [reflexivity |]. split; [apply same_stores_refl | auto].
    + eexists. split; [reflexivity |]. split; [| auto].
      unfold same_stores. simpl. tauto.
  - eexists. split; [reflexivity |]. split; [apply same_stores_refl | auto].
Qed.

(** X7: a [set] whose serialization strategy (the per-call option, else
    the profile's) names no strategy fails before anything is written: it
    throws the [SerializationError] 'Unknown serialization strategy: ...'
    (the emitter's unhandled-error exception when no listener is
    registered for ['error']), records that error in [metrics.errors], and
    leaves the three substrates, the cache and the audit log as they
    were.  One error comes before the lookup of the strategy: for a [Blob]
    on a host without [FileReader] the error thrown and recorded is the
    [ReferenceError] of [new FileReader()], with the same effects. *)
Theorem unknown_strategy_fails_before_the_write cfg key v v' options st :
  hooked_value cfg key v options = Some v' ->
  LocalStorageAPI.SerializationStrategies (strategy_name cfg options)
  = LocalStorageAPI.Missing ->
  result (LocalStorageAPI.set cfg key v options) st
  = Throw (if Nat.eqb (error_listeners (self st)) 0 then UnhandledErrorEvent
           else strategy_failure cfg v' options)
  /\ (blob_without_reader cfg v' = false ->
      strategy_failure cfg v' options = unknown_strategy cfg options)
  /\ same_stores (world (exec (LocalStorageAPI.set cfg key v options) st)) (world st)
  /\ cache (self (exec (LocalStorageAPI.set cfg key v options) st)) = cache (self st)
  /\ auditLog (self (exec (LocalStorageAPI.set cfg key v options) st)) = auditLog (self st)
  /\ errors (metrics (self (exec (LocalStorageAPI.set cfg key v options) st)))
     = errors (metrics (self st)) ++ [strategy_failure cfg v' options].
Proof.
  intros Hh Hs. unfold result, exec. rewrite (set_as_commit _ _ _ _ _ _ Hh).
  destruct (safe_mode_notice_run cfg key options (tick st)) as (s1 & E0 & Hw & _ & Hm).
  assert (E : LocalStorageAPI.set_commit cfg key v' options (clock_reading st) (tick st)
              = (Throw (strategy_failure cfg v' options), s1)).
  { unfold LocalStorageAPI.set_commit. unfold bind at 1. rewrite E0.
    unfold bind at 1, pure_of, LocalStorageAPI.serialize.
    fold (strategy_name cfg options). rewrite Hs.
    unfold strategy_failure, blob_without_reader, unknown_strategy.
    destruct v'; try reflexivity.
    cbn [LocalStorageAPI.tag]. destruct (host_FileReader cfg); reflexivity. }
  assert (Hb : blob_without_reader cfg v' = false ->
               strategy_failure cfg v' options = unknown_strategy cfg options).
  { unfold strategy_failure. intros ->. reflexivity. }
  unfold try_catch. rewrite E, on_error_run, Hm. cbn [tick self].
  destruct (Nat.eqb (error_listeners (self st)) 0); cbn [fst snd world self];
    (split; [reflexivity |]); (split; [exact Hb |]); (split; [exact Hw |]);
    repeat split; reflexivity.
Qed.

(** X7 (witness): [set] with the option [serialization: 'yaml'] on a fresh
    instance. *)
Lemma unknown_strategy_witness :
  hooked_value (fst node_api) "x" (JNum 1) yaml_options = Some (JNum 1)
  /\ LocalStorageAPI.SerializationStrategies (strategy_name (fst node_api) yaml_options)
     = LocalStorageAPI.Missing
  /\ result (LocalStorageAPI.set (fst node_api) "x" (JNum 1) yaml_options) (snd node_api)
     = Throw (if Nat.eqb (error_listeners (self (snd node_api))) 0
              then UnhandledErrorEvent
              else unknown_strategy (fst node_api) yaml_options).
Proof.
  split; [vm_compute; reflexivity |]. split; [vm_compute; reflexivity |].
  apply (unknown_strategy_fails_before_the_write (fst node_api) "x" (JNum 1) (JNum 1)
           yaml_options (snd node_api)); vm_compute; reflexivity.
Defined.

(** ** What no layer changes: the clock and the host *)

Lemma keeps_modify {S X} (proj : S -> X) (f : S -> S) :
  (forall s, proj (f s) = proj s) -> keeps proj (modify f).
Proof. intros H s. apply H. Qed.

Lemma keeps_direct {S A X} (proj : S -> X) (m : M S A) :
  (forall s, proj (snd (m s)) = proj s) -> keeps proj m.
Proof. intros H s. apply H. Qed.

Ltac host_prim :=
  apply keeps_direct; intro;
  unfold Date_now, LocalStorageStorage.setItem, LocalStorageStorage.getItem,
    LocalStorageStorage.removeItem, LocalStorageStorage.names,
    IndexedDBStorage.waitForReady, unmodelled;
  repeat match goal with
         | |- context [if ?b then _ else _] => destruct b
         | |- context [match ?x with _ => _ end] => destruct x
         end;
  reflexivity.

Ltac host_step :=
  match goal with
  | |- keeps _ (bind _ _) => apply keeps_bind; [| intro]
  | |- keeps _ (ret _) => apply keeps_ret
  | |- keeps _ (throw _) => apply keeps_throw
  | |- keeps _ (gets _) => apply keeps_gets
  | |- keeps _ (modify _) => apply keeps_modify; intro; reflexivity
  | |- keeps _ (try_catch _ _) => apply keeps_try_catch; [| intro]
  | |- keeps _ (for_each _ _) => apply keeps_for_each; intro
  | |- keeps _ (match ?x with _ => _ end) => destruct x
  | |- keeps _ _ => host_prim
  end.

Ltac host_frame := repeat host_step.

(** ** What a successful [get] leaves alone *)

Lemma frame_in_world_via {A X} (pw : World -> X) (m : M World A) :
  keeps pw m -> keeps (fun st => pw (world st)) (in_world m).
Proof.
  intros H st. unfold in_world. specialize (H (world st)).
  destruct (m (world st)) as [r w']. exact H.
Qed.

Lemma in_world_Ok_inv {A} (m : M World A) st a st' :
  in_world m st = (Ok a, st') ->
  m (world st) = (Ok a, world st') /\ self st' = self st.
Proof.
  unfold in_world. destruct (m (world st)) as [r w']. intro H.
  inversion H; subst. split; reflexivity.
Qed.

Lemma get_Ok_inv cfg key st v st' :
  LocalStorageAPI.get cfg key st = (Ok v, st') ->
  (cached <- read (fun me => m_get key (cache me)) ;;
   match cached with
   | Some c =>
       t <- now ;;
       if t - timestamp c <? LocalStorageAPI.cache_window cfg
       then LocalStorageAPI.count_read ;; ret (cached_value c)
       else LocalStorageAPI.get_from_layer cfg key (clock_reading st)
   | None => LocalStorageAPI.get_from_layer cfg key (clock_reading st)
   end) (tick st) = (Ok v, st').
Proof.
  unfold LocalStorageAPI.get. intro H. unfold bind at 1 in H. rewrite now_run in H.
  apply try_catch_Ok_inv in H; [exact H |].
  intros. apply on_error_not_Ok.
Qed.

Lemma get_Ok_ledger cfg key st v st' :
  LocalStorageAPI.get cfg key st = (Ok v, st') -> ledger st' = ledger st.
Proof.
  intro H. apply get_Ok_inv in H.
  change (ledger st) with (ledger (tick st)).
  eapply keeps_run; [| exact H].
  unfold LocalStorageAPI.get_from_layer, ledger. frame.
Qed.

(** ** A write followed by a read, layer by layer *)

Lemma new_item_run v secs w :
  new_item v secs w
  = (Ok (mkItem v (w_clock w (w_ticks w)) (w_clock w (S (w_ticks w))) 1 (deadline secs w)),
     set_ticks (readings secs + w_ticks w) w).
Proof.
  unfold new_item, expiry, deadline, readings, truthy_num, bind, Date_now, ret.
  destruct secs as [s |]; [destruct (s =? 0) |]; reflexivity.
Qed.

Lemma expired_run it w :
  expired it w
  = (Ok (lapsed (ttl it) (w_clock w (w_ticks w))),
     if match ttl it with Some t => negb (t =? 0) | None => false end
     then set_ticks (S (w_ticks w)) w else w).
Proof.
  unfold expired, lapsed, bind, Date_now, ret.
  destruct (ttl it) as [t |]; [destruct (t =? 0) |]; reflexivity.
Qed.

Lemma new_item_written v secs w :
  new_item v secs w = (Ok (written v secs w), after_readings secs w).
Proof. apply new_item_run. Qed.

Lemma memory_set_run key p secs w :
  MemoryStorage.set key p secs w
  = (Ok tt, set_memory (m_set key (written p secs w) (w_memory w))
              (after_readings secs w)).
Proof.
  unfold MemoryStorage.set, bind. rewrite new_item_written. reflexivity.
Qed.

Lemma ls_set_run ns key p secs w :
  LocalStorageStorage.set ns key p secs w
  = if negb (w_localStorage_ok w) then (Throw LocalStorageStorage.no_localStorage,
                                        after_readings secs w)
    else if w_ls_full w then (Throw DOMQuotaExceeded, after_readings secs w)
    else (Ok tt,
          set_localStorage
            (m_set (LocalStorageStorage.prefix ns ++ key)%string
               (LsItem (written (LocalStorageStorage.through_json p) secs w))
               (w_localStorage w))
            (after_readings secs w)).
Proof.
  unfold LocalStorageStorage.set, bind. rewrite new_item_written.
  unfold LocalStorageStorage.setItem, after_readings.
  cbn [w_localStorage_ok w_ls_full w_localStorage set_ticks].
  destruct (w_localStorage_ok w), (w_ls_full w); reflexivity.
Qed.

Lemma idb_set_run ns key p secs w :
  IndexedDBStorage.set ns key p secs w
  = if w_indexedDB w then
      if w_idb_full w then (Throw DOMQuotaExceeded, after_readings secs w)
      else (Ok tt,
            IndexedDBStorage.set_store ns
              (IndexedDBStorage.put key (written p secs w)
                 (IndexedDBStorage.store_of ns w))
              (after_readings secs w))
    else (Throw (ReferenceError "indexedDB is not defined"), w).
Proof.
  unfold IndexedDBStorage.set, IndexedDBStorage.waitForReady. unfold bind at 1.
  destruct (w_indexedDB w); [| reflexivity].
  unfold bind. rewrite new_item_written. unfold after_readings.
  cbn [w_idb_full set_ticks]. destruct (w_idb_full w); reflexivity.
Qed.

Lemma ls_get_item_run ns key it w :
  w_localStorage_ok w = true ->
  m_get (LocalStorageStorage.prefix ns ++ key)%string (w_localStorage w) = Some (LsItem it) ->
  fst (LocalStorageStorage.get ns key w)
  = Ok (if lapsed (ttl it) (w_clock w (w_ticks w)) then None else Some (value it)).
Proof.
  intros Ho Hg. unfold LocalStorageStorage.get, LocalStorageStorage.getItem.
  unfold bind at 1. rewrite Ho, Hg. cbn [negb]. unfold bind at 1. rewrite expired_run.
  destruct (lapsed _ _); [| reflexivity].
  unfold LocalStorageStorage.remove, LocalStorageStorage.removeItem, bind, ret.
  destruct (match ttl it with Some t => negb (t =? 0) | None => false end);
    cbn [w_localStorage_ok set_ticks]; rewrite Ho; reflexivity.
Qed.

Lemma idb_get_item_run ns key it w :
  w_indexedDB w = true ->
  m_get key (IndexedDBStorage.store_of ns w) = Some it ->
  fst (IndexedDBStorage.get ns key w)
  = Ok (if lapsed (ttl it) (w_clock w (w_ticks w)) then None else Some (value it)).
Proof.
  intros Ho Hg. unfold IndexedDBStorage.get, IndexedDBStorage.waitForReady.
  unfold bind at 1. rewrite Ho. unfold bind at 1, gets. rewrite Hg.
  unfold bind at 1. rewrite expired_run.
  destruct (lapsed _ _); [| reflexivity].
  unfold IndexedDBStorage.remove, IndexedDBStorage.waitForReady, bind, modify, ret.
  destruct (match ttl it with Some t => negb (t =? 0) | None => false end);
    cbn [w_indexedDB set_ticks]; rewrite Ho; reflexivity.
Qed.

Lemma memory_get_item_run key it w :
  m_get key (w_memory w) = Some it ->
  fst (MemoryStorage.get key w)
  = Ok (if lapsed (ttl it) (w_clock w (w_ticks w)) then None else Some (value it)).
Proof.
  intros Hg. unfold MemoryStorage.get. unfold bind at 1, gets. rewrite Hg.
  unfold bind at 1. rewrite expired_run.
  destruct (lapsed _ _); [| reflexivity].
  unfold bind, modify, ret.
  destruct (match ttl it with Some t => negb (t =? 0) | None => false end); reflexivity.
Qed.

(** X9: in each of the three layers, a [get] that follows a successful
    [set] of the same key returns the payload written (as read back from
    its JSON text for localStorage), unless the entry's deadline -- the
    third clock reading of the write plus [ttl * 1000], when [ttl] is
    truthy -- is non-zero and lies before the clock reading of the [get]:
    then it returns [null]. *)
Theorem write_then_read_within_ttl l key p secs w w' :
  Backend.set l key p secs w = (Ok tt, w') ->
  result (Backend.get l key) w'
  = Ok (if lapsed (deadline secs w) (w_clock w (readings secs + w_ticks w))
        then None else Some (as_stored l p)).
Proof.
  unfold Backend.set, Backend.get, as_stored, result. destruct (kind l).
  - rewrite idb_set_run. destruct (w_indexedDB w) eqn:Ei; [| discriminate].
    destruct (w_idb_full w); [discriminate |].
    intro H. apply (f_equal snd) in H. cbn [snd] in H. subst w'.
    rewrite (idb_get_item_run _ _ (written p secs w)).
    + reflexivity.
    + exact Ei.
    + rewrite store_of_set_store. apply m_get_put_same.
  - rewrite ls_set_run. destruct (w_localStorage_ok w) eqn:Eo; [| discriminate].
    destruct (w_ls_full w); [discriminate |]. cbn [negb].
    intro H. apply (f_equal snd) in H. cbn [snd] in H. subst w'.
    rewrite (ls_get_item_run _ _ (written (LocalStorageStorage.through_json p) secs w)).
    + reflexivity.
    + exact Eo.
    + apply m_get_set_same.
  - rewrite memory_set_run.
    intro H. apply (f_equal snd) in H. cbn [snd] in H. subst w'.
    rewrite (memory_get_item_run _ (written p secs w)).
    + reflexivity.
    + apply m_get_set_same.
Qed.

(** X9 (witness): a write with a ttl of sixty seconds on the volatile layer,
    under a clock that advances by ten milliseconds at each reading. *)
Lemma write_then_read_witness :
  Backend.set memory_layer "k" (PJson (JNum 1)) (Some 60) (node_world ticking_clock)
  = (Ok tt, exec (Backend.set memory_layer "k" (PJson (JNum 1)) (Some 60))
               (node_world ticking_clock))
  /\ result (Backend.get memory_layer "k")
       (exec (Backend.set memory_layer "k" (PJson (JNum 1)) (Some 60))
             (node_world ticking_clock))
     = Ok (Some (PJson (JNum 1))).
Proof.
  split; [vm_compute; reflexivity |].
  exact (write_then_read_within_ttl memory_layer "k" (PJson (JNum 1)) (Some 60)
           (node_world ticking_clock)
           (exec (Backend.set memory_layer "k" (PJson (JNum 1)) (Some 60))
                 (node_world ticking_clock))
           ltac:(vm_compute; reflexivity)).
Defined.

(** ** Reading back through the cache *)

Ltac tframe_step :=
  match goal with
  | |- keeps _ (bind _ _) => apply keeps_bind; [| intro]
  | |- keeps _ (ret _) => apply keeps_ret
  | |- keeps _ (throw _) => apply keeps_throw
  | |- keeps _ (pure_of _) => apply keeps_pure_of
  | |- keeps _ (in_world (modify _)) =>
      apply (frame_in_world_via (fun w => (w_ticks w, w_clock w)));
      apply keeps_modify; intro; reflexivity
  | |- keeps _ (update _) => apply frame_update; intros; reflexivity
  | |- keeps _ (read _) => apply frame_read
  | |- keeps _ (LocalStorageAPI.emit _) => apply frame_emit_plain; intros; reflexivity
  | |- keeps _ (match ?x with _ => _ end) => destruct x
  end.

Ltac tframe := unfold timeline, LocalStorageAPI.log; repeat tframe_step.

Lemma Backend_set_Ok_timeline l key p secs w w' :
  Backend.set l key p secs w = (Ok tt, w') ->
  w_ticks w' = (readings secs + w_ticks w)%nat /\ w_clock w' = w_clock w.
Proof.
  unfold Backend.set. destruct (kind l).
  - rewrite idb_set_run. destruct (w_indexedDB w); [| discriminate].
    destruct (w_idb_full w); [discriminate |].
    intro H. apply (f_equal snd) in H. cbn [snd] in H. subst w'. split; reflexivity.
  - rewrite ls_set_run. destruct (negb (w_localStorage_ok w)); [discriminate |].
    destruct (w_ls_full w); [discriminate |].
    intro H. apply (f_equal snd) in H. cbn [snd] in H. subst w'. split; reflexivity.
  - rewrite memory_set_run.
    intro H. apply (f_equal snd) in H. cbn [snd] in H. subst w'. split; reflexivity.
Qed.

Lemma readings_le secs : (readings secs <= 3)%nat.
Proof. unfold readings. destruct (truthy_num secs); lia. Qed.

Lemma broadcast_Ok_timeline cfg type key v st st' :
  LocalStorageAPI.broadcast cfg type key v st = (Ok tt, st') ->
  w_clock (world st') = w_clock (world st)
  /\ (w_ticks (world st) <= w_ticks (world st') <= S (w_ticks (world st)))%nat.
Proof.
  unfold LocalStorageAPI.broadcast.
  destruct (sync cfg) as [s |]; [destruct (channel s) |].
  - unfold bind. rewrite now_run. unfold update. intro H.
    apply (f_equal snd) in H. cbn [snd] in H. subst st'. cbn. split; [reflexivity | lia].
  - intro H. inversion H; subst. split; [reflexivity | lia].
  - intro H. inversion H; subst. split; [reflexivity | lia].
Qed.

Lemma now_Ok_inv st t st' :
  now st = (Ok t, st') ->
  t = w_clock (world st) (w_ticks (world st))
  /\ self st' = self st
  /\ timeline st' = (S (w_ticks (world st)), w_clock (world st)).
Proof. rewrite now_run. intro H. inversion H; subst. repeat split. Qed.

Lemma update_Ok_inv g st st' :
  update g st = (Ok tt, st') -> self st' = g (self st) /\ timeline st' = timeline st.
Proof. unfold update. intro H. inversion H; subst. split; reflexivity. Qed.

Lemma get_hit_facts cfg key c st v st' :
  m_get key (cache (self st)) = Some c ->
  w_clock (world st) (S (w_ticks (world st))) - timestamp c
    < LocalStorageAPI.cache_window cfg ->
  LocalStorageAPI.get cfg key st = (Ok v, st') ->
  v = cached_value c
  /\ shelf st' = (cache (self st), operationHistory (self st),
                  reads (metrics (self st)) + 1)
  /\ timeline st' = (S (S (w_ticks (world st))), w_clock (world st)).
Proof.
  intros Hc Ht H. rewrite (get_cache_hit cfg key c st Hc Ht) in H.
  inversion H; subst. repeat split.
Qed.

Lemma timeline_inv st' n c :
  timeline st' = (n, c) -> w_ticks (world st') = n /\ w_clock (world st') = c.
Proof. unfold timeline. intro H. inversion H. split; reflexivity. Qed.

Lemma set_commit_cached cfg key v options t0 st st' :
  within_window cfg (world st) 6 ->
  LocalStorageAPI.set_commit cfg key v options t0 st = (Ok tt, st') ->
  exists a,
    (w_ticks (world st) <= a)%nat
    /\ (w_ticks (world st') <= a + 6)%nat /\ (a + 5 <= w_ticks (world st'))%nat
    /\ (a <= w_ticks (world st) + 3)%nat
    /\ w_clock (world st') = w_clock (world st)
    /\ cache (self st') = m_set key (mkCacheRecord v (w_clock (world st) a)) (cache (self st))
    /\ operationHistory (self st')
       = operationHistory (self st) ++ [mkHistory "set" key (Some v) v]
    /\ reads (metrics (self st')) = reads (metrics (self st)) + 1.
Proof.
  intros Hslow H.
  unfold LocalStorageAPI.set_commit in H.
  apply bind_Ok_inv in H as ([] & s1 & H1 & H).
  apply bind_Ok_inv in H as (p & s2 & H2 & H).
  apply bind_Ok_inv in H as ([] & s3 & H3 & H).
  apply bind_Ok_inv in H as (t4 & s4 & H4 & H).
  apply bind_Ok_inv in H as ([] & s5 & H5 & H).
  apply bind_Ok_inv in H as (t6 & s6 & H6 & H).
  apply bind_Ok_inv in H as (sz & s7 & H7 & H).
  apply bind_Ok_inv in H as ([] & s8 & H8 & H).
  apply bind_Ok_inv in H as (old & s9 & H9 & H).
  apply bind_Ok_inv in H as ([] & s10 & H10 & H).
  apply bind_Ok_inv in H as ([] & s11 & H11 & H).
  apply bind_Ok_inv in H as (t12 & s12 & H12 & H).
  apply bind_Ok_inv in H as ([] & s13 & H13 & H).
  apply bind_Ok_inv in H as ([] & s14 & H14 & H).
  apply bind_Ok_inv in H as ([] & s15 & H15 & H).
  assert (E1 : shelf s1 = shelf st /\ timeline s1 = timeline st).
  { split; (eapply keeps_run; [| exact H1]); [unfold shelf; frame | tframe]. }
  assert (E2 : shelf s2 = shelf s1 /\ timeline s2 = timeline s1).
  { split; (eapply keeps_run; [| exact H2]); [unfold shelf; frame | tframe]. }
  assert (E3 : shelf s3 = shelf s2).
  { eapply keeps_run; [| exact H3]. unfold shelf; frame. }
  assert (T3 : w_ticks (world s3) = (readings (opt_ttl options) + w_ticks (world s2))%nat
               /\ w_clock (world s3) = w_clock (world s2)).
  { apply in_world_Ok_inv in H3 as [H3 _].
    eapply Backend_set_Ok_timeline. exact H3. }
  pose proof (readings_le (opt_ttl options)) as Hr.
  destruct E1 as [E1 T1], E2 as [E2 T2], T3 as [T3 C3].
  apply timeline_inv in T1 as [T1 C1]. apply timeline_inv in T2 as [T2 C2].
  apply now_Ok_inv in H4 as (Et4 & M4 & T4). apply timeline_inv in T4 as [T4 C4].
  apply update_Ok_inv in H5 as (M5 & T5). apply timeline_inv in T5 as [T5 C5].
  apply now_Ok_inv in H6 as (Et6 & M6 & T6). apply timeline_inv in T6 as [T6 C6].
  assert (E7 : s7 = s6) by (unfold pure_of in H7; inversion H7; reflexivity).
  subst s7.
  apply update_Ok_inv in H8 as (M8 & T8). apply timeline_inv in T8 as [T8 C8].
  assert (C : w_clock (world s3) = w_clock (world st)) by congruence.
  assert (G : m_get key (cache (self s8)) = Some (mkCacheRecord v t4)).
  { rewrite M8, M6, M5. cbn. apply m_get_set_same. }
  apply (get_hit_facts cfg key _ s8 old s9 G) in H9.
  2:{ cbn [timestamp]. rewrite Et4, C8, C6, C5, C4, T8, T6, T5, T4, C.
      apply Hslow; lia. }
  destruct H9 as (Eold & S9 & T9). apply timeline_inv in T9 as [T9 C9].
  cbn [cached_value] in Eold. subst old.
  apply update_Ok_inv in H10 as (M10 & T10). apply timeline_inv in T10 as [T10 C10].
  apply update_Ok_inv in H11 as (M11 & T11). apply timeline_inv in T11 as [T11 C11].
  apply now_Ok_inv in H12 as (Et12 & M12 & T12). apply timeline_inv in T12 as [T12 C12].
  apply update_Ok_inv in H13 as (M13 & T13). apply timeline_inv in T13 as [T13 C13].
  assert (E14 : shelf s14 = shelf s13).
  { eapply keeps_run; [| exact H14]. unfold shelf. frame. }
  assert (T14 : w_clock (world s14) = w_clock (world s13)
                /\ (w_ticks (world s13) <= w_ticks (world s14)
                    <= S (w_ticks (world s13)))%nat).
  { destruct (sync cfg).
    - eapply broadcast_Ok_timeline. exact H14.
    - unfold ret in H14. inversion H14; subst. split; [reflexivity | lia]. }
  destruct T14 as [C14 T14].
  assert (E15 : shelf s15 = shelf s14 /\ timeline s15 = timeline s14).
  { split; (eapply keeps_run; [| exact H15]); [unfold shelf; frame | tframe]. }
  assert (E16 : shelf st' = shelf s15 /\ timeline st' = timeline s15).
  { split; (eapply keeps_run; [| exact H]); [unfold shelf; frame | tframe]. }
  destruct E15 as [E15 T15], E16 as [E16 T16].
  apply timeline_inv in T15 as [T15 C15]. apply timeline_inv in T16 as [T16 C16].
  exists (w_ticks (world s3)).
  assert (S13 : shelf s13
                = (m_set key (mkCacheRecord v t4) (cache (self st)),
                   operationHistory (self st) ++ [mkHistory "set" key (Some v) v],
                   reads (metrics (self st)) + 1)).
  { unfold shelf in *. rewrite M13, M12, M11, M10. cbn.
    injection S9 as S9a S9b S9c. rewrite S9a, S9b, S9c.
    rewrite M8, M6, M5, M4. cbn.
    injection E3 as E3a E3b E3c. injection E2 as E2a E2b E2c.
    injection E1 as E1a E1b E1c. congruence. }
  assert (F : shelf st' = shelf s13) by congruence.
  rewrite S13 in F. unfold shelf in F. injection F as Fa Fb Fc.
  rewrite Et4, C in Fa.
  repeat match goal with |- _ /\ _ => split end; try assumption; try lia; congruence.
Qed.

Lemma within_window_tick cfg st n :
  within_window cfg (world st) (S n) -> within_window cfg (world (tick st)) n.
Proof.
  unfold within_window. cbn. intros H i j Hi Hij Hj. apply H; lia.
Qed.

Lemma within_window_less cfg w n m :
  (m <= n)%nat -> within_window cfg w n -> within_window cfg w m.
Proof. unfold within_window. intros Hle H i j Hi Hij Hj. apply H; lia. Qed.

(** X10: when less than the cache window elapses over the eleven clock
    readings that follow, a [get] right after a [set] that returned
    normally returns the very value the [beforeSet] hook left, whatever
    the layer would decode: the read is served from the cache. *)
Theorem read_after_write_is_served_from_the_cache cfg key v v' options st st' :
  hooked_value cfg key v options = Some v' ->
  within_window cfg (world st) 11 ->
  LocalStorageAPI.set cfg key v options st = (Ok tt, st') ->
  result (LocalStorageAPI.get cfg key) st' = Ok v'.
Proof.
  intros Hh Hslow H. rewrite (set_as_commit _ _ _ _ _ _ Hh) in H.
  apply try_catch_Ok_inv in H; [| intros; apply on_error_not_Ok].
  apply set_commit_cached in H.
  2:{ apply within_window_tick. eapply within_window_less; [| exact Hslow]. lia. }
  destruct H as (a & Ha1 & Ha2 & Ha3 & Ha4 & Hclock & Hc & _ & _).
  unfold result.
  rewrite (get_cache_hit cfg key (mkCacheRecord v' (w_clock (world (tick st)) a)) st').
  - reflexivity.
  - rewrite Hc. apply m_get_set_same.
  - cbn [timestamp]. rewrite Hclock. cbn in *. apply Hslow; lia.
Qed.

(** X10 (witness): the first [set] on a fresh instance, under a clock that
    stands still. *)
Lemma read_after_write_witness :
  hooked_value (fst node_api) "x" (JNum 1) no_options = Some (JNum 1)
  /\ within_window (fst node_api) (world (snd node_api)) 11
  /\ LocalStorageAPI.set (fst node_api) "x" (JNum 1) no_options (snd node_api)
     = (Ok tt, after_set)
  /\ result (LocalStorageAPI.get (fst node_api) "x") after_set = Ok (JNum 1).
Proof.
  split; [vm_compute; reflexivity |].
  split; [intros i j _ _ _; vm_compute; reflexivity |].
  split; [vm_compute; reflexivity |].
  apply (read_after_write_is_served_from_the_cache (fst node_api) "x" (JNum 1) (JNum 1)
           no_options (snd node_api) after_set).
  - vm_compute. reflexivity.
  - intros i j _ _ _. vm_compute. reflexivity.
  - vm_compute. reflexivity.
Defined.

(** X11: [set] reads [oldValue] after it has written the layer and the
    cache.  When less than the cache window elapses over the seven clock
    readings that follow, the history record of a [set] that returned
    normally holds the new value as its [oldValue], and the [set] has
    counted one read. *)
Theorem set_reads_the_new_value_back_as_oldValue cfg key v v' options st st' :
  hooked_value cfg key v options = Some v' ->
  within_window cfg (world st) 7 ->
  LocalStorageAPI.set cfg key v options st = (Ok tt, st') ->
  operationHistory (self st')
  = operationHistory (self st) ++ [mkHistory "set" key (Some v') v']
  /\ reads (metrics (self st')) = reads (metrics (self st)) + 1.
Proof.
  intros Hh Hslow H. rewrite (set_as_commit _ _ _ _ _ _ Hh) in H.
  apply try_catch_Ok_inv in H; [| intros; apply on_error_not_Ok].
  apply set_commit_cached in H.
  2:{ apply within_window_tick. exact Hslow. }
  destruct H as (a & _ & _ & _ & _ & _ & _ & Hh' & Hr). split; assumption.
Qed.

(** X11 (witness): the first [set] on a fresh instance, under a clock that
    stands still. *)
Lemma oldValue_witness :
  hooked_value (fst node_api) "x" (JNum 1) no_options = Some (JNum 1)
  /\ within_window (fst node_api) (world (snd node_api)) 7
  /\ LocalStorageAPI.set (fst node_api) "x" (JNum 1) no_options (snd node_api)
     = (Ok tt, after_set)
  /\ operationHistory (self after_set)
     = operationHistory (self (snd node_api))
       ++ [mkHistory "set" "x" (Some (JNum 1)) (JNum 1)]
  /\ reads (metrics (self after_set)) = reads (metrics (self (snd node_api))) + 1.
Proof.
  split; [vm_compute; reflexivity |].
  split; [intros i j _ _ _; vm_compute; reflexivity |].
  split; [vm_compute; reflexivity |].
  apply (set_reads_the_new_value_back_as_oldValue (fst node_api) "x" (JNum 1) (JNum 1)
           no_options (snd node_api) after_set).
  - vm_compute. reflexivity.
  - intros i j _ _ _. vm_compute. reflexivity.
  - vm_compute. reflexivity.
Defined.

(** ** A key the layer does not hold *)

Lemma m_has_get_None {V} k (m : smap V) : m_has k m = false -> m_get k m = None.
Proof. unfold m_has. destruct (m_get k m); [discriminate | reflexivity]. Qed.

Lemma Backend_get_absent l key w :
  reachable l w = true -> holds l key w = false ->
  Backend.get l key w = (Ok None, w).
Proof.
  unfold reachable, holds, Backend.get. destruct (kind l); intros Hr Hh.
  - unfold IndexedDBStorage.get, bind, IndexedDBStorage.waitForReady, gets.
    rewrite Hr, (m_has_get_None _ _ Hh). reflexivity.
  - unfold LocalStorageStorage.get, bind, LocalStorageStorage.getItem.
    rewrite Hr, (m_has_get_None _ _ Hh). reflexivity.
  - unfold MemoryStorage.get, bind, gets. rewrite (m_has_get_None _ _ Hh). reflexivity.
Qed.

Lemma get_miss_run cfg key st :
  m_get key (cache (self st)) = None ->
  LocalStorageAPI.get cfg key st
  = try_catch (LocalStorageAPI.get_from_layer cfg key (clock_reading st))
      (LocalStorageAPI.on_error "get" (Some key)) (tick st).
Proof.
  intro Hc. unfold LocalStorageAPI.get. unfold bind at 1. rewrite now_run.
  unfold try_catch, bind at 1, read. cbn [tick self]. rewrite Hc. reflexivity.
Qed.

Lemma get_from_layer_absent cfg key t st :
  reachable (currentLayer cfg) (world st) = true ->
  holds (currentLayer cfg) key (world st) = false ->
  LocalStorageAPI.get_from_layer cfg key t st = (Ok JNull, st).
Proof.
  intros Hr Hh. unfold LocalStorageAPI.get_from_layer, bind at 1, in_world.
  rewrite (Backend_get_absent _ _ _ Hr Hh). destruct st; reflexivity.
Qed.

(** X12: a [get] of a key that has no cache record and no item in the
    active layer returns [null]; it reads the clock once and changes
    nothing else: no read is counted, no latency recorded, nothing
    cached. *)
Theorem get_of_an_absent_key_is_null cfg key st :
  m_get key (cache (self st)) = None ->
  reachable (currentLayer cfg) (world st) = true ->
  holds (currentLayer cfg) key (world st) = false ->
  LocalStorageAPI.get cfg key st = (Ok JNull, tick st).
Proof.
  intros Hc Hr Hh. rewrite (get_miss_run _ _ _ Hc). unfold try_catch.
  rewrite get_from_layer_absent; [reflexivity | exact Hr | exact Hh].
Qed.

(** X12 (witness): a key that was never written, on a fresh instance. *)
Lemma absent_key_witness :
  m_get "nope" (cache (self (snd node_api))) = None
  /\ reachable (currentLayer (fst node_api)) (world (snd node_api)) = true
  /\ holds (currentLayer (fst node_api)) "nope" (world (snd node_api)) = false
  /\ LocalStorageAPI.get (fst node_api) "nope" (snd node_api)
     = (Ok JNull, tick (snd node_api)).
Proof.
  split; [vm_compute; reflexivity |]. split; [vm_compute; reflexivity |].
  split; [vm_compute; reflexivity |].
  apply (get_of_an_absent_key_is_null (fst node_api) "nope" (snd node_api));
    vm_compute; reflexivity.
Defined.

(** ** The window of the read cache *)

Lemma get_cache_stale cfg key c st :
  m_get key (cache (self st)) = Some c ->
  LocalStorageAPI.cache_window cfg
    <= w_clock (world st) (S (w_ticks (world st))) - timestamp c ->
  LocalStorageAPI.get cfg key st
  = try_catch (LocalStorageAPI.get_from_layer cfg key (clock_reading st))
      (LocalStorageAPI.on_error "get" (Some key)) (tick (tick st)).
Proof.
  intros Hc Ht. unfold LocalStorageAPI.get. unfold bind at 1. rewrite now_run.
  unfold try_catch, bind at 1, read. cbn [tick self world]. rewrite Hc.
  unfold bind at 1. rewrite now_run. unfold clock_reading. cbn [tick world w_ticks
    w_clock set_ticks].
  apply Z.ltb_ge in Ht. rewrite Ht. reflexivity.
Qed.

(** C10: whatever the constructor options, [options.cacheTTL] included, the
    instance has no [cacheTTL] property, so the cache window of [get] is
    300000 ms.  A [get] whose clock reading is less than 300000 ms after the
    insertion of the key's cache record returns the cached value, and leaves
    the three substrates and the cache as they were.  A [get] whose clock
    reading is 300000 ms or more after the insertion does not answer from
    the record: it goes on to the layer as after a miss, and so returns
    [null] when the layer holds nothing under the key, whatever the record
    holds. *)
Theorem cache_window_fixed_at_300000 options w :
  exists cfg me w',
    LocalStorageAPI.constructor options w = (Ok (cfg, me), w')
    /\ cacheTTL cfg = None
    /\ LocalStorageAPI.cache_window cfg = 300000
    /\ (forall st key c,
          m_get key (cache (self st)) = Some c ->
          w_clock (world st) (S (w_ticks (world st))) - timestamp c < 300000 ->
          exists st',
            LocalStorageAPI.get cfg key st = (Ok (cached_value c), st')
            /\ w_memory (world st') = w_memory (world st)
            /\ w_localStorage (world st') = w_localStorage (world st)
            /\ w_idb (world st') = w_idb (world st)
            /\ cache (self st') = cache (self st))
    /\ (forall st key c,
          m_get key (cache (self st)) = Some c ->
          300000 <= w_clock (world st) (S (w_ticks (world st))) - timestamp c ->
          LocalStorageAPI.get cfg key st
          = try_catch (LocalStorageAPI.get_from_layer cfg key (clock_reading st))
              (LocalStorageAPI.on_error "get" (Some key)) (tick (tick st))
          /\ (reachable (currentLayer cfg) (world st) = true ->
              holds (currentLayer cfg) key (world st) = false ->
              LocalStorageAPI.get cfg key st = (Ok JNull, tick (tick st)))).
Proof.
  destruct (constructor_total options w) as (cfg & me & w' & Hc & Hn).
  exists cfg, me, w'.
  assert (Hw : LocalStorageAPI.cache_window cfg = 300000).
  { unfold LocalStorageAPI.cache_window. now rewrite Hn. }
  split; [exact Hc |]. split; [exact Hn |]. split; [exact Hw |]. split.
  - intros st key c Hget Ht. eexists. split.
    + apply get_cache_hit; [exact Hget | rewrite Hw; exact Ht].
    + simpl. repeat split; reflexivity.
  - intros st key c Hget Ht.
    assert (E : LocalStorageAPI.get cfg key st
                = try_catch (LocalStorageAPI.get_from_layer cfg key (clock_reading st))
                    (LocalStorageAPI.on_error "get" (Some key)) (tick (tick st))).
    { apply (get_cache_stale cfg key c); [exact Hget | rewrite Hw; exact Ht]. }
    split; [exact E |].
    intros Hr Hh. rewrite E. unfold try_catch.
    rewrite get_from_layer_absent; [reflexivity | exact Hr | exact Hh].
Qed.

(** A record of 300000 ms is bypassed, one of 299999 ms is not: the key was
    written at time 0 with a one-second TTL, which has run out in the layer
    when the key is read. *)
Example cache_record_is_bypassed_at_300000 :
  (let api := create default_options (node_world (step_clock 9 0 300000)) in
   result (LocalStorageAPI.set (fst api) "k" (JStr "v") (with_ttl 1) ;;
           LocalStorageAPI.get (fst api) "k") (snd api)
   = Ok JNull)
  /\ (let api := create default_options (node_world (step_clock 9 0 299999)) in
      result (LocalStorageAPI.set (fst api) "k" (JStr "v") (with_ttl 1) ;;
              LocalStorageAPI.get (fst api) "k") (snd api)
      = Ok (JStr "v")).
Proof. vm_compute. split; reflexivity. Qed.

(** ** Removal *)

Section DeleteFacts.
Context {V : Type}.
Implicit Types (m : smap V).

Lemma m_get_delete_other k k' m : k <> k' -> m_get k (m_delete k' m) = m_get k m.
Proof.
  intro Hne. induction m as [| [k0 v0] r IH]; simpl; [reflexivity |].
  destruct (String.eqb_spec k' k0) as [-> | Hk'].
  - destruct (String.eqb_spec k k0) as [-> | _]; [contradiction | reflexivity].
  - simpl. rewrite IH. reflexivity.
Qed.

Lemma m_get_None_notin k m : ~ In k (m_keys m) -> m_get k m = None.
Proof.
  intro H. apply m_has_false in H. unfold m_has in H.
  destruct (m_get k m); [discriminate | reflexivity].
Qed.

Lemma m_get_delete_same k m : NoDup (m_keys m) -> m_get k (m_delete k m) = None.
Proof.
  induction m as [| [k0 v0] r IH]; simpl; intro Hnd; [reflexivity |].
  inversion Hnd as [| ? ? Hnotin Hr]; subst.
  destruct (String.eqb_spec k k0) as [-> | Hk].
  - apply m_get_None_notin. exact Hnotin.
  - simpl. destruct (String.eqb_spec k k0); [contradiction |]. apply IH. exact Hr.
Qed.

Lemma In_m_keys_delete k k' m : In k (m_keys (m_delete k' m)) -> In k (m_keys m).
Proof.
  induction m as [| [k0 v0] r IH]; simpl; [tauto |].
  destruct (String.eqb k' k0); simpl; tauto.
Qed.

Lemma NoDup_m_delete k m : NoDup (m_keys m) -> NoDup (m_keys (m_delete k m)).
Proof.
  induction m as [| [k0 v0] r IH]; simpl; intro Hnd; [constructor |].
  inversion Hnd as [| ? ? Hnotin Hr]; subst.
  destruct (String.eqb k k0); [exact Hr |]. simpl. constructor.
  - intro Hin. apply Hnotin. eapply In_m_keys_delete. exact Hin.
  - apply IH. exact Hr.
Qed.

Lemma NoDup_m_set k v m : NoDup (m_keys m) -> NoDup (m_keys (m_set k v m)).
Proof.
  intro Hnd. unfold m_set. destruct (m_has k m) eqn:E.
  - rewrite m_keys_replace. exact Hnd.
  - rewrite m_keys_app. simpl. apply m_has_false in E.
    apply NoDup_app; [exact Hnd | repeat constructor; simpl; tauto |].
    intros x Hx [Hin | []]. subst. contradiction.
Qed.

End DeleteFacts.

Lemma append_cancel p a b : (p ++ a)%string = (p ++ b)%string -> a = b.
Proof.
  induction p as [| c p IH]; simpl; intro H; [exact H |].
  inversion H. apply IH. assumption.
Qed.

Lemma m_has_m_get {V} k (m : smap V) : m_has k m = false <-> m_get k m = None.
Proof. unfold m_has. destruct (m_get k m); split; congruence. Qed.

Lemma Backend_remove_run l key w :
  Backend.remove l key w
  = match kind l with
    | KIndexedDB =>
        if w_indexedDB w
        then (Ok tt, IndexedDBStorage.set_store (namespace l)
                       (m_delete key (IndexedDBStorage.store_of (namespace l) w)) w)
        else (Throw (ReferenceError "indexedDB is not defined"), w)
    | KLocalStorage =>
        if w_localStorage_ok w
        then (Ok tt, set_localStorage
                       (m_delete (LocalStorageStorage.prefix (namespace l) ++ key)%string
                          (w_localStorage w)) w)
        else (Throw LocalStorageStorage.no_localStorage, w)
    | KMemory => (Ok tt, set_memory (m_delete key (w_memory w)) w)
    end.
Proof.
  unfold Backend.remove. destruct (kind l).
  - unfold IndexedDBStorage.remove, IndexedDBStorage.waitForReady, bind, modify.
    destruct (w_indexedDB w); reflexivity.
  - unfold LocalStorageStorage.remove, LocalStorageStorage.removeItem.
    destruct (w_localStorage_ok w); reflexivity.
  - reflexivity.
Qed.

(** X13: in each of the three layers, whose substrate holds every name
    once, a [remove] that returns leaves no item under the key and leaves
    the entry of every other key as it was. *)
Theorem remove_deletes_one_key l key w w' :
  NoDup (raw_names l w) ->
  Backend.remove l key w = (Ok tt, w') ->
  holds l key w' = false
  /\ reachable l w' = true
  /\ NoDup (raw_names l w')
  /\ forall k, k <> key -> Backend.entry l k w' = Backend.entry l k w.
Proof.
  rewrite Backend_remove_run. unfold raw_names, holds, reachable, Backend.entry.
  destruct (kind l); intros Hnd H.
  - destruct (w_indexedDB w) eqn:Ei; [| discriminate].
    apply (f_equal snd) in H. cbn [snd] in H. subst w'.
    rewrite store_of_set_store. repeat split.
    + apply m_has_m_get. apply m_get_delete_same. exact Hnd.
    + exact Ei.
    + apply NoDup_m_delete. exact Hnd.
    + intros k Hk. apply m_get_delete_other. exact Hk.
  - destruct (w_localStorage_ok w) eqn:Eo; [| discriminate].
    apply (f_equal snd) in H. cbn [snd] in H. subst w'.
    unfold set_localStorage. cbn [w_localStorage w_localStorage_ok]. repeat split.
    + apply m_has_m_get. apply m_get_delete_same. exact Hnd.
    + exact Eo.
    + apply NoDup_m_delete. exact Hnd.
    + intros k Hk. rewrite m_get_delete_other; [reflexivity |].
      intro E. apply Hk. eapply append_cancel. exact E.
  - apply (f_equal snd) in H. cbn [snd] in H. subst w'.
    unfold set_memory. cbn [w_memory]. repeat split.
    + apply m_has_m_get. apply m_get_delete_same. exact Hnd.
    + apply NoDup_m_delete. exact Hnd.
    + intros k Hk. apply m_get_delete_other. exact Hk.
Qed.

(** X13 (witness): the removal of x from the volatile layer after x was
    written. *)
Lemma remove_one_key_witness :
  NoDup (raw_names (currentLayer (fst node_api)) (world after_set))
  /\ Backend.remove (currentLayer (fst node_api)) "x" (world after_set)
     = (Ok tt, exec (Backend.remove (currentLayer (fst node_api)) "x") (world after_set))
  /\ holds (currentLayer (fst node_api)) "x"
       (exec (Backend.remove (currentLayer (fst node_api)) "x") (world after_set))
     = false.
Proof.
  split; [vm_compute; repeat constructor; simpl; tauto |].
  split; [vm_compute; reflexivity |].
  apply (remove_deletes_one_key (currentLayer (fst node_api)) "x" (world after_set)
           (exec (Backend.remove (currentLayer (fst node_api)) "x") (world after_set))).
  - vm_compute. repeat constructor. simpl. tauto.
  - vm_compute. reflexivity.
Defined.

(** ** Invariants along a run *)

Section Respects.
Context {S : Type} (R : S -> S -> Prop).
Hypothesis R_refl : forall s, R s s.
Hypothesis R_trans : forall a b c, R a b -> R b c -> R a c.

Lemma respects_ret {A} (a : A) : respects R (ret a).
Proof. intro s. apply R_refl. Qed.

Lemma respects_throw {A} e : respects R (@throw S A e).
Proof. intro s. apply R_refl. Qed.

Lemma respects_pure_of {A} (o : outcome A) : respects R (pure_of o).
Proof. intro s. apply R_refl. Qed.

Lemma respects_gets {A} (f : S -> A) : respects R (gets f).
Proof. intro s. apply R_refl. Qed.

Lemma respects_bind {A B} (m : M S A) (f : A -> M S B) :
  respects R m -> (forall a, respects R (f a)) -> respects R (bind m f).
Proof.
  intros Hm Hf s. unfold bind. specialize (Hm s).
  destruct (m s) as [[a | e |] s1]; simpl in *; [| exact Hm | exact Hm].
  eapply R_trans; [exact Hm | apply Hf].
Qed.

Lemma respects_try_catch {A} (body : M S A) handler :
  respects R body -> (forall e, respects R (handler e)) ->
  respects R (try_catch body handler).
Proof.
  intros Hb Hh s. unfold try_catch. specialize (Hb s).
  destruct (body s) as [[a | e |] s1]; simpl in *; [exact Hb | | exact Hb].
  eapply R_trans; [exact Hb | apply Hh].
Qed.

Lemma respects_for_each {A} (f : A -> M S unit) xs :
  (forall x, respects R (f x)) -> respects R (for_each f xs).
Proof.
  intro Hf. induction xs as [| x r IH]; simpl.
  - apply respects_ret.
  - apply respects_bind; [apply Hf | intros _; exact IH].
Qed.

Lemma respects_keeps {A X} (proj : S -> X) (m : M S A) :
  (forall s s', proj s' = proj s -> R s s') -> keeps proj m -> respects R m.
Proof. intros H Hk s. apply H, Hk. Qed.

End Respects.

Lemma respects_run {S A} (R : S -> S -> Prop) (m : M S A) s r s' :
  respects R m -> m s = (r, s') -> R s s'.
Proof. intros Hk Hm. specialize (Hk s). rewrite Hm in Hk. exact Hk. Qed.

Lemma stays_refl cfg s : stays_one_per_key cfg s s.
Proof. intro H. exact H. Qed.

Lemma stays_trans cfg a b c :
  stays_one_per_key cfg a b -> stays_one_per_key cfg b c -> stays_one_per_key cfg a c.
Proof. unfold stays_one_per_key. auto. Qed.

Lemma raw_names_substrate l w w' :
  substrate w' = substrate w -> raw_names l w' = raw_names l w.
Proof.
  unfold substrate, raw_names, IndexedDBStorage.store_of. intro H. inversion H.
  destruct (kind l); congruence.
Qed.

Lemma stays_in_world_substrate {A} cfg (m : M World A) :
  keeps substrate m -> respects (stays_one_per_key cfg) (in_world m).
Proof.
  intros Hk st [Hc Hn]. unfold in_world. specialize (Hk (world st)).
  destruct (m (world st)) as [r w']. simpl in *. split; [exact Hc |].
  rewrite (raw_names_substrate _ _ _ Hk). exact Hn.
Qed.

Lemma stays_update cfg (g : Self -> Self) :
  (forall me, NoDup (m_keys (cache me)) -> NoDup (m_keys (cache (g me)))) ->
  respects (stays_one_per_key cfg) (update g).
Proof. intros H st [Hc Hn]. split; [apply H, Hc | exact Hn]. Qed.

Lemma stays_emit cfg ev : respects (stays_one_per_key cfg) (LocalStorageAPI.emit ev).
Proof.
  intros st [Hc Hn]. unfold LocalStorageAPI.emit.
  destruct ev; try (split; [exact Hc | exact Hn]).
  destruct (Nat.eqb (error_listeners (self st)) 0); split; assumption.
Qed.

Lemma stays_read {A} cfg (g : Self -> A) : respects (stays_one_per_key cfg) (read g).
Proof. intros st H. exact H. Qed.

Lemma Backend_get_stays l key w :
  NoDup (raw_names l w) -> NoDup (raw_names l (snd (Backend.get l key w))).
Proof.
  unfold raw_names, Backend.get. destruct (kind l); intro Hnd.
  - unfold IndexedDBStorage.get, IndexedDBStorage.waitForReady. unfold bind at 1.
    destruct (w_indexedDB w) eqn:Ei; [| exact Hnd].
    unfold bind at 1, gets.
    destruct (m_get key (IndexedDBStorage.store_of (namespace l) w)) as [it |];
      [| exact Hnd].
    unfold bind at 1. rewrite expired_run.
    set (w1 := if match ttl it with Some t => negb (t =? 0) | None => false end
               then set_ticks (S (w_ticks w)) w else w).
    assert (E1 : IndexedDBStorage.store_of (namespace l) w1
                 = IndexedDBStorage.store_of (namespace l) w
                 /\ w_indexedDB w1 = true).
    { subst w1. destruct (match ttl it with Some t => negb (t =? 0) | None => false end);
        split; auto. }
    destruct E1 as [E1 E2].
    destruct (lapsed _ _); [| unfold ret; cbn [snd]; rewrite E1; exact Hnd].
    unfold IndexedDBStorage.remove, IndexedDBStorage.waitForReady, bind, modify, ret.
    rewrite E2. cbn [snd]. rewrite store_of_set_store, E1.
    apply NoDup_m_delete. exact Hnd.
  - unfold LocalStorageStorage.get, LocalStorageStorage.getItem. unfold bind at 1.
    destruct (w_localStorage_ok w) eqn:Eo; [| exact Hnd]. cbn [negb].
    destruct (m_get _ (w_localStorage w)) as [[it | s] |]; [| | exact Hnd].
    + unfold bind at 1. rewrite expired_run.
      set (w1 := if match ttl it with Some t => negb (t =? 0) | None => false end
                 then set_ticks (S (w_ticks w)) w else w).
      assert (E1 : w_localStorage w1 = w_localStorage w /\ w_localStorage_ok w1 = true).
      { subst w1. destruct (match ttl it with Some t => negb (t =? 0) | None => false end);
          split; auto. }
      destruct E1 as [E1 E2].
      destruct (lapsed _ _); [| unfold ret; cbn [snd]; rewrite E1; exact Hnd].
      unfold LocalStorageStorage.remove, LocalStorageStorage.removeItem, bind, ret.
      rewrite E2. cbn [negb snd set_localStorage w_localStorage]. rewrite E1.
      apply NoDup_m_delete. exact Hnd.
    + destruct (s =? "")%string; exact Hnd.
  - unfold MemoryStorage.get. unfold bind at 1, gets.
    destruct (m_get key (w_memory w)) as [it |]; [| exact Hnd].
    unfold bind at 1. rewrite expired_run.
    set (w1 := if match ttl it with Some t => negb (t =? 0) | None => false end
               then set_ticks (S (w_ticks w)) w else w).
    assert (E1 : w_memory w1 = w_memory w).
    { subst w1. destruct (match ttl it with Some t => negb (t =? 0) | None => false end);
        auto. }
    destruct (lapsed _ _); [| unfold ret; cbn [snd]; rewrite E1; exact Hnd].
    unfold bind, modify, ret. cbn [snd set_memory w_memory]. rewrite E1.
    apply NoDup_m_delete. exact Hnd.
Qed.

Ltac stays_step cfg :=
  match goal with
  | |- respects _ (bind _ _) =>
      apply (respects_bind _ (stays_trans cfg)); [| intro]
  | |- respects _ (ret _) => apply (respects_ret _ (stays_refl cfg))
  | |- respects _ (throw _) => apply (respects_throw _ (stays_refl cfg))
  | |- respects _ (pure_of _) => apply (respects_pure_of _ (stays_refl cfg))
  | |- respects _ (try_catch _ _) =>
      apply (respects_try_catch _ (stays_trans cfg)); [| intro]
  | |- respects _ (for_each _ _) =>
      apply (respects_for_each _ (stays_refl cfg) (stays_trans cfg)); intro
  | |- respects _ now => apply stays_in_world_substrate; host_prim
  | |- respects _ (in_world (modify _)) =>
      apply stays_in_world_substrate; apply keeps_modify; intro; reflexivity
  | |- respects _ (update _) =>
      apply stays_update; intros ? ?; cbn [cache set_cache set_auditLog
        set_operationHistory set_metrics set_posted set_emitted];
      first [assumption | apply NoDup_m_set; assumption
            | apply NoDup_m_delete; assumption | constructor]
  | |- respects _ (read _) => apply stays_read
  | |- respects _ (LocalStorageAPI.emit _) => apply stays_emit
  | |- respects _ (match ?x with _ => _ end) => destruct x
  end.

Ltac stays cfg :=
  unfold LocalStorageAPI.log, LocalStorageAPI.broadcast,
    LocalStorageAPI.count_read, LocalStorageAPI.on_error;
  repeat stays_step cfg.

Lemma in_world_get_stays cfg key :
  respects (stays_one_per_key cfg) (in_world (Backend.get (currentLayer cfg) key)).
Proof.
  intros st [Hc Hn]. unfold in_world.
  pose proof (Backend_get_stays (currentLayer cfg) key (world st) Hn) as H.
  destruct (Backend.get (currentLayer cfg) key (world st)) as [r w']. simpl in *.
  split; assumption.
Qed.

Lemma get_stays cfg key : respects (stays_one_per_key cfg) (LocalStorageAPI.get cfg key).
Proof.
  unfold LocalStorageAPI.get, LocalStorageAPI.get_from_layer.
  stays cfg; apply in_world_get_stays.
Qed.

Ltac sframe_step :=
  match goal with
  | |- keeps _ (bind _ _) => apply keeps_bind; [| intro]
  | |- keeps _ (ret _) => apply keeps_ret
  | |- keeps _ (throw _) => apply keeps_throw
  | |- keeps _ (pure_of _) => apply keeps_pure_of
  | |- keeps _ (try_catch _ _) => apply keeps_try_catch; [| intro]
  | |- keeps _ (for_each _ _) => apply keeps_for_each; intro
  | |- keeps _ now => apply (frame_in_world_via substrate); host_prim
  | |- keeps _ (in_world (modify _)) =>
      apply (frame_in_world_via substrate); apply keeps_modify; intro; reflexivity
  | |- keeps _ (update _) => apply frame_update; intros; reflexivity
  | |- keeps _ (read _) => apply frame_read
  | |- keeps _ (LocalStorageAPI.emit _) => apply frame_emit_plain; intros; reflexivity
  | |- keeps _ (match ?x with _ => _ end) => destruct x
  end.

Ltac sframe :=
  unfold substrate_of, LocalStorageAPI.log, LocalStorageAPI.broadcast,
    LocalStorageAPI.count_read, LocalStorageAPI.on_error;
  repeat sframe_step.

Lemma holds_substrate l key w w' :
  substrate w' = substrate w -> holds l key w' = holds l key w.
Proof.
  unfold substrate, holds, IndexedDBStorage.store_of. intro H. inversion H.
  destruct (kind l); congruence.
Qed.

Lemma reachable_substrate l w w' :
  substrate w' = substrate w -> reachable l w' = reachable l w.
Proof.
  unfold substrate, host, reachable. intro H. inversion H.
  destruct (kind l); congruence.
Qed.

Lemma Backend_remove_absent l key w w' :
  NoDup (raw_names l w) ->
  Backend.remove l key w = (Ok tt, w') ->
  holds l key w' = false /\ reachable l w' = true.
Proof.
  rewrite Backend_remove_run. unfold raw_names, holds, reachable.
  destruct (kind l); intros Hnd H.
  - destruct (w_indexedDB w) eqn:Ei; [| discriminate].
    apply (f_equal snd) in H. cbn [snd] in H. subst w'.
    rewrite store_of_set_store. split; [| exact Ei].
    apply m_has_m_get. apply m_get_delete_same. exact Hnd.
  - destruct (w_localStorage_ok w) eqn:Eo; [| discriminate].
    apply (f_equal snd) in H. cbn [snd] in H. subst w'.
    unfold set_localStorage. cbn [w_localStorage w_localStorage_ok]. split; [| exact Eo].
    apply m_has_m_get. apply m_get_delete_same. exact Hnd.
  - apply (f_equal snd) in H. cbn [snd] in H. subst w'.
    unfold set_memory. cbn [w_memory]. split; [| reflexivity].
    apply m_has_m_get. apply m_get_delete_same. exact Hnd.
Qed.

Lemma remove_as_commit cfg key st :
  delete_allowed cfg key = true ->
  LocalStorageAPI.remove cfg key st
  = try_catch (LocalStorageAPI.remove_commit cfg key)
      (LocalStorageAPI.on_error "delete" (Some key)) st.
Proof.
  unfold delete_allowed, LocalStorageAPI.remove. intro H.
  destruct (beforeDelete (hooks cfg)) as [h |]; [| reflexivity].
  unfold try_catch, bind at 1, pure_of.
  destruct (h key) as [r | |]; try discriminate.
  destruct (LocalStorageAPI.is_false r); [discriminate | reflexivity].
Qed.

(** X14: once a [remove] that was not vetoed has returned normally, a
    [get] of the same key returns [null]: the key is gone from the cache
    and from the active layer (each of which holds every name once). *)
Theorem removed_key_reads_as_null cfg key st st' :
  delete_allowed cfg key = true ->
  one_entry_per_key cfg st ->
  LocalStorageAPI.remove cfg key st = (Ok tt, st') ->
  LocalStorageAPI.get cfg key st' = (Ok JNull, tick st').
Proof.
  intros Ha Hwf H. rewrite (remove_as_commit _ _ _ Ha) in H.
  apply try_catch_Ok_inv in H; [| intros; apply on_error_not_Ok].
  unfold LocalStorageAPI.remove_commit in H.
  apply bind_Ok_inv in H as (old & s1 & H1 & H).
  apply bind_Ok_inv in H as ([] & s2 & H2 & H).
  apply bind_Ok_inv in H as ([] & s3 & H3 & H).
  assert (W1 : one_entry_per_key cfg s1).
  { exact (respects_run _ _ _ _ _ (get_stays cfg key) H1 Hwf). }
  destruct W1 as [Hc1 Hn1].
  apply in_world_Ok_inv in H2 as [H2 M2].
  destruct (Backend_remove_absent _ _ _ _ Hn1 H2) as [Hh2 Hr2].
  unfold update in H3. inversion H3; subst s3. clear H3.
  assert (Ec : cache (self st') = m_delete key (cache (self s1))).
  { rewrite <- M2.
    change (m_delete key (cache (self s2)))
      with (cache (self (mkState (world s2)
                           (set_cache (m_delete key (cache (self s2))) (self s2))))).
    eapply (keeps_run (fun st => cache (self st))); [| exact H]. frame. }
  assert (Es : substrate_of st' = substrate_of s2).
  { change (substrate_of s2)
      with (substrate_of (mkState (world s2)
                            (set_cache (m_delete key (cache (self s2))) (self s2)))).
    eapply keeps_run; [| exact H]. sframe. }
  rewrite get_miss_run; [| rewrite Ec; apply m_get_delete_same; exact Hc1].
  unfold substrate_of in Es.
  unfold try_catch. rewrite get_from_layer_absent; [reflexivity | |].
  - change (world (tick st')) with (set_ticks (S (w_ticks (world st'))) (world st')).
    rewrite <- Hr2. apply reachable_substrate. rewrite <- Es. reflexivity.
  - rewrite <- Hh2. apply holds_substrate. rewrite <- Es. reflexivity.
Qed.

(** X14 (witness): [remove] of x after x was written. *)
Lemma removed_key_witness :
  delete_allowed (fst node_api) "x" = true
  /\ one_entry_per_key (fst node_api) after_set
  /\ LocalStorageAPI.remove (fst node_api) "x" after_set
     = (Ok tt, exec (LocalStorageAPI.remove (fst node_api) "x") after_set)
  /\ LocalStorageAPI.get (fst node_api) "x"
       (exec (LocalStorageAPI.remove (fst node_api) "x") after_set)
     = (Ok JNull, tick (exec (LocalStorageAPI.remove (fst node_api) "x") after_set)).
Proof.
  split; [vm_compute; reflexivity |].
  split; [split; vm_compute; repeat constructor; simpl; tauto |].
  split; [vm_compute; reflexivity |].
  apply (removed_key_reads_as_null (fst node_api) "x" after_set
           (exec (LocalStorageAPI.remove (fst node_api) "x") after_set)).
  - vm_compute. reflexivity.
  - split; vm_compute; repeat constructor; simpl; tauto.
  - vm_compute. reflexivity.
Defined.

(** ** Clearing *)

Lemma m_delete_app_head {V} k (v : V) pre r :
  ~ In k (m_keys pre) -> m_delete k (pre ++ (k, v) :: r) = pre ++ r.
Proof.
  induction pre as [| [k0 v0] pre IH]; simpl; intro H.
  - rewrite String.eqb_refl. reflexivity.
  - destruct (String.eqb_spec k k0) as [-> | _]; [tauto |].
    rewrite IH; [reflexivity | tauto].
Qed.

Lemma ls_clear_loop ns : forall (m pre : smap lstext) w,
  w_localStorage_ok w = true ->
  w_localStorage w = pre ++ m ->
  (forall kv, In kv pre -> String.prefix (LocalStorageStorage.prefix ns) (fst kv) = false) ->
  exists w',
    for_each (fun k => if String.prefix (LocalStorageStorage.prefix ns) k
                       then LocalStorageStorage.removeItem k else ret tt)
             (m_keys m) w = (Ok tt, w')
    /\ w_localStorage w' = pre ++ foreign_items ns m
    /\ (w_idb w', w_memory w', host w') = (w_idb w, w_memory w, host w).
Proof.
  induction m as [| [k v] r IH]; intros pre w Ho Hls Hpre.
  - exists w. simpl. rewrite app_nil_r in *. auto.
  - cbn [m_keys map fst for_each foreign_items filter].
    destruct (String.prefix (LocalStorageStorage.prefix ns) k) eqn:Ep; cbn [negb].
    + unfold bind at 1, LocalStorageStorage.removeItem. rewrite Ho. cbn [negb].
      destruct (IH pre (set_localStorage (m_delete k (w_localStorage w)) w))
        as (w' & Hrun & Hls' & Hrest).
      * exact Ho.
      * cbn [set_localStorage w_localStorage]. rewrite Hls.
        apply m_delete_app_head. intro Hin. apply in_map_iff in Hin.
        destruct Hin as ([k' v'] & Hk & Hin). simpl in Hk. subst k'.
        specialize (Hpre _ Hin). simpl in Hpre. congruence.
      * exact Hpre.
      * exists w'. split; [exact Hrun |]. split; [exact Hls' | exact Hrest].
    + unfold bind at 1, ret.
      destruct (IH (pre ++ [(k, v)]) w) as (w' & Hrun & Hls' & Hrest).
      * exact Ho.
      * rewrite Hls, <- app_assoc. reflexivity.
      * intros kv Hin. apply in_app_or in Hin. destruct Hin as [Hin | [<- | []]].
        -- apply Hpre, Hin.
        -- exact Ep.
      * exists w'. split; [exact Hrun |]. split; [| exact Hrest].
        rewrite Hls', <- app_assoc. reflexivity.
Qed.

Lemma ls_clear_run ns w :
  w_localStorage_ok w = true ->
  exists w',
    LocalStorageStorage.clear ns w = (Ok tt, w')
    /\ w_localStorage w' = foreign_items ns (w_localStorage w)
    /\ (w_idb w', w_memory w', host w') = (w_idb w, w_memory w, host w).
Proof.
  intro Ho. unfold LocalStorageStorage.clear, LocalStorageStorage.names.
  unfold bind at 1. rewrite Ho. cbn [negb].
  apply (ls_clear_loop ns (w_localStorage w) [] w Ho eq_refl).
  intros kv [].
Qed.

Lemma foreign_items_hold_no_own_key ns key ls :
  m_get (LocalStorageStorage.prefix ns ++ key)%string (foreign_items ns ls) = None.
Proof.
  apply m_get_None_notin. intro Hin. apply in_map_iff in Hin.
  destruct Hin as ([k v] & Hk & Hin). simpl in Hk. subst k.
  apply filter_In in Hin. destruct Hin as [_ Hp]. simpl in Hp.
  rewrite prefix_append in Hp. discriminate.
Qed.

Lemma foreign_items_own_keys ns ls :
  LocalStorageStorage.own_keys ns (m_keys (foreign_items ns ls)) = [].
Proof.
  unfold LocalStorageStorage.own_keys, foreign_items.
  induction ls as [| [k v] r IH]; simpl; [reflexivity |].
  destruct (String.prefix (LocalStorageStorage.prefix ns) k) eqn:Ep; simpl.
  - exact IH.
  - rewrite Ep. exact IH.
Qed.

Lemma foreign_items_keep ns name ls :
  String.prefix (LocalStorageStorage.prefix ns) name = false ->
  m_get name (foreign_items ns ls) = m_get name ls.
Proof.
  intro Hp. unfold foreign_items. induction ls as [| [k v] r IH]; simpl; [reflexivity |].
  destruct (String.prefix (LocalStorageStorage.prefix ns) k) eqn:Ep; simpl.
  - destruct (String.eqb_spec name k) as [-> | _]; [congruence | exact IH].
  - destruct (String.eqb name k); [reflexivity | exact IH].
Qed.

Lemma Backend_clear_Ok l w w' :
  Backend.clear l w = (Ok tt, w') ->
  Backend.stored_keys l w' = []
  /\ (forall key, holds l key w' = false)
  /\ reachable l w' = true.
Proof.
  unfold Backend.clear, Backend.stored_keys, holds, reachable. destruct (kind l).
  - unfold IndexedDBStorage.clear, IndexedDBStorage.waitForReady, bind, modify.
    destruct (w_indexedDB w) eqn:Ei; [| discriminate].
    intro H. apply (f_equal snd) in H. cbn [snd] in H. subst w'.
    rewrite store_of_set_store. auto.
  - destruct (w_localStorage_ok w) eqn:Eo.
    + destruct (ls_clear_run (namespace l) w Eo) as (w1 & Hrun & Hls & Hrest).
      rewrite Hrun. intro H. inversion H; subst w1. rewrite Hls.
      split; [apply foreign_items_own_keys |]. split.
      * intro key. apply m_has_m_get. apply foreign_items_hold_no_own_key.
      * unfold host in Hrest. inversion Hrest. congruence.
    + unfold LocalStorageStorage.clear, LocalStorageStorage.names, bind.
      rewrite Eo. discriminate.
  - unfold MemoryStorage.clear, modify.
    intro H. apply (f_equal snd) in H. cbn [snd] in H. subst w'. auto.
Qed.

Lemma clear_as_commit cfg st :
  clear_allowed cfg = true ->
  LocalStorageAPI.clear cfg st
  = try_catch (LocalStorageAPI.clear_commit cfg)
      (LocalStorageAPI.on_error "clear" None) st.
Proof.
  unfold clear_allowed, LocalStorageAPI.clear. intro H.
  destruct (beforeClear (hooks cfg)) as [h |]; [| reflexivity].
  unfold try_catch, bind at 1, pure_of.
  destruct h as [r | |]; try discriminate.
  destruct (LocalStorageAPI.is_false r); [discriminate | reflexivity].
Qed.

Lemma stored_keys_substrate l w w' :
  substrate w' = substrate w -> Backend.stored_keys l w' = Backend.stored_keys l w.
Proof.
  unfold substrate, Backend.stored_keys, IndexedDBStorage.store_of. intro H.
  inversion H. destruct (kind l); congruence.
Qed.

Lemma keys_run cfg st :
  reachable (currentLayer cfg) (world st) = true ->
  LocalStorageAPI.keys cfg st
  = (Ok (Backend.stored_keys (currentLayer cfg) (world st)), st).
Proof.
  unfold reachable, LocalStorageAPI.keys, in_world, Backend.keys, Backend.stored_keys.
  destruct st as [w me]. cbn [world self].
  destruct (kind (currentLayer cfg)); intro Hr.
  - unfold IndexedDBStorage.keys, IndexedDBStorage.waitForReady, bind, gets.
    rewrite Hr. reflexivity.
  - unfold LocalStorageStorage.keys, LocalStorageStorage.names, bind, ret.
    rewrite Hr. reflexivity.
  - reflexivity.
Qed.

(** X15: once a [clear] that was not vetoed has returned normally, the
    cache is empty, [keys()] returns the empty list and a [get] of any key
    returns [null]. *)
Theorem cleared_store_reads_as_empty cfg st st' :
  clear_allowed cfg = true ->
  LocalStorageAPI.clear cfg st = (Ok tt, st') ->
  cache (self st') = []
  /\ LocalStorageAPI.keys cfg st' = (Ok [], st')
  /\ forall key, LocalStorageAPI.get cfg key st' = (Ok JNull, tick st').
Proof.
  intros Ha H. rewrite (clear_as_commit _ _ Ha) in H.
  apply try_catch_Ok_inv in H; [| intros; apply on_error_not_Ok].
  unfold LocalStorageAPI.clear_commit in H.
  apply bind_Ok_inv in H as ([] & s1 & H1 & H).
  apply bind_Ok_inv in H as ([] & s2 & H2 & H).
  apply in_world_Ok_inv in H1 as [H1 _].
  destruct (Backend_clear_Ok _ _ _ H1) as (Hk & Hh & Hr).
  unfold update in H2. inversion H2; subst s2. clear H2.
  assert (Ec : cache (self st') = []).
  { change (@nil (string * CacheRecord))
      with (cache (self (mkState (world s1) (set_cache [] (self s1))))).
    eapply (keeps_run (fun st => cache (self st))); [| exact H]. frame. }
  assert (Es : substrate_of st' = substrate_of s1).
  { change (substrate_of s1)
      with (substrate_of (mkState (world s1) (set_cache [] (self s1)))).
    eapply keeps_run; [| exact H]. sframe. }
  unfold substrate_of in Es.
  split; [exact Ec |]. split.
  - rewrite keys_run.
    + rewrite (stored_keys_substrate _ _ _ Es), Hk. reflexivity.
    + rewrite <- Hr. apply reachable_substrate. exact Es.
  - intro key. rewrite get_miss_run; [| rewrite Ec; reflexivity].
    unfold try_catch. rewrite get_from_layer_absent; [reflexivity | |].
    + rewrite <- Hr. apply reachable_substrate. rewrite <- Es. reflexivity.
    + rewrite <- (Hh key). apply holds_substrate. rewrite <- Es. reflexivity.
Qed.

(** X15 (witness): [clear] after x was written. *)
Lemma cleared_store_witness :
  clear_allowed (fst node_api) = true
  /\ LocalStorageAPI.clear (fst node_api) after_set
     = (Ok tt, exec (LocalStorageAPI.clear (fst node_api)) after_set)
  /\ cache (self (exec (LocalStorageAPI.clear (fst node_api)) after_set)) = [].
Proof.
  split; [vm_compute; reflexivity |]. split; [vm_compute; reflexivity |].
  apply (cleared_store_reads_as_empty (fst node_api) after_set
           (exec (LocalStorageAPI.clear (fst node_api)) after_set));
    vm_compute; reflexivity.
Defined.

Lemma prefix_trans a : forall b k,
  String.prefix a b = true -> String.prefix b k = true -> String.prefix a k = true.
Proof.
  induction a as [| c a IH]; intros b k Hab Hbk; [destruct k; reflexivity |].
  destruct b as [| d b]; simpl in Hab; [discriminate |].
  destruct k as [| e k]; simpl in Hbk; [discriminate |]. simpl.
  destruct (Ascii.ascii_dec c d) as [-> | _]; [| discriminate].
  destruct (Ascii.ascii_dec d e) as [-> | _]; [| discriminate].
  destruct (Ascii.ascii_dec e e) as [_ | N]; [| contradiction].
  eapply IH; eassumption.
Qed.

(** X16: [clear] of the localStorage layer removes exactly the items whose
    name starts with the prefix of its namespace and keeps the others in
    place.  So the items of unrelated names survive, and the entries of
    every namespace whose prefix extends this one (namespace a_b for
    namespace a) are removed as well. *)
Theorem localStorage_clear_goes_by_prefix ns w w' :
  LocalStorageStorage.clear ns w = (Ok tt, w') ->
  w_localStorage w' = foreign_items ns (w_localStorage w)
  /\ (forall name,
        String.prefix (LocalStorageStorage.prefix ns) name = false ->
        m_get name (w_localStorage w') = m_get name (w_localStorage w))
  /\ (forall ns',
        String.prefix (LocalStorageStorage.prefix ns) (LocalStorageStorage.prefix ns') = true ->
        Backend.stored_keys (mkLayer KLocalStorage ns') w' = []).
Proof.
  intro H.
  assert (Ho : w_localStorage_ok w = true).
  { unfold LocalStorageStorage.clear, LocalStorageStorage.names, bind in H.
    destruct (w_localStorage_ok w); [reflexivity | discriminate]. }
  destruct (ls_clear_run ns w Ho) as (w1 & Hrun & Hls & _).
  rewrite Hrun in H. inversion H; subst w1. clear H.
  split; [exact Hls |]. split.
  - intros name Hp. rewrite Hls. apply foreign_items_keep. exact Hp.
  - intros ns' Hp. unfold Backend.stored_keys. cbn [kind namespace]. rewrite Hls.
    clear Hls Hrun. unfold LocalStorageStorage.own_keys, foreign_items.
    induction (w_localStorage w) as [| [k v] r IH]; [reflexivity |].
    cbn [filter fst].
    destruct (String.prefix (LocalStorageStorage.prefix ns) k) eqn:Ep; cbn [negb].
    + exact IH.
    + cbn [m_keys map fst filter].
      destruct (String.prefix (LocalStorageStorage.prefix ns') k) eqn:Ep'.
      * rewrite (prefix_trans _ _ _ Hp Ep') in Ep. discriminate.
      * exact IH.
Qed.

(** X16 (witness): [clear] of the namespace a in a [localStorage] that holds
    entries of the namespaces a, a_b and c: the entry of a_b goes, the entry
    of c stays. *)
Lemma clear_by_prefix_witness :
  LocalStorageStorage.clear "a" three_namespaces
  = (Ok tt, exec (LocalStorageStorage.clear "a") three_namespaces)
  /\ String.prefix (LocalStorageStorage.prefix "a") (LocalStorageStorage.prefix "a_b") = true
  /\ Backend.stored_keys (mkLayer KLocalStorage "a_b") three_namespaces = ["k"]
  /\ Backend.stored_keys (mkLayer KLocalStorage "a_b")
       (exec (LocalStorageStorage.clear "a") three_namespaces) = []
  /\ Backend.stored_keys (mkLayer KLocalStorage "c")
       (exec (LocalStorageStorage.clear "a") three_namespaces) = ["k"].
Proof.
  split; [vm_compute; reflexivity |]. split; [vm_compute; reflexivity |].
  split; [vm_compute; reflexivity |]. split; [| vm_compute; reflexivity].
  apply (proj2 (proj2 (localStorage_clear_goes_by_prefix "a" three_namespaces
                         (exec (LocalStorageStorage.clear "a") three_namespaces)
                         ltac:(vm_compute; reflexivity)))).
  vm_compute. reflexivity.
Defined.

(** ** Namespaces *)

Lemma append_assoc (a b c : string) : ((a ++ b) ++ c)%string = (a ++ (b ++ c))%string.
Proof. induction a as [| x a IH]; simpl; [reflexivity | now rewrite IH]. Qed.

Lemma prefix_nested ns x key :
  (LocalStorageStorage.prefix (ns ++ "_" ++ x) ++ key)%string
  = (LocalStorageStorage.prefix ns ++ (x ++ "_" ++ key))%string.
Proof.
  unfold LocalStorageStorage.prefix.
  repeat rewrite append_assoc. reflexivity.
Qed.

(** X17: the localStorage layer builds the name of an item by joining
    'lsa_', the namespace, '_' and the key, so the layer of the namespace
    [ns ++ "_" ++ x] under a key is the layer of the namespace [ns] under
    the key [x ++ "_" ++ key]: [set], [get], [has] and [remove] of the one
    are those of the other. *)
Theorem localStorage_namespaces_overlap ns x key w :
  (forall p secs,
      LocalStorageStorage.set (ns ++ "_" ++ x) key p secs w
      = LocalStorageStorage.set ns (x ++ "_" ++ key) p secs w)
  /\ LocalStorageStorage.get (ns ++ "_" ++ x) key w
     = LocalStorageStorage.get ns (x ++ "_" ++ key) w
  /\ LocalStorageStorage.has (ns ++ "_" ++ x) key w
     = LocalStorageStorage.has ns (x ++ "_" ++ key) w
  /\ LocalStorageStorage.remove (ns ++ "_" ++ x) key w
     = LocalStorageStorage.remove ns (x ++ "_" ++ key) w.
Proof.
  unfold LocalStorageStorage.set, LocalStorageStorage.get, LocalStorageStorage.has,
    LocalStorageStorage.remove.
  rewrite prefix_nested. repeat split; reflexivity.
Qed.

Lemma m_get_replace_other {V} k k' (v : V) m :
  k <> k' -> m_get k (m_replace k' v m) = m_get k m.
Proof.
  intro Hne. induction m as [| [k0 v0] r IH]; simpl; [reflexivity |].
  destruct (String.eqb_spec k' k0) as [-> | _]; simpl.
  - destruct (String.eqb_spec k k0); [contradiction | reflexivity].
  - rewrite IH. reflexivity.
Qed.

Lemma m_get_set_other {V} k k' (v : V) m :
  k <> k' -> m_get k (m_set k' v m) = m_get k m.
Proof.
  intro Hne. unfold m_set. destruct (m_has k' m).
  - apply m_get_replace_other. exact Hne.
  - induction m as [| [k0 v0] r IH]; simpl.
    + destruct (String.eqb_spec k k'); [contradiction | reflexivity].
    + rewrite IH. reflexivity.
Qed.

Lemma store_of_other ns ns' s w :
  ns <> ns' ->
  IndexedDBStorage.store_of ns' (IndexedDBStorage.set_store ns s w)
  = IndexedDBStorage.store_of ns' w.
Proof.
  intro Hne. unfold IndexedDBStorage.store_of, IndexedDBStorage.set_store.
  cbn [w_idb set_idb]. rewrite m_get_set_other; [reflexivity |].
  unfold IndexedDBStorage.dbName. intro E. apply Hne. symmetry.
  eapply append_cancel. exact E.
Qed.

Ltac beside_prim Hne :=
  apply keeps_direct; intro;
  unfold Date_now, IndexedDBStorage.waitForReady, modify, beside;
  repeat match goal with
         | |- context [if ?b then _ else _] => destruct b
         | |- context [match ?x with _ => _ end] => destruct x
         end;
  cbn [snd]; try rewrite (store_of_other _ _ _ _ Hne); reflexivity.

Lemma idb_import_keeps_beside ns' data : forall s,
  keeps (beside ns') (IndexedDBStorage.import_items data s).
Proof.
  induction data as [| [k v] r IH]; intro s; simpl.
  - apply keeps_ret.
  - apply keeps_bind; [host_prim | intro].
    apply keeps_bind; [host_prim | intro]. apply IH.
Qed.

(** X18: the IndexedDB layer keeps each namespace in a database of its
    own: [set], [get], [remove], [clear] and [importAll] of one namespace
    leave the object store of every other namespace, [localStorage] and
    the volatile map as they were, whatever their outcome. *)
Theorem indexedDB_namespaces_are_separate ns ns' :
  ns <> ns' ->
  (forall key p secs, keeps (beside ns') (IndexedDBStorage.set ns key p secs))
  /\ (forall key, keeps (beside ns') (IndexedDBStorage.get ns key))
  /\ (forall key, keeps (beside ns') (IndexedDBStorage.remove ns key))
  /\ keeps (beside ns') (IndexedDBStorage.clear ns)
  /\ (forall d, keeps (beside ns') (IndexedDBStorage.importAll ns d)).
Proof.
  intro Hne.
  assert (Hrm : forall key, keeps (beside ns') (IndexedDBStorage.remove ns key)).
  { intro key. unfold IndexedDBStorage.remove.
    apply keeps_bind; [host_prim | intro]. beside_prim Hne. }
  repeat match goal with |- _ /\ _ => split end.
  - intros. unfold IndexedDBStorage.set.
    apply keeps_bind; [host_prim | intro].
    apply keeps_bind; [unfold new_item, expiry; host_frame | intro].
    beside_prim Hne.
  - intros. unfold IndexedDBStorage.get.
    apply keeps_bind; [host_prim | intro].
    apply keeps_bind; [apply keeps_gets |]. intros [it |]; [| apply keeps_ret].
    apply keeps_bind; [unfold expired; host_frame |]. intros [].
    + apply keeps_bind; [apply Hrm | intro; apply keeps_ret].
    + apply keeps_ret.
  - exact Hrm.
  - unfold IndexedDBStorage.clear.
    apply keeps_bind; [host_prim | intro]. beside_prim Hne.
  - intros. unfold IndexedDBStorage.importAll.
    apply keeps_bind; [host_prim | intro].
    apply keeps_bind; [apply keeps_gets | intro].
    apply keeps_bind; [apply idb_import_keeps_beside | intro].
    beside_prim Hne.
Qed.

(** X18 (witness): the namespaces a and b. *)
Lemma separate_namespaces_witness :
  "a"%string <> "b"%string
  /\ keeps (beside "b") (IndexedDBStorage.clear "a").
Proof.
  split; [discriminate |].
  apply (indexedDB_namespaces_are_separate "a" "b"). discriminate.
Defined.

(** ** Queries *)

Section DefineFacts.
Context {V : Type}.
Implicit Types (o : smap V).

Lemma m_get_insert_index i k k' (v : V) o :
  m_has k' o = false ->
  m_get k (insert_index i k' v o)
  = if String.eqb k k' then Some v else m_get k o.
Proof.
  unfold m_has. induction o as [| [k0 v0] r IH]; simpl; intro Hno.
  - reflexivity.
  - destruct (String.eqb_spec k' k0) as [-> | Hne]; [discriminate |].
    specialize (IH Hno).
    destruct (array_index k0) as [j |]; [destruct (j <? i)%N |]; simpl;
      try reflexivity.
    rewrite IH. destruct (String.eqb_spec k k0) as [-> | _]; [| reflexivity].
    destruct (String.eqb_spec k0 k'); [congruence | reflexivity].
Qed.

Lemma m_get_app_last k k' (v : V) o :
  m_has k' o = false ->
  m_get k (o ++ [(k', v)]) = if String.eqb k k' then Some v else m_get k o.
Proof.
  unfold m_has. induction o as [| [k0 v0] r IH]; simpl; intro Hno.
  - reflexivity.
  - destruct (String.eqb_spec k' k0) as [-> | Hne]; [discriminate |].
    rewrite (IH Hno). destruct (String.eqb_spec k k0) as [-> | _]; [| reflexivity].
    destruct (String.eqb_spec k0 k'); [congruence | reflexivity].
Qed.

Lemma m_get_define k k' (v : V) o :
  m_get k (define k' v o) = if String.eqb k k' then Some v else m_get k o.
Proof.
  unfold define. destruct (m_has k' o) eqn:E.
  - destruct (String.eqb_spec k k') as [-> | Hne].
    + apply m_get_replace_same. exact E.
    + apply m_get_replace_other. exact Hne.
  - destruct (array_index k').
    + apply m_get_insert_index. exact E.
    + apply m_get_app_last. exact E.
Qed.

Lemma length_define k (v : V) o : (List.length (define k v o) <= S (List.length o))%nat.
Proof.
  unfold define. destruct (m_has k o).
  - clear. induction o as [| [k0 v0] r IH]; simpl; [lia |].
    destruct (String.eqb k k0); simpl; lia.
  - destruct (array_index k) as [i |].
    + clear. induction o as [| [k0 v0] r IH]; simpl; [lia |].
      destruct (array_index k0) as [j |]; [destruct (j <? i)%N |]; simpl; lia.
    + rewrite length_app. simpl. lia.
Qed.

Lemma fromEntries_from : forall (l : list (string * V)) acc k v,
  m_get k (fold_left (fun o kv => define (fst kv) (snd kv) o) l acc) = Some v ->
  In (k, v) l \/ m_get k acc = Some v.
Proof.
  induction l as [| [k0 v0] r IH]; intros acc k v H; simpl in *.
  - right. exact H.
  - apply IH in H. destruct H as [H | H]; [left; right; exact H |].
    rewrite m_get_define in H. destruct (String.eqb_spec k k0) as [-> | _].
    + inversion H; subst. left. left. reflexivity.
    + right. exact H.
Qed.

Lemma fromEntries_length : forall (l : list (string * V)) acc,
  (List.length (fold_left (fun o kv => define (fst kv) (snd kv) o) l acc)
   <= List.length l + List.length acc)%nat.
Proof.
  induction l as [| [k0 v0] r IH]; intro acc; simpl; [lia |].
  specialize (IH (define k0 v0 acc)). pose proof (length_define k0 v0 acc). lia.
Qed.

End DefineFacts.

Lemma In_insert_by {A} (cmp : A -> A -> Z) x y l :
  In x (LocalStorageAPI.insert_by cmp y l) <-> x = y \/ In x l.
Proof.
  induction l as [| z r IH]; simpl.
  - intuition.
  - destruct (cmp y z <=? 0); simpl; [intuition | rewrite IH; intuition].
Qed.

Lemma In_sort_by {A} (cmp : A -> A -> Z) x l :
  In x (LocalStorageAPI.sort_by cmp l) <-> In x l.
Proof.
  unfold LocalStorageAPI.sort_by. induction l as [| y r IH]; simpl; [tauto |].
  rewrite In_insert_by, IH. intuition.
Qed.

Lemma In_firstn {A} n (x : A) l : In x (firstn n l) -> In x l.
Proof.
  intro H. rewrite <- (firstn_skipn n l). apply in_or_app. left. exact H.
Qed.

Lemma In_slice0 {A} n (x : A) l : In x (slice0 n l) -> In x l.
Proof. unfold slice0. destruct (n <? 0); apply In_firstn. Qed.

Lemma In_selected o d kv :
  In kv (LocalStorageAPI.selected o d) <->
  In kv d /\ match LocalStorageAPI.q_filter o with
             | Some fn => fn (snd kv) (fst kv) = true
             | None => True
             end.
Proof.
  unfold LocalStorageAPI.selected.
  destruct (LocalStorageAPI.q_sort o) as [cmp |]; [rewrite In_sort_by |];
    (destruct (LocalStorageAPI.q_filter o) as [fn |]; [rewrite filter_In | ]; tauto).
Qed.

(** X19: a query that returns yields entries of [exportAll] only, each of
    which passes the filter when one was given, and no more than [n] of
    them when the effective limit is a positive [n]. *)
Theorem execute_returns_stored_entries_that_pass cfg o st r st' :
  LocalStorageAPI.execute cfg o st = (Ok r, st') ->
  exists allData,
    LocalStorageAPI.exportAll cfg st = (Ok allData, st')
    /\ (forall k v, m_get k r = Some v ->
                    In (k, v) allData
                    /\ forall fn, LocalStorageAPI.q_filter o = Some fn -> fn v k = true)
    /\ (forall n, LocalStorageAPI.effective_limit o = Some n -> 0 < n ->
                  (List.length r <= Z.to_nat n)%nat).
Proof.
  intro H. unfold LocalStorageAPI.execute in H.
  apply bind_Ok_inv in H as (allData & s1 & H1 & H).
  unfold ret in H. inversion H; subst r s1. clear H.
  exists allData. split; [exact H1 |]. unfold LocalStorageAPI.run_query. split.
  - intros k v Hg. unfold fromEntries in Hg.
    apply fromEntries_from in Hg. destruct Hg as [Hin | Hn]; [| discriminate].
    assert (Hs : In (k, v) (LocalStorageAPI.selected o allData)).
    { destruct (LocalStorageAPI.effective_limit o); [eapply In_slice0 |]; exact Hin. }
    apply In_selected in Hs. destruct Hs as [Hd Hf]. split; [exact Hd |].
    intros fn Hfn. rewrite Hfn in Hf. exact Hf.
  - intros n Hn Hpos. rewrite Hn. unfold fromEntries.
    pose proof (fromEntries_length
                  (slice0 n (LocalStorageAPI.selected o allData)) []) as Hl.
    rewrite slice0_length in Hl by lia. simpl in Hl. lia.
Qed.

(** X19 (witness): a query with a filter and a limit of one, after x was
    written. *)
Lemma execute_witness :
  LocalStorageAPI.execute (fst node_api)
    (LocalStorageAPI.limit 1 (LocalStorageAPI.filter (fun _ _ => true) LocalStorageAPI.query))
    after_set
  = (Ok [("x", JNum 1)],
     exec (LocalStorageAPI.execute (fst node_api)
             (LocalStorageAPI.limit 1
                (LocalStorageAPI.filter (fun _ _ => true) LocalStorageAPI.query)))
          after_set)
  /\ exists allData,
       LocalStorageAPI.exportAll (fst node_api) after_set
       = (Ok allData,
          exec (LocalStorageAPI.execute (fst node_api)
                  (LocalStorageAPI.limit 1
                     (LocalStorageAPI.filter (fun _ _ => true) LocalStorageAPI.query)))
               after_set)
       /\ (forall k v, m_get k [("x", JNum 1)] = Some v ->
                       In (k, v) allData
                       /\ forall fn,
                            LocalStorageAPI.q_filter
                              (LocalStorageAPI.limit 1
                                 (LocalStorageAPI.filter (fun _ _ => true)
                                    LocalStorageAPI.query)) = Some fn ->
                            fn v k = true)
       /\ (forall n,
              LocalStorageAPI.effective_limit
                (LocalStorageAPI.limit 1
                   (LocalStorageAPI.filter (fun _ _ => true) LocalStorageAPI.query))
              = Some n -> 0 < n ->
              (List.length [("x", JNum 1)] <= Z.to_nat n)%nat).
Proof.
  split; [vm_compute; reflexivity |].
  apply (execute_returns_stored_entries_that_pass (fst node_api)
           (LocalStorageAPI.limit 1
              (LocalStorageAPI.filter (fun _ _ => true) LocalStorageAPI.query))
           after_set [("x", JNum 1)]).
  vm_compute. reflexivity.
Defined.

(** ** Sets and maps at the top of a value *)

Lemma same_value_zero_sym a b : same_value_zero a b = same_value_zero b a.
Proof.
  destruct a, b; simpl; try reflexivity.
  - destruct b, b0; reflexivity.
  - apply Z.eqb_sym.
  - apply String.eqb_sym.
Qed.

Lemma new_Set_members : forall xs acc,
  pairwise_distinct xs = true ->
  (forall x, In x xs -> existsb (same_value_zero x) acc = false) ->
  fold_left (fun s x => set_add x s) xs acc = acc ++ xs.
Proof.
  induction xs as [| x r IH]; intros acc Hd Hacc; simpl.
  - now rewrite app_nil_r.
  - simpl in Hd. apply andb_true_iff in Hd. destruct Hd as [Hx Hr].
    apply negb_true_iff in Hx.
    unfold set_add at 2. rewrite (Hacc x (or_introl eq_refl)).
    rewrite IH; [now rewrite <- app_assoc | exact Hr |].
    intros y Hy. rewrite existsb_app, (Hacc y (or_intror Hy)). simpl.
    rewrite orb_false_r.
    destruct (same_value_zero y x) eqn:E; [| reflexivity].
    rewrite same_value_zero_sym in E.
    assert (existsb (same_value_zero x) r = true).
    { apply existsb_exists. exists y. split; assumption. }
    congruence.
Qed.

Lemma map_set_fresh k v : forall m,
  existsb (same_value_zero k) (map fst m) = false ->
  map_set k v m = m ++ [(k, v)].
Proof.
  induction m as [| [k' v'] r IH]; simpl; intro H; [reflexivity |].
  apply orb_false_iff in H. destruct H as [H1 H2].
  rewrite H1, (IH H2). reflexivity.
Qed.

Lemma new_Map_entries : forall es acc,
  pairwise_distinct (map fst es) = true ->
  (forall k, In k (map fst es) -> existsb (same_value_zero k) (map fst acc) = false) ->
  add_entries (map (fun kv => JArr [fst kv; snd kv]) es) acc = Ok (acc ++ es).
Proof.
  induction es as [| [k v] r IH]; intros acc Hd Hacc; simpl.
  - now rewrite app_nil_r.
  - simpl in Hd. apply andb_true_iff in Hd. destruct Hd as [Hx Hr].
    apply negb_true_iff in Hx.
    rewrite (map_set_fresh k v acc (Hacc k (or_introl eq_refl))).
    rewrite IH; [now rewrite <- app_assoc | exact Hr |].
    intros y Hy. rewrite map_app, existsb_app. simpl.
    rewrite (Hacc y (or_intror Hy)). simpl. rewrite orb_false_r.
    destruct (same_value_zero y k) eqn:E; [| reflexivity].
    rewrite same_value_zero_sym in E.
    assert (existsb (same_value_zero k) (map fst r) = true).
    { apply existsb_exists. exists y. split; assumption. }
    congruence.
Qed.

Lemma json_of_native_list xs :
  forallb json_native xs = true ->
  map (fun x => match json_of x with Some j => j | None => JNull end) xs = xs.
Proof.
  induction xs as [| x r IH]; simpl; intro H; [reflexivity |].
  apply andb_true_iff in H. destruct H as [H1 H2].
  rewrite (json_of_native _ H1), (IH H2). reflexivity.
Qed.

(** X21: under a json profile without encryption, a [Set] of JSON-native
    members, no two of which are the same value, and a [Map] of JSON-native
    keys and values, no two keys of which are the same value, at the top
    of a value come back from the write pipeline followed by the read
    pipeline as they were, in the same order. *)
Theorem set_and_map_round_trip cfg :
  encryption cfg = None ->
  serialization (profile cfg) = Some "json" ->
  compression (profile cfg) = Some "none"
  \/ compression (profile cfg) = Some "lz-string" ->
  (forall xs,
      forallb json_native xs = true ->
      pairwise_distinct xs = true ->
      obind (LocalStorageAPI.serialize cfg (JSet xs) no_options)
            (LocalStorageAPI.deserialize cfg) = Ok (JSet xs))
  /\ (forall es,
         forallb (fun kv => json_native (fst kv) && json_native (snd kv)) es = true ->
         pairwise_distinct (map fst es) = true ->
         obind (LocalStorageAPI.serialize cfg (JMap es) no_options)
               (LocalStorageAPI.deserialize cfg) = Ok (JMap es)).
Proof.
  intros He Hs Hc. split.
  - intros xs Hn Hd.
    unfold LocalStorageAPI.serialize, LocalStorageAPI.deserialize. simpl.
    rewrite He, Hs. simpl. unfold Lib.json_serialize. simpl.
    rewrite (json_of_native_list _ Hn).
    assert (Hh : LocalStorageAPI.hydrate
                   (JObj [("__type", JStr "Set"); ("value", JArr xs)]) = Ok (JSet xs)).
    { simpl. unfold new_Set. simpl.
      rewrite (new_Set_members xs [] Hd); [reflexivity | intros; reflexivity]. }
    destruct Hc as [Hc | Hc]; rewrite Hc; simpl; exact Hh.
  - intros es Hn Hd.
    unfold LocalStorageAPI.serialize, LocalStorageAPI.deserialize. simpl.
    rewrite He, Hs. simpl. unfold Lib.json_serialize. simpl.
    assert (Hj : map (fun x => match json_of x with Some j => j | None => JNull end)
                   (map (fun kv : jsval * jsval => JArr [fst kv; snd kv]) es)
                 = map (fun kv : jsval * jsval => JArr [fst kv; snd kv]) es).
    { clear Hd. induction es as [| [k v] r IH]; simpl; [reflexivity |].
      simpl in Hn. apply andb_true_iff in Hn. destruct Hn as [Hkv Hr].
      apply andb_true_iff in Hkv. destruct Hkv as [Hk Hv].
      rewrite (json_of_native _ Hk), (json_of_native _ Hv), (IH Hr). reflexivity. }
    rewrite Hj.
    assert (Hh : LocalStorageAPI.hydrate
                   (JObj [("__type", JStr "Map");
                          ("value", JArr (map (fun kv : jsval * jsval =>
                                                 JArr [fst kv; snd kv]) es))])
                 = Ok (JMap es)).
    { simpl. unfold new_Map. simpl.
      rewrite (new_Map_entries es [] Hd); [reflexivity | intros; reflexivity]. }
    destruct Hc as [Hc | Hc]; rewrite Hc; simpl; exact Hh.
Qed.

(** X21 (witness): a set of a number, a string and an array at the default
    profile. *)
Lemma set_and_map_witness :
  encryption (fst node_api) = None
  /\ serialization (profile (fst node_api)) = Some "json"
  /\ compression (profile (fst node_api)) = Some "none"
  /\ forallb json_native [JNum 1; JStr "a"; JArr [JNull]] = true
  /\ pairwise_distinct [JNum 1; JStr "a"; JArr [JNull]] = true
  /\ obind (LocalStorageAPI.serialize (fst node_api)
              (JSet [JNum 1; JStr "a"; JArr [JNull]]) no_options)
           (LocalStorageAPI.deserialize (fst node_api))
     = Ok (JSet [JNum 1; JStr "a"; JArr [JNull]]).
Proof.
  split; [reflexivity |]. split; [reflexivity |]. split; [reflexivity |].
  split; [reflexivity |]. split; [reflexivity |].
  apply (proj1 (set_and_map_round_trip (fst node_api) eq_refl eq_refl
                  (or_introl eq_refl))); reflexivity.
Defined.

(** ** Blobs at the top of a value *)

Lemma list_ind3 {A} (P : list A -> Prop) :
  P [] -> (forall a, P [a]) -> (forall a b, P [a; b]) ->
  (forall a b c r, P r -> P (a :: b :: c :: r)) ->
  forall l, P l.
Proof.
  intros H0 H1 H2 H3. fix IH 1. intro l.
  destruct l as [| a [| b [| c r]]];
    [apply H0 | apply H1 | apply H2 | apply H3, IH].
Qed.

Lemma b64_value_char n : (n < 64)%N -> b64_value (b64_char n) = Some n.
Proof.
  intro H. destruct n as [| p]; [reflexivity |].
  do 6 (try destruct p as [p | p |]); try reflexivity; exfalso; lia.
Qed.

Lemma b64_char_not_comma n : (n < 64)%N -> Ascii.eqb (b64_char n) "," = false.
Proof.
  intro H. destruct n as [| p]; [reflexivity |].
  do 6 (try destruct p as [p | p |]); try reflexivity; exfalso; lia.
Qed.

Section Sextets.
Local Open Scope N_scope.

Lemma sextet_1 x : x < 256 -> x / 4 < 64.
Proof. intro H. apply N.Div0.div_lt_upper_bound. lia. Qed.

Lemma sextet_2 x y : y < 256 -> x mod 4 * 16 + y / 16 < 64.
Proof.
  intro H. pose proof (N.mod_lt x 4 ltac:(lia)).
  assert (y / 16 < 16) by (apply N.Div0.div_lt_upper_bound; lia). lia.
Qed.

Lemma sextet_3 y z : z < 256 -> y mod 16 * 4 + z / 64 < 64.
Proof.
  intro H. pose proof (N.mod_lt y 16 ltac:(lia)).
  assert (z / 64 < 4) by (apply N.Div0.div_lt_upper_bound; lia). lia.
Qed.

Lemma sextet_4 z : z mod 64 < 64.
Proof. apply N.mod_lt. lia. Qed.

Lemma octet_1 x y : y < 256 -> x / 4 * 4 + (x mod 4 * 16 + y / 16) / 16 = x.
Proof.
  intro Hy. pose proof (N.div_mod x 4 ltac:(lia)).
  assert (y / 16 < 16) by (apply N.Div0.div_lt_upper_bound; lia).
  assert ((x mod 4 * 16 + y / 16) / 16 = x mod 4).
  { rewrite N.add_comm, N.div_add by lia. rewrite N.div_small by lia. lia. }
  lia.
Qed.

Lemma octet_2 x y z :
  y < 256 -> z < 256 ->
  (x mod 4 * 16 + y / 16) mod 16 * 16 + (y mod 16 * 4 + z / 64) / 4 = y.
Proof.
  intros Hy Hz. pose proof (N.div_mod y 16 ltac:(lia)).
  assert (y / 16 < 16) by (apply N.Div0.div_lt_upper_bound; lia).
  assert (z / 64 < 4) by (apply N.Div0.div_lt_upper_bound; lia).
  assert ((x mod 4 * 16 + y / 16) mod 16 = y / 16).
  { rewrite N.add_comm, N.Div0.mod_add. apply N.mod_small. lia. }
  assert ((y mod 16 * 4 + z / 64) / 4 = y mod 16).
  { rewrite N.add_comm, N.div_add by lia. rewrite N.div_small by lia. lia. }
  lia.
Qed.

Lemma octet_3 y z : z < 256 -> (y mod 16 * 4 + z / 64) mod 4 * 64 + z mod 64 = z.
Proof.
  intro Hz. pose proof (N.div_mod z 64 ltac:(lia)).
  assert (z / 64 < 4) by (apply N.Div0.div_lt_upper_bound; lia).
  assert ((y mod 16 * 4 + z / 64) mod 4 = z / 64).
  { rewrite N.add_comm, N.Div0.mod_add. apply N.mod_small. lia. }
  lia.
Qed.

End Sextets.

Lemma b64_decode_encode : forall bytes, b64_decode_raw (b64_encode bytes) = bytes.
Proof.
  apply list_ind3.
  - reflexivity.
  - intro a. pose proof (N_ascii_bounded a) as Ha.
    cbn [b64_encode b64_decode_raw].
    rewrite (b64_value_char _ (sextet_1 _ Ha)).
    pose proof (sextet_2 (N_of_ascii a) 0 ltac:(reflexivity)) as H2.
    change (0 / 16)%N with 0%N in H2. rewrite N.add_0_r in H2.
    rewrite (b64_value_char _ H2).
    change (b64_value "=") with (@None N). cbv iota.
    pose proof (octet_1 (N_of_ascii a) 0 ltac:(reflexivity)) as H1.
    change (0 / 16)%N with 0%N in H1. rewrite N.add_0_r in H1.
    rewrite H1, ascii_N_embedding. reflexivity.
  - intros a b. pose proof (N_ascii_bounded a) as Ha.
    pose proof (N_ascii_bounded b) as Hb.
    cbn [b64_encode b64_decode_raw].
    rewrite (b64_value_char _ (sextet_1 _ Ha)).
    rewrite (b64_value_char _ (sextet_2 (N_of_ascii a) _ Hb)).
    pose proof (sextet_3 (N_of_ascii b) 0 ltac:(reflexivity)) as H3.
    change (0 / 64)%N with 0%N in H3. rewrite N.add_0_r in H3.
    rewrite (b64_value_char _ H3).
    change (b64_value "=") with (@None N). cbv iota.
    rewrite (octet_1 _ _ Hb).
    pose proof (octet_2 (N_of_ascii a) (N_of_ascii b) 0 Hb ltac:(reflexivity)) as H2.
    change (0 / 64)%N with 0%N in H2. rewrite N.add_0_r in H2.
    rewrite H2, !ascii_N_embedding. reflexivity.
  - intros a b c r IH. pose proof (N_ascii_bounded a) as Ha.
    pose proof (N_ascii_bounded b) as Hb. pose proof (N_ascii_bounded c) as Hc.
    cbn [b64_encode b64_decode_raw].
    rewrite (b64_value_char _ (sextet_1 _ Ha)).
    rewrite (b64_value_char _ (sextet_2 (N_of_ascii a) _ Hb)).
    rewrite (b64_value_char _ (sextet_3 (N_of_ascii b) _ Hc)).
    rewrite (b64_value_char _ (sextet_4 _)). cbv iota.
    rewrite (octet_1 _ _ Hb), (octet_2 _ _ _ Hb Hc), (octet_3 _ _ Hc).
    rewrite !ascii_N_embedding, IH. reflexivity.
Qed.

Lemma b64_encode_no_comma : forall bytes, has_comma (b64_encode bytes) = false.
Proof.
  apply list_ind3.
  - reflexivity.
  - intro a. pose proof (N_ascii_bounded a) as Ha.
    cbn [b64_encode has_comma].
    rewrite (b64_char_not_comma _ (sextet_1 _ Ha)).
    pose proof (sextet_2 (N_of_ascii a) 0 ltac:(reflexivity)) as H2.
    change (0 / 16)%N with 0%N in H2. rewrite N.add_0_r in H2.
    rewrite (b64_char_not_comma _ H2). reflexivity.
  - intros a b. pose proof (N_ascii_bounded a) as Ha.
    pose proof (N_ascii_bounded b) as Hb.
    cbn [b64_encode has_comma].
    rewrite (b64_char_not_comma _ (sextet_1 _ Ha)).
    rewrite (b64_char_not_comma _ (sextet_2 (N_of_ascii a) _ Hb)).
    pose proof (sextet_3 (N_of_ascii b) 0 ltac:(reflexivity)) as H3.
    change (0 / 64)%N with 0%N in H3. rewrite N.add_0_r in H3.
    rewrite (b64_char_not_comma _ H3). reflexivity.
  - intros a b c r IH. pose proof (N_ascii_bounded a) as Ha.
    pose proof (N_ascii_bounded b) as Hb. pose proof (N_ascii_bounded c) as Hc.
    cbn [b64_encode has_comma].
    rewrite (b64_char_not_comma _ (sextet_1 _ Ha)).
    rewrite (b64_char_not_comma _ (sextet_2 (N_of_ascii a) _ Hb)).
    rewrite (b64_char_not_comma _ (sextet_3 (N_of_ascii b) _ Hc)).
    rewrite (b64_char_not_comma _ (sextet_4 _)). exact IH.
Qed.

Lemma until_comma_all s : has_comma s = false -> until_comma s = s.
Proof.
  induction s as [| c r IH]; simpl; intro H; [reflexivity |].
  apply orb_false_iff in H. destruct H as [Hc Hr]. rewrite Hc, (IH Hr). reflexivity.
Qed.

Lemma split_after_head s rest :
  has_comma s = false ->
  split_comma_1 (s ++ String "," rest) = Some (until_comma rest).
Proof.
  induction s as [| c r IH]; simpl; intro H; [reflexivity |].
  apply orb_false_iff in H. destruct H as [Hc Hr]. rewrite Hc. apply IH, Hr.
Qed.

Lemma has_comma_app a b : has_comma (a ++ b) = has_comma a || has_comma b.
Proof.
  induction a as [| c r IH]; simpl; [reflexivity |].
  rewrite IH. apply orb_assoc.
Qed.

Lemma data_url_payload mime bytes :
  has_comma mime = false ->
  split_comma_1 (data_url mime bytes) = Some (b64_encode bytes).
Proof.
  intro Hm. unfold data_url.
  set (t := if (mime =? "")%string then "application/octet-stream"%string else mime).
  assert (Ht : has_comma t = false).
  { subst t. destruct (mime =? "")%string; [reflexivity | exact Hm]. }
  change ("data:" ++ t ++ ";base64," ++ b64_encode bytes)%string
    with ("data:" ++ (t ++ (";base64" ++ String "," (b64_encode bytes))))%string.
  rewrite <- !append_assoc.
  rewrite split_after_head.
  - rewrite until_comma_all; [reflexivity | apply b64_encode_no_comma].
  - rewrite !has_comma_app, Ht. reflexivity.
Qed.

Lemma atob_encode bytes : atob (b64_encode bytes) = Some bytes.
Proof. unfold atob. rewrite b64_decode_encode, String.eqb_refl. reflexivity. Qed.

Lemma first_supported_keeps_reader ls : keeps w_FileReader (LocalStorageAPI.first_supported ls).
Proof.
  induction ls as [| l r IH]; cbn [LocalStorageAPI.first_supported].
  - apply keeps_ret.
  - apply keeps_bind.
    + unfold Backend.supports. destruct (kind l);
        unfold IndexedDBStorage.supports, LocalStorageStorage.supports, MemoryStorage.supports;
        host_frame.
    + intros []; [apply keeps_ret | exact IH].
Qed.

Lemma constructor_reader options w cfg me w' :
  LocalStorageAPI.constructor options w = (Ok (cfg, me), w') ->
  host_FileReader cfg = w_FileReader w.
Proof.
  unfold LocalStorageAPI.constructor. intro H.
  apply bind_Ok_inv in H as (chosen & w1 & H1 & H).
  unfold bind, gets, ret in H. inversion H; subst. cbn [host_FileReader].
  eapply (keeps_run w_FileReader); [| exact H1].
  unfold LocalStorageAPI.initLayers. apply keeps_bind; [apply keeps_gets |].
  intro. apply keeps_bind; [apply first_supported_keeps_reader |]. intro. apply keeps_ret.
Qed.

(** X22: on a host that defines [FileReader], under a json profile
    without encryption, a [Blob] at the top of a value comes back with the
    same bytes and media type, whatever the bytes, provided the media type
    holds no comma (the read pipeline takes the text between the first and
    the second comma of the data URL).  On a host without [FileReader],
    Node among them, [serialize] of a [Blob] throws the [ReferenceError]
    of [new FileReader()], whatever the profile and the options.  The
    host of an instance is the one its constructor ran on. *)
Theorem blob_round_trip cfg bytes mime :
  (host_FileReader cfg = true ->
   encryption cfg = None ->
   serialization (profile cfg) = Some "json" ->
   compression (profile cfg) = Some "none"
   \/ compression (profile cfg) = Some "lz-string" ->
   has_comma mime = false ->
   obind (LocalStorageAPI.serialize cfg (JBlob bytes mime) no_options)
         (LocalStorageAPI.deserialize cfg) = Ok (JBlob bytes mime))
  /\ (host_FileReader cfg = false ->
      forall options,
        LocalStorageAPI.serialize cfg (JBlob bytes mime) options
        = Throw (ReferenceError "FileReader is not defined"))
  /\ (forall options w me w',
        LocalStorageAPI.constructor options w = (Ok (cfg, me), w') ->
        host_FileReader cfg = w_FileReader w).
Proof.
  split; [| split]; [| | intros options w me w'; apply constructor_reader].
  - intros Hr He Hs Hc Hm.
    assert (Hh : LocalStorageAPI.hydrate
                   (JObj [("__type", JStr "Blob");
                          ("value", JStr (data_url mime bytes));
                          ("type", JStr mime)])
                 = Ok (JBlob bytes mime)).
    { cbn -[data_url split_comma_1 atob].
      rewrite (data_url_payload _ _ Hm), atob_encode. reflexivity. }
    unfold LocalStorageAPI.serialize, LocalStorageAPI.deserialize.
    cbn [LocalStorageAPI.str_or opt_serialization opt_compression no_options
         LocalStorageAPI.tag].
    rewrite Hr, He, Hs.
    cbn [LocalStorageAPI.SerializationStrategies String.eqb Ascii.eqb Bool.eqb obind].
    unfold Lib.json_serialize.
    cbn [json_of].
    destruct Hc as [Hc | Hc]; rewrite Hc; cbn -[data_url LocalStorageAPI.hydrate];
      exact Hh.
  - intros Hr options. unfold LocalStorageAPI.serialize.
    cbn [LocalStorageAPI.tag]. rewrite Hr. reflexivity.
Qed.

(** X22 (witness): four bytes of type image/png at the default profile, in
    a browser and on Node. *)
Lemma blob_witness :
  (host_FileReader (fst browser_api) = true
   /\ encryption (fst browser_api) = None
   /\ serialization (profile (fst browser_api)) = Some "json"
   /\ compression (profile (fst browser_api)) = Some "none"
   /\ has_comma "image/png" = false
   /\ obind (LocalStorageAPI.serialize (fst browser_api)
               (JBlob (list_ascii_of_string "PNG!") "image/png") no_options)
            (LocalStorageAPI.deserialize (fst browser_api))
      = Ok (JBlob (list_ascii_of_string "PNG!") "image/png"))
  /\ (host_FileReader (fst node_api) = false
      /\ LocalStorageAPI.serialize (fst node_api)
           (JBlob (list_ascii_of_string "PNG!") "image/png") no_options
         = Throw (ReferenceError "FileReader is not defined")).
Proof.
  split.
  - split; [reflexivity |]. split; [reflexivity |]. split; [reflexivity |].
    split; [reflexivity |]. split; [reflexivity |].
    apply (proj1 (blob_round_trip (fst browser_api)
                    (list_ascii_of_string "PNG!") "image/png"));
      [reflexivity | reflexivity | reflexivity | left; reflexivity | reflexivity].
  - split; [reflexivity |].
    apply (proj1 (proj2 (blob_round_trip (fst node_api)
                           (list_ascii_of_string "PNG!") "image/png"))).
    reflexivity.
Defined.

(** ** [supports()] of the orchestrator *)

Lemma ls_supports_run w :
  exists w',
    LocalStorageStorage.supports w
    = (Ok (w_localStorage_ok w && negb (w_ls_full w))%bool, w')
    /\ host w' = host w.
Proof.
  unfold LocalStorageStorage.supports, try_catch, bind,
    LocalStorageStorage.setItem, LocalStorageStorage.removeItem, ret.
  destruct (w_localStorage_ok w) eqn:El; cbn [negb andb].
  - destruct (w_ls_full w) eqn:Ef; cbn [negb].
    + eexists. split; reflexivity.
    + cbn [w_localStorage_ok set_localStorage]. rewrite El. cbn [negb].
      eexists. split; [reflexivity |]. unfold host. cbn. rewrite El, Ef. reflexivity.
  - eexists. split; reflexivity.
Qed.

Lemma supports_each_browser ns r w :
  exists w',
    supports_each [mkLayer KIndexedDB ns; mkLayer KLocalStorage ns; mkLayer KMemory ns] r w
    = (Ok (mkSupport (w_indexedDB w) (w_localStorage_ok w && negb (w_ls_full w)) true
             (s_current r)), w').
Proof.
  destruct (ls_supports_run w) as (w' & Hrun & _).
  exists w'. cbn [supports_each kind]. unfold Backend.supports at 1. cbn [kind].
  unfold IndexedDBStorage.supports. unfold bind at 1, gets.
  unfold Backend.supports at 1. cbn [kind]. unfold bind at 1. rewrite Hrun.
  reflexivity.
Qed.

Lemma first_supported_browser ns w :
  exists w',
    LocalStorageAPI.first_supported
      [mkLayer KIndexedDB ns; mkLayer KLocalStorage ns; mkLayer KMemory ns] w
    = (Ok (Some (mkLayer (if w_indexedDB w then KIndexedDB
                          else if (w_localStorage_ok w && negb (w_ls_full w))%bool
                               then KLocalStorage else KMemory) ns)), w')
    /\ host w' = host w.
Proof.
  destruct (ls_supports_run w) as (w' & Hrun & Hh).
  cbn [LocalStorageAPI.first_supported].
  unfold Backend.supports; cbn [kind].
  unfold IndexedDBStorage.supports, MemoryStorage.supports, bind, gets, ret.
  destruct (w_indexedDB w) eqn:Ei.
  - exists w. split; reflexivity.
  - rewrite Hrun. exists w'. split; [| exact Hh].
    destruct (w_localStorage_ok w && negb (w_ls_full w))%bool; reflexivity.
Qed.

Lemma initLayers_run ns w :
  exists w',
    LocalStorageAPI.initLayers ns w
    = (Ok (candidates ns w, mkLayer (selected_kind w) ns), w')
    /\ host w' = host w.
Proof.
  unfold LocalStorageAPI.initLayers, candidates, selected_kind.
  unfold bind at 1, gets.
  destruct (w_window w) eqn:Ew; cbn [negb app].
  - destruct (first_supported_browser ns w) as (w' & Hrun & Hh).
    unfold bind. rewrite Hrun. exists w'. split; [reflexivity | exact Hh].
  - exists w. split; reflexivity.
Qed.

Lemma create_run options w :
  exists ns w',
    snd (create options w) = mkState w' new_self
    /\ host w' = host w
    /\ layers (fst (create options w)) = candidates ns w
    /\ currentLayer (fst (create options w)) = mkLayer (selected_kind w) ns.
Proof.
  unfold create, LocalStorageAPI.constructor.
  set (ns := match LocalStorageAPI.str_or (o_namespace options) None with
             | Some s => s
             | None => EmptyString
             end).
  destruct (initLayers_run ns w) as (w' & Hrun & Hh).
  exists ns, w'. unfold bind. rewrite Hrun. unfold ret. cbn [fst snd layers currentLayer].
  repeat split. exact Hh.
Qed.

(** X23: on a fresh instance [supports()] returns; [current] names the
    class of the layer the constructor selected and the flag reported for
    that layer is [true]; [memory] is always [true], [indexedDB] is
    whether [window] and [indexedDB] exist, [localStorage] whether
    [window] exists and the probe write succeeds. *)
Theorem supports_agrees_with_the_selected_layer options w :
  exists r st',
    supports (fst (create options w)) (snd (create options w)) = (Ok r, st')
    /\ s_current r = class_name (kind (currentLayer (fst (create options w))))
    /\ reported r (kind (currentLayer (fst (create options w)))) = true
    /\ s_memory r = true
    /\ s_indexedDB r = (w_window w && w_indexedDB w)%bool
    /\ s_localStorage r
       = (w_window w && w_localStorage_ok w && negb (w_ls_full w))%bool.
Proof.
  destruct (create_run options w) as (ns & w1 & Hst & Hh & Hl & Hc).
  unfold supports, in_world. rewrite Hst, Hl, Hc. cbn [world self kind].
  unfold host in Hh. injection Hh as _ Hw Hi Hf Ho Hlf.
  unfold candidates, selected_kind.
  destruct (w_window w) eqn:Ew; cbn [negb app andb].
  - destruct (supports_each_browser ns
                (mkSupport false false false
                   (class_name (if w_indexedDB w then KIndexedDB
                                else if (w_localStorage_ok w && negb (w_ls_full w))%bool
                                     then KLocalStorage else KMemory))) w1)
      as (w2 & Hrun).
    rewrite Hrun. eexists; eexists. split; [reflexivity |].
    cbn [s_current s_memory s_indexedDB s_localStorage]. rewrite Hi, Ho, Hlf.
    split; [reflexivity |]. split; [| auto].
    destruct (w_indexedDB w); [reflexivity |].
    destruct (w_localStorage_ok w && negb (w_ls_full w))%bool; reflexivity.
  - cbn [supports_each]. unfold bind, Backend.supports, MemoryStorage.supports, ret.
    cbn [kind]. eexists; eexists. split; [reflexivity |]. cbn. auto.
Qed.

(** ** Encryption hooks *)

(** X24: with encryption hooks of which [postReadDecrypt] undoes
    [preWriteEncrypt], and [preWriteEncrypt] never returns the empty string
    or [undefined], a JSON-native value without a [__type] tag still comes
    back from the write pipeline followed by the read pipeline as it was:
    the read pipeline undoes the steps of the write pipeline in the
    reverse order. *)
Theorem round_trip_through_encryption_hooks cfg enc f g v :
  encryption cfg = Some enc ->
  preWriteEncrypt enc = Some f ->
  postReadDecrypt enc = Some g ->
  (forall p, exists c, f p = Ok c /\ payload_truthy c = true /\ g c = Ok p) ->
  serialization (profile cfg) = Some "json" ->
  compression (profile cfg) = Some "none"
  \/ compression (profile cfg) = Some "lz-string" ->
  json_native v = true ->
  tagged v = false ->
  obind (LocalStorageAPI.serialize cfg v no_options) (LocalStorageAPI.deserialize cfg)
  = Ok v.
Proof.
  intros He Hf Hg Hinv Hs Hc Hn Ht.
  unfold LocalStorageAPI.serialize. simpl.
  rewrite He, Hf, Hs, (tag_native _ _ Hn). simpl.
  unfold Lib.json_serialize. rewrite (json_of_native _ Hn).
  destruct Hc as [Hc | Hc]; rewrite Hc; simpl.
  - destruct (Hinv (PJson v)) as (c & Hfc & Htr & Hgc). rewrite Hfc. simpl.
    unfold LocalStorageAPI.deserialize. rewrite He, Hg, Hs, Hc.
    destruct c; try discriminate; rewrite Hgc; simpl; now apply hydrate_untagged.
  - destruct (Hinv (PLz (PJson v))) as (c & Hfc & Htr & Hgc). rewrite Hfc. simpl.
    unfold LocalStorageAPI.deserialize. rewrite He, Hg, Hs, Hc.
    destruct c; try discriminate; rewrite Hgc; simpl; now apply hydrate_untagged.
Qed.

(** X24 (witness): hooks that wrap and unwrap the payload. *)
Lemma encryption_witness :
  encryption (fst cipher_api) = Some cipher
  /\ (forall p, exists c,
         (fun p => Ok (PCipher 0 p)) p = Ok c /\ payload_truthy c = true
         /\ (fun c => match c with PCipher _ p => Ok p | _ => Unmodelled end) c = Ok p)
  /\ json_native (JArr [JNum 1; JStr "a"]) = true
  /\ tagged (JArr [JNum 1; JStr "a"]) = false
  /\ obind (LocalStorageAPI.serialize (fst cipher_api) (JArr [JNum 1; JStr "a"]) no_options)
           (LocalStorageAPI.deserialize (fst cipher_api))
     = Ok (JArr [JNum 1; JStr "a"]).
Proof.
  split; [reflexivity |].
  split; [intro p; exists (PCipher 0 p); repeat split |].
  split; [reflexivity |]. split; [reflexivity |].
  apply (round_trip_through_encryption_hooks (fst cipher_api) cipher
           (fun p => Ok (PCipher 0 p))
           (fun c => match c with PCipher _ p => Ok p | _ => Unmodelled end)
           (JArr [JNum 1; JStr "a"])).
  - reflexivity.
  - reflexivity.
  - reflexivity.
  - intro p. exists (PCipher 0 p). repeat split.
  - reflexivity.
  - left. reflexivity.
  - reflexivity.
  - reflexivity.
Defined.

(** ** The counter of deletions *)

Lemma get_keeps_deletes cfg key : keeps deletes_of (LocalStorageAPI.get cfg key).
Proof.
  unfold LocalStorageAPI.get, LocalStorageAPI.get_from_layer, LocalStorageAPI.on_error,
    deletes_of.
  frame.
Qed.

(** X25: no method increments [metrics.deletes]: [remove], [deleteMany],
    [clear], [set], [get] and [importAll] leave the counter as it was,
    whatever their outcome. *)
Theorem no_method_counts_a_deletion cfg :
  (forall key, keeps deletes_of (LocalStorageAPI.remove cfg key))
  /\ (forall ks, keeps deletes_of (LocalStorageAPI.deleteMany cfg ks))
  /\ keeps deletes_of (LocalStorageAPI.clear cfg)
  /\ (forall key v o, keeps deletes_of (LocalStorageAPI.set cfg key v o))
  /\ (forall key, keeps deletes_of (LocalStorageAPI.get cfg key))
  /\ (forall d, keeps deletes_of (LocalStorageAPI.importAll cfg d)).
Proof.
  assert (Hrm : forall key, keeps deletes_of (LocalStorageAPI.remove cfg key)).
  { intro key.
    unfold LocalStorageAPI.remove, LocalStorageAPI.remove_commit,
      LocalStorageAPI.on_error, deletes_of.
    frame; apply get_keeps_deletes. }
  repeat match goal with |- _ /\ _ => split end.
  - exact Hrm.
  - intro ks. unfold LocalStorageAPI.deleteMany. apply keeps_for_each. exact Hrm.
  - unfold LocalStorageAPI.clear, LocalStorageAPI.clear_commit,
      LocalStorageAPI.on_error, deletes_of.
    frame.
  - intros. unfold LocalStorageAPI.set, LocalStorageAPI.set_commit,
      LocalStorageAPI.on_error, deletes_of.
    frame; apply get_keeps_deletes.
  - exact (get_keeps_deletes cfg).
  - intro d. unfold LocalStorageAPI.importAll, deletes_of. frame.
Qed.

(** ** A value without a JSON text *)

(** X26: a [set] of a value that has no JSON text ([undefined] or a
    function) on the volatile layer fails at the audit record, where
    [JSON.stringify(value).length] throws a [TypeError] -- after the entry
    was stored and cached: the call throws, the layer holds the serialized
    entry, the cache holds the value, the audit log is unchanged and the
    [TypeError] is recorded in [metrics.errors]. *)
Theorem set_of_undefined_fails_after_the_write cfg key v v' options p st :
  hooked_value cfg key v options = Some v' ->
  JSON_stringify v' = None ->
  LocalStorageAPI.serialize cfg v' options = Ok p ->
  kind (currentLayer cfg) = KMemory ->
  exists e st' it t,
    LocalStorageAPI.set cfg key v options st = (Throw e, st')
    /\ m_get key (w_memory (world st')) = Some it /\ value it = p
    /\ m_get key (cache (self st')) = Some (mkCacheRecord v' t)
    /\ auditLog (self st') = auditLog (self st)
    /\ errors (metrics (self st'))
       = errors (metrics (self st))
         ++ [TypeError "Cannot read properties of undefined (reading 'length')"].
Proof.
  intros Hh Hj Hs Hk. rewrite (set_as_commit _ _ _ _ _ _ Hh).
  destruct (safe_mode_notice_run cfg key options (tick st)) as (s1 & E0 & Hw & Ht & Hm).
  set (w2 := set_memory
               (m_set key (written p (opt_ttl options) (world s1)) (w_memory (world s1)))
               (after_readings (opt_ttl options) (world s1))).
  set (t := w_clock w2 (w_ticks w2)).
  set (me2 := set_cache (m_set key (mkCacheRecord v' t) (cache (self st))) (self st)).
  assert (E : LocalStorageAPI.set_commit cfg key v' options (clock_reading st) (tick st)
              = (Throw (TypeError "Cannot read properties of undefined (reading 'length')"),
                 mkState (set_ticks (S (S (w_ticks w2))) w2) me2)).
  { unfold LocalStorageAPI.set_commit. unfold bind at 1. rewrite E0.
    unfold bind at 1, pure_of. rewrite Hs.
    unfold bind at 1, in_world, Backend.set. rewrite Hk, memory_set_run. fold w2.
    cbn [world self]. rewrite Hm. cbn [tick self].
    unfold bind at 1. rewrite now_run. unfold bind at 1, update.
    cbn [tick world self clock_reading]. unfold clock_reading. cbn [world]. fold t. fold me2.
    unfold bind at 1. rewrite now_run. unfold bind at 1, pure_of.
    unfold LocalStorageAPI.text_size. rewrite Hj. reflexivity. }
  unfold try_catch. rewrite E, on_error_run. cbn [world self].
  assert (Hme : error_listeners me2 = error_listeners (self st)) by reflexivity.
  exists (if Nat.eqb (error_listeners (self st)) 0 then UnhandledErrorEvent
          else TypeError "Cannot read properties of undefined (reading 'length')").
  rewrite Hme.
  destruct (Nat.eqb (error_listeners (self st)) 0);
    eexists; exists (written p (opt_ttl options) (world s1)), t;
    (split; [reflexivity |]); cbn [world self];
    (split; [subst w2; cbn [set_ticks w_memory set_memory]; apply m_get_set_same |]);
    (split; [reflexivity |]);
    (split; [subst me2; cbn; apply m_get_set_same |]);
    split; reflexivity.
Qed.

(** X26 (witness): [set] of [undefined] on a fresh instance. *)
Lemma set_of_undefined_witness :
  hooked_value (fst node_api) "u" JUndefined no_options = Some JUndefined
  /\ JSON_stringify JUndefined = None
  /\ LocalStorageAPI.serialize (fst node_api) JUndefined no_options = Ok PUndefined
  /\ kind (currentLayer (fst node_api)) = KMemory
  /\ exists e st' it t,
       LocalStorageAPI.set (fst node_api) "u" JUndefined no_options (snd node_api)
       = (Throw e, st')
       /\ m_get "u" (w_memory (world st')) = Some it /\ value it = PUndefined
       /\ m_get "u" (cache (self st')) = Some (mkCacheRecord JUndefined t)
       /\ auditLog (self st') = auditLog (self (snd node_api))
       /\ errors (metrics (self st'))
          = errors (metrics (self (snd node_api)))
            ++ [TypeError "Cannot read properties of undefined (reading 'length')"].
Proof.
  split; [reflexivity |]. split; [reflexivity |]. split; [reflexivity |].
  split; [reflexivity |].
  apply (set_of_undefined_fails_after_the_write (fst node_api) "u" JUndefined JUndefined
           no_options PUndefined (snd node_api)); reflexivity.
Defined.

(** ** Reading back what was imported *)

Lemma memory_importAll_entries : forall ser w w',
  NoDup (m_keys ser) ->
  MemoryStorage.importAll ser w = (Ok tt, w') ->
  (forall k p, m_get k ser = Some p ->
               exists it, m_get k (w_memory w') = Some it
                          /\ value it = p /\ ttl it = None)
  /\ (forall k, ~ In k (m_keys ser) -> m_get k (w_memory w') = m_get k (w_memory w)).
Proof.
  unfold MemoryStorage.importAll.
  induction ser as [| [key p] r IH]; intros w w' Hnd H.
  - inversion H; subst. split; [intros k p Hk; discriminate | reflexivity].
  - cbn [for_each fst snd] in H. unfold bind at 1 in H. rewrite memory_set_run in H.
    inversion Hnd as [| ? ? Hnotin Hr]; subst.
    destruct (IH _ _ Hr H) as [IH1 IH2]. cbn [w_memory set_memory] in IH2. split.
    + intros k q Hk. cbn [m_get] in Hk.
      destruct (String.eqb_spec k key) as [-> | Hne].
      * inversion Hk; subst q. rewrite (IH2 key Hnotin), m_get_set_same.
        eexists. split; [reflexivity |]. split; reflexivity.
      * apply IH1. exact Hk.
    + intros k Hk. cbn [m_keys map fst In] in Hk.
      rewrite IH2 by tauto. apply m_get_set_other. intro E. apply Hk. left. congruence.
Qed.

Lemma ls_importAll_entries ns : forall ser w w',
  NoDup (m_keys ser) ->
  LocalStorageStorage.importAll ns ser w = (Ok tt, w') ->
  (forall k p, m_get k ser = Some p ->
               exists it,
                 m_get (LocalStorageStorage.prefix ns ++ k)%string (w_localStorage w')
                 = Some (LsItem it)
                 /\ value it = LocalStorageStorage.through_json p /\ ttl it = None)
  /\ (forall k, ~ In k (m_keys ser) ->
                m_get (LocalStorageStorage.prefix ns ++ k)%string (w_localStorage w')
                = m_get (LocalStorageStorage.prefix ns ++ k)%string (w_localStorage w))
  /\ (ser <> [] -> w_localStorage_ok w' = true)
  /\ w_localStorage_ok w' = w_localStorage_ok w.
Proof.
  unfold LocalStorageStorage.importAll.
  induction ser as [| [key p] r IH]; intros w w' Hnd H.
  - inversion H; subst. split; [intros k p Hk; discriminate |].
    split; [reflexivity |]. split; [congruence | reflexivity].
  - cbn [for_each fst snd] in H. unfold bind at 1 in H. rewrite ls_set_run in H.
    destruct (w_localStorage_ok w) eqn:Eo; [| discriminate]. cbn [negb] in H.
    destruct (w_ls_full w); [discriminate |].
    inversion Hnd as [| ? ? Hnotin Hr]; subst.
    destruct (IH _ _ Hr H) as (IH1 & IH2 & _ & IH4).
    cbn [w_localStorage set_localStorage w_localStorage_ok after_readings set_ticks]
      in IH2, IH4.
    split; [| split; [| split]].
    + intros k q Hk. cbn [m_get] in Hk.
      destruct (String.eqb_spec k key) as [-> | Hne].
      * inversion Hk; subst q. rewrite (IH2 key Hnotin), m_get_set_same.
        eexists. split; [reflexivity |]. split; reflexivity.
      * apply IH1. exact Hk.
    + intros k Hk. cbn [m_keys map fst In] in Hk.
      rewrite IH2 by tauto. apply m_get_set_other.
      intro E. apply append_cancel in E. apply Hk. left. congruence.
    + intros _. congruence.
    + congruence.
Qed.

Lemma m_get_put_other k k' it s :
  k <> k' -> m_get k (IndexedDBStorage.put k' it s) = m_get k s.
Proof.
  intro Hne. induction s as [| [k0 it0] r IH]; simpl.
  - destruct (String.eqb_spec k k'); [contradiction | reflexivity].
  - destruct (String.eqb_spec k' k0) as [-> | Hk0]; simpl.
    + destruct (String.eqb_spec k k0); [contradiction |].
      destruct (String.eqb_spec k k0); [contradiction | reflexivity].
    + destruct (String.ltb k' k0); simpl.
      * destruct (String.eqb_spec k k'); [contradiction | reflexivity].
      * rewrite IH. reflexivity.
Qed.

Lemma import_items_entries : forall d s w s' w',
  NoDup (m_keys d) ->
  IndexedDBStorage.import_items d s w = (Ok s', w') ->
  (forall k p, m_get k d = Some p ->
               exists it, m_get k s' = Some it /\ value it = p /\ ttl it = None)
  /\ (forall k, ~ In k (m_keys d) -> m_get k s' = m_get k s).
Proof.
  induction d as [| [key p] r IH]; intros s w s' w' Hnd H.
  - inversion H; subst. split; [intros k p Hk; discriminate | reflexivity].
  - cbn [IndexedDBStorage.import_items] in H. unfold bind, Date_now in H.
    inversion Hnd as [| ? ? Hnotin Hr]; subst.
    destruct (IH _ _ _ _ Hr H) as [IH1 IH2]. split.
    + intros k q Hk. cbn [m_get] in Hk.
      destruct (String.eqb_spec k key) as [-> | Hne].
      * inversion Hk; subst q. rewrite (IH2 key Hnotin), m_get_put_same.
        eexists. split; [reflexivity |]. split; reflexivity.
      * apply IH1. exact Hk.
    + intros k Hk. cbn [m_keys map fst In] in Hk.
      rewrite IH2 by tauto. apply m_get_put_other. intro E. apply Hk. left. congruence.
Qed.

Lemma Backend_importAll_entries l ser w w' k p :
  NoDup (m_keys ser) ->
  Backend.importAll l ser w = (Ok tt, w') ->
  m_get k ser = Some p ->
  reachable l w' = true
  /\ exists it, Backend.entry l k w' = Some it
                /\ value it = as_stored l p /\ ttl it = None.
Proof.
  unfold Backend.importAll, Backend.entry, reachable, as_stored.
  destruct (kind l); intros Hnd H Hk.
  - unfold IndexedDBStorage.importAll in H.
    apply bind_Ok_inv in H as ([] & w1 & Hready & H).
    unfold IndexedDBStorage.waitForReady in Hready.
    destruct (w_indexedDB w) eqn:Ei; inversion Hready; subst w1.
    apply bind_Ok_inv in H as (s0 & w2 & Hs0 & H).
    unfold gets in Hs0. inversion Hs0; subst s0 w2.
    apply bind_Ok_inv in H as (s & w3 & Himp & H).
    pose proof (import_items_keys _ _ _ _ _ Himp) as [Hsame _].
    destruct (import_items_entries _ _ _ _ _ Hnd Himp) as [Hent _].
    destruct ser as [| x r]; [discriminate |].
    destruct (w_idb_full w3); inversion H; subst w'.
    rewrite store_of_set_store. split.
    + unfold same_stores in Hsame. cbn. intuition congruence.
    + apply Hent. exact Hk.
  - destruct (ls_importAll_entries _ _ _ _ Hnd H) as (Hent & _ & Hok & _).
    split.
    + apply Hok. intro E. subst ser. discriminate.
    + destruct (Hent k p Hk) as (it & Hg & Hv & Ht). rewrite Hg. eauto.
  - destruct (memory_importAll_entries _ _ _ Hnd H) as (Hent & _).
    split; [reflexivity |]. apply Hent. exact Hk.
Qed.

Section DefineUnique.
Context {V : Type}.
Implicit Types (o : smap V).

Lemma NoDup_insert_index i k (v : V) o :
  ~ In k (m_keys o) -> NoDup (m_keys o) -> NoDup (m_keys (insert_index i k v o)).
Proof.
  induction o as [| [k0 v0] r IH]; simpl; intros Hk Hnd.
  - repeat constructor. simpl. tauto.
  - inversion Hnd as [| ? ? Hnotin Hr]; subst.
    assert (Hc : NoDup (k :: k0 :: m_keys r)).
    { constructor; [simpl; tauto | exact Hnd]. }
    destruct (array_index k0) as [j |]; [destruct (j <? i)%N |]; simpl;
      try exact Hc.
    constructor.
    + rewrite In_m_keys_insert_index. intros [E | Hin]; [subst; tauto | contradiction].
    + apply IH; tauto.
Qed.

Lemma NoDup_define k (v : V) o : NoDup (m_keys o) -> NoDup (m_keys (define k v o)).
Proof.
  intro Hnd. unfold define. destruct (m_has k o) eqn:E.
  - rewrite m_keys_replace. exact Hnd.
  - apply m_has_false in E. destruct (array_index k).
    + apply NoDup_insert_index; assumption.
    + rewrite m_keys_app. simpl. apply NoDup_app; [exact Hnd | repeat constructor; simpl; tauto |].
      intros x Hx [Hin | []]. subst. contradiction.
Qed.

Lemma NoDup_assign k (v : V) o : NoDup (m_keys o) -> NoDup (m_keys (assign k v o)).
Proof.
  intro Hnd. unfold assign. destruct (String.eqb k "__proto__"); [exact Hnd |].
  apply NoDup_define. exact Hnd.
Qed.

Lemma m_get_assign k k' (v : V) o :
  k' <> "__proto__"%string ->
  m_get k (assign k' v o) = if String.eqb k k' then Some v else m_get k o.
Proof.
  intro Hne. unfold assign.
  destruct (String.eqb_spec k' "__proto__"); [contradiction |]. apply m_get_define.
Qed.

Lemma m_get_assign_other k k' (v : V) o :
  k <> k' -> m_get k (assign k' v o) = m_get k o.
Proof.
  intro Hne. unfold assign. destruct (String.eqb k' "__proto__"); [reflexivity |].
  rewrite m_get_define. destruct (String.eqb_spec k k'); [contradiction | reflexivity].
Qed.

End DefineUnique.

Lemma serialize_entries_values cfg : forall l acc ser,
  NoDup (m_keys l) ->
  NoDup (m_keys acc) ->
  LocalStorageAPI.serialize_entries cfg l acc = Ok ser ->
  NoDup (m_keys ser)
  /\ (forall k v, m_get k l = Some v -> k <> "__proto__"%string ->
                  exists p, LocalStorageAPI.serialize cfg v no_options = Ok p
                            /\ m_get k ser = Some p)
  /\ (forall k, ~ In k (m_keys l) -> m_get k ser = m_get k acc).
Proof.
  induction l as [| [key v] r IH]; intros acc ser Hnd Hacc H.
  - inversion H; subst. split; [exact Hacc |]. split; [intros; discriminate | reflexivity].
  - cbn [LocalStorageAPI.serialize_entries] in H.
    destruct (LocalStorageAPI.serialize cfg v no_options) as [p | |] eqn:Es;
      cbn [obind] in H; try discriminate.
    inversion Hnd as [| ? ? Hnotin Hr]; subst.
    destruct (IH _ _ Hr (NoDup_assign key p acc Hacc) H) as (I1 & I2 & I3).
    split; [exact I1 |]. split.
    + intros k x Hk Hne. cbn [m_get] in Hk.
      destruct (String.eqb_spec k key) as [-> | Hkk].
      * inversion Hk; subst x. exists p. split; [exact Es |].
        rewrite (I3 key Hnotin), (m_get_assign _ _ _ _ Hne), String.eqb_refl.
        reflexivity.
      * apply I2; assumption.
    + intros k Hk. cbn [m_keys map fst In] in Hk.
      rewrite I3 by tauto. apply m_get_assign_other. intro E. apply Hk. left. congruence.
Qed.

Lemma Backend_get_entry l key it w :
  reachable l w = true ->
  Backend.entry l key w = Some it ->
  fst (Backend.get l key w)
  = Ok (if lapsed (ttl it) (w_clock w (w_ticks w)) then None else Some (value it)).
Proof.
  unfold reachable, Backend.entry, Backend.get. destruct (kind l); intros Hr He.
  - apply idb_get_item_run; assumption.
  - destruct (m_get _ (w_localStorage w)) as [[it' | s] |] eqn:Eg; try discriminate.
    inversion He; subst it'. apply ls_get_item_run; assumption.
  - apply memory_get_item_run; assumption.
Qed.

Lemma get_from_layer_found cfg key t st p v :
  fst (Backend.get (currentLayer cfg) key (world st)) = Ok (Some p) ->
  payload_truthy p = true ->
  LocalStorageAPI.deserialize cfg p = Ok v ->
  fst (LocalStorageAPI.get_from_layer cfg key t st) = Ok v.
Proof.
  intros Hg Ht Hd. unfold LocalStorageAPI.get_from_layer. unfold bind at 1, in_world.
  destruct (Backend.get (currentLayer cfg) key (world st)) as [r w2].
  cbn [fst] in Hg. subst r. rewrite Ht.
  unfold bind at 1, pure_of. rewrite Hd. reflexivity.
Qed.

Lemma serialize_native cfg v :
  encryption cfg = None ->
  serialization (profile cfg) = Some "json" ->
  compression (profile cfg) = Some "none"
  \/ compression (profile cfg) = Some "lz-string" ->
  json_native v = true ->
  tagged v = false ->
  exists p,
    LocalStorageAPI.serialize cfg v no_options = Ok p
    /\ payload_truthy p = true
    /\ LocalStorageStorage.through_json p = p
    /\ LocalStorageAPI.deserialize cfg p = Ok v.
Proof.
  intros He Hs Hc Hn Ht.
  unfold LocalStorageAPI.serialize, LocalStorageAPI.deserialize. simpl.
  rewrite He, Hs, (tag_native _ _ Hn). simpl.
  unfold Lib.json_serialize. rewrite (json_of_native _ Hn).
  destruct Hc as [Hc | Hc]; rewrite Hc; simpl.
  - exists (PJson v). repeat split. now apply hydrate_untagged.
  - exists (PLz (PJson v)). repeat split. now apply hydrate_untagged.
Qed.

Lemma try_catch_fst_Ok {S A} (body : M S A) handler s a :
  fst (body s) = Ok a -> fst (try_catch body handler s) = Ok a.
Proof.
  unfold try_catch. destruct (body s) as [[x | e |] s1]; simpl; congruence.
Qed.

Lemma entry_substrate l key w w' :
  substrate w' = substrate w -> Backend.entry l key w' = Backend.entry l key w.
Proof.
  unfold substrate, Backend.entry, IndexedDBStorage.store_of. intro H. inversion H.
  destruct (kind l); congruence.
Qed.

Lemma importAll_then_get cfg d st st' k v :
  encryption cfg = None ->
  serialization (profile cfg) = Some "json" ->
  compression (profile cfg) = Some "none"
  \/ compression (profile cfg) = Some "lz-string" ->
  json_native v = true ->
  tagged v = false ->
  k <> "__proto__"%string ->
  NoDup (m_keys d) ->
  m_get k d = Some v ->
  LocalStorageAPI.importAll cfg d st = (Ok tt, st') ->
  result (LocalStorageAPI.get cfg k) st' = Ok v.
Proof.
  intros He Hs Hc Hn Ht Hk Hnd Hg H. unfold LocalStorageAPI.importAll in H.
  apply bind_Ok_inv in H as ([] & s1 & H1 & H).
  apply bind_Ok_inv in H as (ser & s2 & H2 & H).
  apply bind_Ok_inv in H as ([] & s3 & H3 & H).
  apply update_Ok_inv in H1 as [M1 _].
  assert (E2 : s2 = s1 /\ LocalStorageAPI.serialize_entries cfg d [] = Ok ser).
  { unfold pure_of in H2. inversion H2. split; congruence. }
  destruct E2 as [-> Hser].
  apply in_world_Ok_inv in H3 as [H3 M3].
  assert (Ec : cache (self st') = []).
  { transitivity (cache (self s3)).
    - eapply (keeps_run (fun st => cache (self st))); [| exact H]. frame.
    - rewrite M3, M1. reflexivity. }
  assert (Es : substrate_of st' = substrate_of s3).
  { eapply keeps_run; [| exact H]. sframe. }
  unfold substrate_of in Es.
  destruct (serialize_entries_values cfg d [] ser Hnd (NoDup_nil _) Hser)
    as (Hnds & Hval & _).
  destruct (Hval k v Hg Hk) as (p & Hp & Hgp).
  destruct (serialize_native cfg v He Hs Hc Hn Ht) as (p' & Hp' & Htr & Hj & Hde).
  rewrite Hp in Hp'. inversion Hp'; subst p'. clear Hp'.
  destruct (Backend_importAll_entries _ _ _ _ k p Hnds H3 Hgp)
    as (Hr & it & Hent & Hv & Httl).
  unfold result. rewrite get_miss_run by (rewrite Ec; reflexivity).
  apply try_catch_fst_Ok.
  apply (get_from_layer_found cfg k _ (tick st') p v); [| exact Htr | exact Hde].
  assert (Hsub : substrate (world (tick st')) = substrate (world s3)).
  { rewrite <- Es. reflexivity. }
  rewrite (Backend_get_entry _ k it).
  - rewrite Httl. cbn [lapsed]. rewrite Hv. unfold as_stored.
    destruct (kind (currentLayer cfg)); congruence.
  - rewrite (reachable_substrate _ _ _ Hsub). exact Hr.
  - rewrite (entry_substrate _ _ _ _ Hsub). exact Hent.
Qed.

(** X27: on a JSON profile without encryption, a JSON-native value without
    a [__type] tag that [importAll] writes under a key other than
    [__proto__] is what [get] of that key returns afterwards, when
    [importAll] succeeds on an object with one property per key; the same
    holds after [loadSnapshot] of a snapshot whose data hold the value. *)
Theorem restored_value_reads_back cfg st st' k v :
  encryption cfg = None ->
  serialization (profile cfg) = Some "json" ->
  compression (profile cfg) = Some "none"
  \/ compression (profile cfg) = Some "lz-string" ->
  json_native v = true ->
  tagged v = false ->
  k <> "__proto__"%string ->
  (forall d,
      NoDup (m_keys d) -> m_get k d = Some v ->
      LocalStorageAPI.importAll cfg d st = (Ok tt, st') ->
      result (LocalStorageAPI.get cfg k) st' = Ok v)
  /\ (forall name s,
         m_get name (snapshots (self st)) = Some s ->
         NoDup (m_keys (data s)) -> m_get k (data s) = Some v ->
         LocalStorageAPI.loadSnapshot cfg name st = (Ok tt, st') ->
         result (LocalStorageAPI.get cfg k) st' = Ok v).
Proof.
  intros He Hs Hc Hn Ht Hk. split.
  - intros d Hnd Hg H. eapply importAll_then_get; eassumption.
  - intros name s Hsnap Hnd Hg H.
    unfold LocalStorageAPI.loadSnapshot, bind, read in H. rewrite Hsnap in H.
    eapply importAll_then_get; eassumption.
Qed.

(** X27 (witness): an import of two keys into an instance that holds a third. *)
Lemma restored_value_witness :
  encryption (fst node_api) = None
  /\ serialization (profile (fst node_api)) = Some "json"
  /\ compression (profile (fst node_api)) = Some "none"
  /\ json_native (JArr [JNum 1; JStr "a"]) = true
  /\ tagged (JArr [JNum 1; JStr "a"]) = false
  /\ "k"%string <> "__proto__"%string
  /\ NoDup (m_keys [("k", JArr [JNum 1; JStr "a"]); ("z", JNull)])
  /\ LocalStorageAPI.importAll (fst node_api)
       [("k", JArr [JNum 1; JStr "a"]); ("z", JNull)] after_set
     = (Ok tt, exec (LocalStorageAPI.importAll (fst node_api)
                       [("k", JArr [JNum 1; JStr "a"]); ("z", JNull)]) after_set)
  /\ result (LocalStorageAPI.get (fst node_api) "k")
       (exec (LocalStorageAPI.importAll (fst node_api)
                [("k", JArr [JNum 1; JStr "a"]); ("z", JNull)]) after_set)
     = Ok (JArr [JNum 1; JStr "a"]).
Proof.
  split; [reflexivity |]. split; [reflexivity |]. split; [reflexivity |].
  split; [reflexivity |]. split; [reflexivity |]. split; [discriminate |].
  split; [repeat constructor; simpl; intuition discriminate |].
  split; [vm_compute; reflexivity |].
  apply (proj1 (restored_value_reads_back (fst node_api) after_set
                  (exec (LocalStorageAPI.importAll (fst node_api)
                           [("k", JArr [JNum 1; JStr "a"]); ("z", JNull)]) after_set)
                  "k" (JArr [JNum 1; JStr "a"])
                  eq_refl eq_refl (or_introl eq_refl) eq_refl eq_refl
                  ltac:(discriminate))
           [("k", JArr [JNum 1; JStr "a"]); ("z", JNull)]).
  - repeat constructor; simpl; intuition discriminate.
  - reflexivity.
  - vm_compute. reflexivity.
Defined.

(** ** Dates at the top of a value *)

Lemma year_of_era doe :
  0 <= doe <= 146096 ->
  0 <= (doe - doe / 1460 + doe / 36524 - doe / 146096) / 365 <= 399
  /\ 0 <= doe - (365 * ((doe - doe / 1460 + doe / 36524 - doe / 146096) / 365)
                 + (doe - doe / 1460 + doe / 36524 - doe / 146096) / 365 / 4
                 - (doe - doe / 1460 + doe / 36524 - doe / 146096) / 365 / 100) <= 365.
Proof.
  intro H. Z.div_mod_to_equations. lia.
Qed.

Lemma month_of_year doy :
  0 <= doy <= 365 ->
  0 <= (5 * doy + 2) / 153 <= 11
  /\ 1 <= doy - (153 * ((5 * doy + 2) / 153) + 2) / 5 + 1 <= 31.
Proof.
  intro H. Z.div_mod_to_equations. lia.
Qed.

Lemma civil_round_trip days :
  -100000001 <= days <= 100000000 ->
  match civil_from_days days with
  | (y, m, d) =>
      days_from_civil y m d = days
      /\ 1 <= m <= 12 /\ 1 <= d <= 31 /\ -272000 <= y <= 276000
  end.
Proof.
  intro H. unfold civil_from_days.
  set (z := days + 719468).
  set (era := z / 146097).
  set (doe := z - era * 146097).
  assert (Hdoe : 0 <= doe <= 146096).
  { subst doe era. Z.div_mod_to_equations. lia. }
  assert (Hera : -680 <= era <= 689).
  { subst era z. Z.div_mod_to_equations. lia. }
  destruct (year_of_era doe Hdoe) as [Hyoe Hdoy].
  set (yoe := (doe - doe / 1460 + doe / 36524 - doe / 146096) / 365) in *.
  set (doy := doe - (365 * yoe + yoe / 4 - yoe / 100)) in *.
  destruct (month_of_year doy Hdoy) as [Hmp Hd].
  set (mp := (5 * doy + 2) / 153) in *.
  set (d := doy - (153 * mp + 2) / 5 + 1) in *.
  cbv zeta.
  destruct (mp <? 10) eqn:Emp.
  - apply Z.ltb_lt in Emp.
    assert (E1 : (mp + 3 <=? 2) = false) by (apply Z.leb_gt; lia).
    rewrite E1. unfold days_from_civil. rewrite E1.
    assert (E2 : (2 <? mp + 3) = true) by (apply Z.ltb_lt; lia). rewrite E2.
    replace ((yoe + era * 400) / 400) with era by (Z.div_mod_to_equations; lia).
    replace (yoe + era * 400 - era * 400) with yoe by lia.
    replace (mp + 3 - 3) with mp by lia.
    split; [subst d doy doe z; lia |].
    split; [lia |]. split; [lia |].
    lia.
  - apply Z.ltb_ge in Emp.
    assert (E1 : (mp - 9 <=? 2) = true) by (apply Z.leb_le; lia).
    rewrite E1. unfold days_from_civil. rewrite E1.
    assert (E2 : (2 <? mp - 9) = false) by (apply Z.ltb_ge; lia). rewrite E2.
    replace (yoe + era * 400 + 1 - 1) with (yoe + era * 400) by lia.
    replace ((yoe + era * 400) / 400) with era by (Z.div_mod_to_equations; lia).
    replace (yoe + era * 400 - era * 400) with yoe by lia.
    replace (mp - 9 + 9) with mp by lia.
    split; [subst d doy doe z; lia |].
    split; [lia |]. split; [lia |].
    lia.
Qed.

Lemma In_upto fuel : forall start n,
  start <= n < start + Z.of_nat fuel -> In n (upto fuel start).
Proof.
  induction fuel as [| k IH]; intros start n H.
  - simpl in H. lia.
  - cbn [upto]. destruct (Z.eq_dec n start) as [-> | Hne]; [left; reflexivity |].
    right. apply IH. lia.
Qed.

Lemma pad_checked (w : nat) (bound : nat) :
  forallb (fun n => Nat.eqb (String.length (pad w n)) w
                    && match digits_value (pad w n) 0 with
                       | Some m => N.eqb m (Z.to_N n)
                       | None => false
                       end)
          (upto bound 0) = true ->
  forall n, 0 <= n < Z.of_nat bound ->
            String.length (pad w n) = w /\ field 0 w (pad w n) = Some n.
Proof.
  intros H n Hn. rewrite forallb_forall in H.
  specialize (H n (In_upto bound 0 n ltac:(lia))).
  apply andb_true_iff in H. destruct H as [Hl Hd].
  apply Nat.eqb_eq in Hl. split; [exact Hl |].
  unfold field. rewrite <- Hl at 1. rewrite substring_all by lia.
  destruct (digits_value (pad w n) 0) as [m |]; [| discriminate].
  apply N.eqb_eq in Hd. subst m. rewrite Z2N.id by lia. reflexivity.
Qed.

Lemma pad2_ok n : 0 <= n < 100 ->
  String.length (pad 2 n) = 2%nat /\ field 0 2 (pad 2 n) = Some n.
Proof. apply (pad_checked 2 100). vm_compute. reflexivity. Qed.

Lemma pad3_ok n : 0 <= n < 1000 ->
  String.length (pad 3 n) = 3%nat /\ field 0 3 (pad 3 n) = Some n.
Proof. apply (pad_checked 3 1000). vm_compute. reflexivity. Qed.

Lemma pad4_ok n : 0 <= n < 10000 ->
  String.length (pad 4 n) = 4%nat /\ field 0 4 (pad 4 n) = Some n.
Proof. apply (pad_checked 4 (Z.to_nat 10000)). vm_compute. reflexivity. Qed.

Lemma pad6_ok n : 0 <= n < 280000 ->
  String.length (pad 6 n) = 6%nat /\ field 0 6 (pad 6 n) = Some n.
Proof. apply (pad_checked 6 (Z.to_nat 280000)). vm_compute. reflexivity. Qed.

Lemma iso_parse_plus r : iso_parse (String "+" r) = iso_parse_from 1 r (String "+" r).
Proof. reflexivity. Qed.

Lemma iso_parse_minus r : iso_parse (String "-" r) = iso_parse_from (-1) r (String "-" r).
Proof. reflexivity. Qed.

Lemma iso_parse_unsigned c r :
  Ascii.eqb c "+" = false -> Ascii.eqb c "-" = false ->
  iso_parse (String c r) = iso_parse_from 1 (String c r) (String c r).
Proof.
  intros Hp Hm.
  destruct c as [[] [] [] [] [] [] [] []]; try reflexivity; discriminate.
Qed.

Lemma substring_after p : forall k n rest,
  substring (String.length p + k) n (p ++ rest) = substring k n rest.
Proof.
  induction p as [| c p IH]; intros k n rest; simpl; [reflexivity | apply IH].
Qed.

Lemma substring_head p rest :
  substring 0 (String.length p) (p ++ rest) = p.
Proof.
  induction p as [| c p IH]; simpl.
  - destruct rest; reflexivity.
  - rewrite IH. reflexivity.
Qed.

Lemma string_of_length_2 s :
  String.length s = 2%nat -> exists a b, s = String a (String b EmptyString).
Proof.
  destruct s as [| a [| b [| c r]]]; simpl; try discriminate. eauto.
Qed.

Lemma string_of_length_3 s :
  String.length s = 3%nat ->
  exists a b c, s = String a (String b (String c EmptyString)).
Proof.
  destruct s as [| a [| b [| c [| d r]]]]; simpl; try discriminate. eauto.
Qed.

(** The fields of a text in the layout [toISOString] prints. *)
Lemma iso_layout Y MM DD HH MI SS mmm :
  String.length MM = 2%nat -> String.length DD = 2%nat -> String.length HH = 2%nat ->
  String.length MI = 2%nat -> String.length SS = 2%nat -> String.length mmm = 3%nat ->
  let body := (Y ++ "-" ++ MM ++ "-" ++ DD ++ "T" ++ HH ++ ":" ++ MI ++ ":" ++ SS
                 ++ "." ++ mmm ++ "Z")%string in
  (String.length body - 20)%nat = String.length Y
  /\ field 0 (String.length Y) body = field 0 (String.length Y) Y
  /\ field (String.length Y + 1) 2 body = field 0 2 MM
  /\ field (String.length Y + 4) 2 body = field 0 2 DD
  /\ field (String.length Y + 7) 2 body = field 0 2 HH
  /\ field (String.length Y + 10) 2 body = field 0 2 MI
  /\ field (String.length Y + 13) 2 body = field 0 2 SS
  /\ field (String.length Y + 16) 3 body = field 0 3 mmm.
Proof.
  intros H1 H2 H3 H4 H5 H6.
  apply string_of_length_2 in H1 as (a1 & a2 & ->).
  apply string_of_length_2 in H2 as (b1 & b2 & ->).
  apply string_of_length_2 in H3 as (c1 & c2 & ->).
  apply string_of_length_2 in H4 as (d1 & d2 & ->).
  apply string_of_length_2 in H5 as (e1 & e2 & ->).
  apply string_of_length_3 in H6 as (f1 & f2 & f3 & ->).
  cbv zeta. unfold field.
  split; [rewrite length_append; simpl; lia |].
  split; [rewrite substring_head, substring_all by lia; reflexivity |].
  rewrite !substring_after. repeat split; reflexivity.
Qed.

Lemma pad4_unsigned n :
  0 <= n < 10000 ->
  exists c r, pad 4 n = String c r
              /\ Ascii.eqb c "+" = false /\ Ascii.eqb c "-" = false.
Proof.
  intro Hn.
  assert (H : forallb (fun n => match pad 4 n with
                                | String c _ =>
                                    negb (Ascii.eqb c "+") && negb (Ascii.eqb c "-")
                                | EmptyString => false
                                end) (upto (Z.to_nat 10000) 0) = true)
    by (vm_compute; reflexivity).
  rewrite forallb_forall in H.
  assert (Hin : In n (upto (Z.to_nat 10000) 0)).
  { apply In_upto. rewrite Z2Nat.id; lia. }
  specialize (H n Hin).
  destruct (pad 4 n) as [| c r]; [discriminate |].
  apply andb_true_iff in H. destruct H as [Hp Hm].
  apply negb_true_iff in Hp. apply negb_true_iff in Hm. eauto.
Qed.

Lemma time_of_day ms :
  0 <= ms < 86400000 ->
  0 <= ms / 3600000 < 100 /\ 0 <= ms mod 3600000 / 60000 < 100
  /\ 0 <= ms mod 60000 / 1000 < 100 /\ 0 <= ms mod 1000 < 1000
  /\ ms / 3600000 * 3600000 + ms mod 3600000 / 60000 * 60000
     + ms mod 60000 / 1000 * 1000 + ms mod 1000 = ms.
Proof. intro H. Z.div_mod_to_equations. lia. Qed.

Lemma iso_parse_from_layout sign y mo d h mi sec ms Y s :
  field 0 (String.length Y) Y = Some y ->
  0 <= mo < 100 -> 0 <= d < 100 -> 0 <= h < 100 -> 0 <= mi < 100 -> 0 <= sec < 100 ->
  0 <= ms < 1000 ->
  s = toISOString (days_from_civil (sign * y) mo d * 86400000
                   + h * 3600000 + mi * 60000 + sec * 1000 + ms) ->
  iso_parse_from sign
    (Y ++ "-" ++ pad 2 mo ++ "-" ++ pad 2 d ++ "T" ++ pad 2 h ++ ":" ++ pad 2 mi ++ ":"
       ++ pad 2 sec ++ "." ++ pad 3 ms ++ "Z") s
  = Some (days_from_civil (sign * y) mo d * 86400000
          + h * 3600000 + mi * 60000 + sec * 1000 + ms).
Proof.
  intros HY Hmo Hd Hh Hmi Hsec Hms Hs.
  destruct (pad2_ok mo Hmo) as [L1 F1]. destruct (pad2_ok d Hd) as [L2 F2].
  destruct (pad2_ok h Hh) as [L3 F3]. destruct (pad2_ok mi Hmi) as [L4 F4].
  destruct (pad2_ok sec Hsec) as [L5 F5]. destruct (pad3_ok ms Hms) as [L6 F6].
  destruct (iso_layout Y _ _ _ _ _ _ L1 L2 L3 L4 L5 L6)
    as (E0 & E1 & E2 & E3 & E4 & E5 & E6 & E7).
  unfold iso_parse_from. cbv zeta.
  rewrite E0, E1, E2, E3, E4, E5, E6, E7, HY, F1, F2, F3, F4, F5, F6.
  rewrite <- Hs, String.eqb_refl. reflexivity.
Qed.

Lemma iso_round_trip t :
  -8640000000000000 <= t <= 8640000000000000 ->
  iso_parse (toISOString t) = Some t.
Proof.
  intro Ht.
  set (days := t / 86400000). set (ms := t mod 86400000).
  assert (Hdays : -100000001 <= days <= 100000000).
  { subst days. Z.div_mod_to_equations. lia. }
  assert (Hms : 0 <= ms < 86400000) by (subst ms; apply Z.mod_pos_bound; lia).
  assert (Hsplit : t = days * 86400000 + ms).
  { subst days ms. Z.div_mod_to_equations. lia. }
  pose proof (civil_round_trip days Hdays) as Hciv.
  destruct (civil_from_days days) as [[y m] d] eqn:Ec.
  destruct Hciv as (Hrt & Hm & Hd & Hy).
  destruct (time_of_day ms Hms) as (Hh & Hmi & Hsec & Hmsec & Hsum).
  set (rest := ("-" ++ pad 2 m ++ "-" ++ pad 2 d ++ "T" ++ pad 2 (ms / 3600000) ++ ":"
                  ++ pad 2 (ms mod 3600000 / 60000) ++ ":"
                  ++ pad 2 (ms mod 60000 / 1000) ++ "." ++ pad 3 (ms mod 1000)
                  ++ "Z")%string).
  assert (Hs : toISOString t
               = ((if ((0 <=? y)%Z && (y <=? 9999)%Z)%bool then pad 4 y
                   else ((if (y <? 0)%Z then "-" else "+") ++ pad 6 (Z.abs y)))
                    ++ rest)%string).
  { unfold toISOString. fold days. rewrite Ec. fold ms. reflexivity. }
  destruct ((0 <=? y) && (y <=? 9999)) eqn:Ey.
  - apply andb_true_iff in Ey. destruct Ey as [Ey1 Ey2].
    apply Z.leb_le in Ey1. apply Z.leb_le in Ey2.
    destruct (pad4_ok y ltac:(lia)) as [L F].
    destruct (pad4_unsigned y ltac:(lia)) as (c & r & Hc & Hp & Hmn).
    assert (E : iso_parse (toISOString t)
                = iso_parse_from 1 (pad 4 y ++ rest) (toISOString t)).
    { assert (Hs' : toISOString t = String c (r ++ rest))
        by (rewrite Hs, Hc; reflexivity).
      rewrite Hc. cbn [append]. rewrite Hs' at 1.
      rewrite (iso_parse_unsigned c _ Hp Hmn). rewrite <- Hs'. reflexivity. }
    rewrite E. subst rest.
    rewrite (iso_parse_from_layout 1 y m d _ _ _ _ (pad 4 y) (toISOString t)).
    + f_equal. rewrite Z.mul_1_l, Hrt. lia.
    + rewrite L. exact F.
    + lia.
    + lia.
    + exact Hh.
    + exact Hmi.
    + exact Hsec.
    + exact Hmsec.
    + f_equal. rewrite Z.mul_1_l, Hrt. lia.
  - destruct (y <? 0) eqn:Eneg.
    + apply Z.ltb_lt in Eneg.
      destruct (pad6_ok (Z.abs y) ltac:(lia)) as [L F].
      assert (E : iso_parse (toISOString t)
                  = iso_parse_from (-1) (pad 6 (Z.abs y) ++ rest) (toISOString t)).
      { assert (Hs' : toISOString t = String "-" (pad 6 (Z.abs y) ++ rest))
          by (rewrite Hs; reflexivity).
        rewrite Hs' at 1. rewrite iso_parse_minus, <- Hs'. reflexivity. }
      rewrite E. subst rest.
      rewrite (iso_parse_from_layout (-1) (Z.abs y) m d _ _ _ _ (pad 6 (Z.abs y))
                 (toISOString t)).
      * f_equal. replace (-1 * Z.abs y) with y by lia. rewrite Hrt. lia.
      * rewrite L. exact F.
      * lia.
      * lia.
      * exact Hh.
      * exact Hmi.
      * exact Hsec.
      * exact Hmsec.
      * f_equal. replace (-1 * Z.abs y) with y by lia. rewrite Hrt. lia.
    + apply Z.ltb_ge in Eneg.
      destruct (pad6_ok (Z.abs y) ltac:(lia)) as [L F].
      assert (E : iso_parse (toISOString t)
                  = iso_parse_from 1 (pad 6 (Z.abs y) ++ rest) (toISOString t)).
      { assert (Hs' : toISOString t = String "+" (pad 6 (Z.abs y) ++ rest))
          by (rewrite Hs; reflexivity).
        rewrite Hs' at 1. rewrite iso_parse_plus, <- Hs'. reflexivity. }
      rewrite E. subst rest.
      rewrite (iso_parse_from_layout 1 (Z.abs y) m d _ _ _ _ (pad 6 (Z.abs y))
                 (toISOString t)).
      * f_equal. replace (1 * Z.abs y) with y by lia. rewrite Hrt. lia.
      * rewrite L. exact F.
      * lia.
      * lia.
      * exact Hh.
      * exact Hmi.
      * exact Hsec.
      * exact Hmsec.
      * f_equal. replace (1 * Z.abs y) with y by lia. rewrite Hrt. lia.
Qed.

(** X28: on a JSON profile without encryption, a [Date] with a time value in
    the range of valid dates (at most 8.64e15 ms from the epoch on either
    side) comes back from the write pipeline followed by the read pipeline
    as a [Date] with the same time value: the text [toISOString] prints is
    parsed back to the millisecond, for years before 0 and after 9999
    too. *)
Theorem date_round_trip cfg t :
  encryption cfg = None ->
  serialization (profile cfg) = Some "json" ->
  compression (profile cfg) = Some "none"
  \/ compression (profile cfg) = Some "lz-string" ->
  -8640000000000000 <= t <= 8640000000000000 ->
  obind (LocalStorageAPI.serialize cfg (JDate t) no_options)
        (LocalStorageAPI.deserialize cfg) = Ok (JDate t).
Proof.
  intros He Hs Hc Ht.
  assert (Hh : LocalStorageAPI.hydrate
                 (JObj [("__type", JStr "Date"); ("value", JStr (toISOString t))])
               = Ok (JDate t)).
  { cbn -[toISOString iso_parse]. rewrite (iso_round_trip t Ht). reflexivity. }
  unfold LocalStorageAPI.serialize, LocalStorageAPI.deserialize.
  cbn [LocalStorageAPI.str_or opt_serialization opt_compression no_options
       LocalStorageAPI.tag].
  rewrite He, Hs.
  cbn [LocalStorageAPI.SerializationStrategies String.eqb Ascii.eqb Bool.eqb obind].
  unfold Lib.json_serialize.
  cbn [json_of].
  destruct Hc as [Hc | Hc]; rewrite Hc;
    cbn -[toISOString LocalStorageAPI.hydrate]; exact Hh.
Qed.

(** X28 (witness): the last millisecond of the year -1. *)
Lemma date_witness :
  encryption (fst node_api) = None
  /\ serialization (profile (fst node_api)) = Some "json"
  /\ compression (profile (fst node_api)) = Some "none"
  /\ -8640000000000000 <= -62198755200001 <= 8640000000000000
  /\ obind (LocalStorageAPI.serialize (fst node_api) (JDate (-62198755200001)) no_options)
           (LocalStorageAPI.deserialize (fst node_api))
     = Ok (JDate (-62198755200001)).
Proof.
  split; [reflexivity |]. split; [reflexivity |]. split; [reflexivity |].
  split; [lia |].
  apply (date_round_trip (fst node_api) (-62198755200001));
    [reflexivity | reflexivity | left; reflexivity | lia].
Defined.

(** ** Expiry on read *)

Lemma lapsed_reads_clock d t :
  lapsed d t = true ->
  match d with Some x => negb (x =? 0) | None => false end = true.
Proof.
  unfold lapsed. destruct d as [x |]; [| discriminate].
  intro H. apply andb_true_iff in H. tauto.
Qed.

(** X29: a layer's [get] of an entry whose [ttl] has run out at the reading
    of the clock answers [null] and deletes the entry from the layer; the
    entries under the other keys stay as they were. On IndexedDB the
    deletion is the un-awaited [this.remove(key)], taken here as in effect
    when [get] returns, as in [IndexedDBStorage.get]. *)
Theorem expired_entry_is_evicted_on_read l key it w :
  reachable l w = true ->
  NoDup (raw_names l w) ->
  Backend.entry l key w = Some it ->
  lapsed (ttl it) (w_clock w (w_ticks w)) = true ->
  exists w',
    Backend.get l key w = (Ok None, w')
    /\ holds l key w' = false
    /\ forall k, k <> key -> Backend.entry l k w' = Backend.entry l k w.
Proof.
  unfold reachable, raw_names, Backend.entry, Backend.get, holds.
  destruct (kind l); intros Hr Hnd He Hl; pose proof (lapsed_reads_clock _ _ Hl) as Hc.
  - unfold IndexedDBStorage.get, IndexedDBStorage.waitForReady. unfold bind at 1.
    rewrite Hr. unfold bind at 1, gets. rewrite He.
    unfold bind at 1. rewrite expired_run, Hl, Hc.
    unfold IndexedDBStorage.remove, IndexedDBStorage.waitForReady, bind, modify, ret.
    cbn [w_indexedDB set_ticks]. rewrite Hr.
    eexists. split; [reflexivity |]. rewrite store_of_set_store.
    change (IndexedDBStorage.store_of (namespace l) (set_ticks (S (w_ticks w)) w))
      with (IndexedDBStorage.store_of (namespace l) w).
    split.
    + apply m_has_m_get, m_get_delete_same. exact Hnd.
    + intros k Hk. apply m_get_delete_other. exact Hk.
  - destruct (m_get _ (w_localStorage w)) as [[it' | s] |] eqn:Eg; try discriminate.
    inversion He; subst it'.
    unfold LocalStorageStorage.get, LocalStorageStorage.getItem. unfold bind at 1.
    rewrite Hr, Eg. cbn [negb]. unfold bind at 1. rewrite expired_run, Hl, Hc.
    unfold LocalStorageStorage.remove, LocalStorageStorage.removeItem, bind, ret.
    cbn [w_localStorage_ok set_ticks]. rewrite Hr. cbn [negb].
    eexists. split; [reflexivity |]. cbn [w_localStorage set_localStorage set_ticks].
    split.
    + apply m_has_m_get, m_get_delete_same. exact Hnd.
    + intros k Hk. rewrite m_get_delete_other; [reflexivity |].
      intro E. apply Hk. eapply append_cancel. exact E.
  - unfold MemoryStorage.get. unfold bind at 1, gets. rewrite He.
    unfold bind at 1. rewrite expired_run, Hl, Hc. unfold bind, modify, ret.
    eexists. split; [reflexivity |]. cbn [w_memory set_memory set_ticks].
    split.
    + apply m_has_m_get, m_get_delete_same. exact Hnd.
    + intros k Hk. apply m_get_delete_other. exact Hk.
Qed.

(** X29 (witness): an entry of the volatile layer that expired a millisecond
    ago. *)
Lemma expired_entry_witness :
  reachable memory_layer
    (exec (Backend.set memory_layer "k" (PJson (JNum 1)) (Some (-1)))
          (node_world ticking_clock)) = true
  /\ NoDup (raw_names memory_layer
              (exec (Backend.set memory_layer "k" (PJson (JNum 1)) (Some (-1)))
                    (node_world ticking_clock)))
  /\ Backend.entry memory_layer "k"
       (exec (Backend.set memory_layer "k" (PJson (JNum 1)) (Some (-1)))
             (node_world ticking_clock))
     = Some (mkItem (PJson (JNum 1)) 0 10 1 (Some (-980)))
  /\ lapsed (ttl (mkItem (PJson (JNum 1)) 0 10 1 (Some (-980)))) 30 = true
  /\ exists w',
       Backend.get memory_layer "k"
         (exec (Backend.set memory_layer "k" (PJson (JNum 1)) (Some (-1)))
               (node_world ticking_clock)) = (Ok None, w')
       /\ holds memory_layer "k" w' = false.
Proof.
  split; [reflexivity |].
  split; [vm_compute; repeat constructor; simpl; tauto |].
  split; [vm_compute; reflexivity |]. split; [reflexivity |].
  destruct (expired_entry_is_evicted_on_read memory_layer "k"
              (mkItem (PJson (JNum 1)) 0 10 1 (Some (-980)))
              (exec (Backend.set memory_layer "k" (PJson (JNum 1)) (Some (-1)))
                    (node_world ticking_clock)))
    as (w' & Hg & Hh & _).
  - reflexivity.
  - vm_compute. repeat constructor. simpl. tauto.
  - vm_compute. reflexivity.
  - vm_compute. reflexivity.
  - exists w'. split; assumption.
Defined.

(** ** Messages to the other tabs *)

Lemma get_keeps_posted cfg key : keeps posted_of (LocalStorageAPI.get cfg key).
Proof.
  unfold LocalStorageAPI.get, LocalStorageAPI.get_from_layer, LocalStorageAPI.on_error,
    posted_of.
  frame.
Qed.

Lemma broadcast_without_channel cfg type key v :
  has_channel cfg = false ->
  keeps posted_of (LocalStorageAPI.broadcast cfg type key v).
Proof.
  unfold has_channel, LocalStorageAPI.broadcast. intro H.
  destruct (sync cfg) as [s |]; [| apply keeps_ret].
  rewrite H. apply keeps_ret.
Qed.

Lemma broadcast_with_channel cfg type key v st :
  has_channel cfg = true ->
  LocalStorageAPI.broadcast cfg type key v st
  = (Ok tt,
     mkState (world (tick st))
       (set_posted (posted (self st)
                    ++ [mkMessage type (tab_name cfg) (clock_reading st) key v])
                   (self st))).
Proof.
  unfold has_channel, tab_name, LocalStorageAPI.broadcast. intro H.
  destruct (sync cfg) as [s |]; [| discriminate]. rewrite H.
  unfold bind. rewrite now_run. reflexivity.
Qed.

Ltac pframe H :=
  unfold posted_of, LocalStorageAPI.on_error, LocalStorageAPI.log,
    LocalStorageAPI.count_read;
  repeat first
    [ apply get_keeps_posted
    | apply (broadcast_without_channel _ _ _ _ H)
    | frame_step ].

(** X30: messages to the other tabs need a channel. Without
    [sync.channel], [set], [remove] and [clear] post nothing; [get] and
    [importAll] post nothing in any case; with a channel, a successful
    [set] posts exactly one message, of type [set], with the tab's id, the
    key and the value as the [set] hook left it. *)
Theorem messages_need_a_channel cfg :
  (has_channel cfg = false ->
   (forall key v o, keeps posted_of (LocalStorageAPI.set cfg key v o))
   /\ (forall key, keeps posted_of (LocalStorageAPI.remove cfg key))
   /\ keeps posted_of (LocalStorageAPI.clear cfg))
  /\ (forall key, keeps posted_of (LocalStorageAPI.get cfg key))
  /\ (forall d, keeps posted_of (LocalStorageAPI.importAll cfg d))
  /\ (forall key v v' o st st',
         has_channel cfg = true ->
         hooked_value cfg key v o = Some v' ->
         LocalStorageAPI.set cfg key v o st = (Ok tt, st') ->
         exists t,
           posted_of st'
           = posted_of st ++ [mkMessage "set" (tab_name cfg) t (Some key) (Some v')]).
Proof.
  split; [| split; [| split]].
  - intro Hc. split; [| split].
    + intros. unfold LocalStorageAPI.set, LocalStorageAPI.set_commit. pframe Hc.
    + intros. unfold LocalStorageAPI.remove, LocalStorageAPI.remove_commit. pframe Hc.
    + unfold LocalStorageAPI.clear, LocalStorageAPI.clear_commit. pframe Hc.
  - apply get_keeps_posted.
  - intro d. unfold LocalStorageAPI.importAll, posted_of. frame.
  - intros key v v' o st st' Hc Hh H.
    rewrite (set_as_commit _ _ _ _ _ _ Hh) in H.
    apply try_catch_Ok_inv in H; [| intros; apply on_error_not_Ok].
    unfold LocalStorageAPI.set_commit in H.
    apply bind_Ok_inv in H as ([] & s1 & H1 & H).
    apply bind_Ok_inv in H as (p & s2 & H2 & H).
    apply bind_Ok_inv in H as ([] & s3 & H3 & H).
    apply bind_Ok_inv in H as (t4 & s4 & H4 & H).
    apply bind_Ok_inv in H as ([] & s5 & H5 & H).
    apply bind_Ok_inv in H as (t6 & s6 & H6 & H).
    apply bind_Ok_inv in H as (sz & s7 & H7 & H).
    apply bind_Ok_inv in H as ([] & s8 & H8 & H).
    apply bind_Ok_inv in H as (old & s9 & H9 & H).
    apply bind_Ok_inv in H as ([] & s10 & H10 & H).
    apply bind_Ok_inv in H as ([] & s11 & H11 & H).
    apply bind_Ok_inv in H as (t12 & s12 & H12 & H).
    apply bind_Ok_inv in H as ([] & s13 & H13 & H).
    apply bind_Ok_inv in H as ([] & s14 & H14 & H).
    apply bind_Ok_inv in H as ([] & s15 & H15 & H).
    assert (E1 : posted_of s1 = posted_of (tick st)).
    { eapply keeps_run; [| exact H1]. unfold posted_of. frame. }
    assert (E2 : posted_of s2 = posted_of s1).
    { eapply keeps_run; [| exact H2]. unfold posted_of. frame. }
    assert (E3 : posted_of s3 = posted_of s2).
    { eapply keeps_run; [| exact H3]. unfold posted_of. frame. }
    assert (E4 : posted_of s4 = posted_of s3).
    { eapply keeps_run; [| exact H4]. unfold posted_of. frame. }
    assert (E5 : posted_of s5 = posted_of s4).
    { eapply keeps_run; [| exact H5]. unfold posted_of. frame. }
    assert (E6 : posted_of s6 = posted_of s5).
    { eapply keeps_run; [| exact H6]. unfold posted_of. frame. }
    assert (E7 : posted_of s7 = posted_of s6).
    { eapply keeps_run; [| exact H7]. unfold posted_of. frame. }
    assert (E8 : posted_of s8 = posted_of s7).
    { eapply keeps_run; [| exact H8]. unfold posted_of. frame. }
    assert (E9 : posted_of s9 = posted_of s8).
    { eapply keeps_run; [| exact H9]. apply get_keeps_posted. }
    assert (E10 : posted_of s10 = posted_of s9).
    { eapply keeps_run; [| exact H10]. unfold posted_of. frame. }
    assert (E11 : posted_of s11 = posted_of s10).
    { eapply keeps_run; [| exact H11]. unfold posted_of. frame. }
    assert (E12 : posted_of s12 = posted_of s11).
    { eapply keeps_run; [| exact H12]. unfold posted_of. frame. }
    assert (E13 : posted_of s13 = posted_of s12).
    { eapply keeps_run; [| exact H13]. unfold posted_of. frame. }
    assert (E14 : posted_of s14
                  = posted_of s13
                    ++ [mkMessage "set" (tab_name cfg) (clock_reading s13)
                          (Some key) (Some v')]).
    { assert (Hs : exists s, sync cfg = Some s).
      { unfold has_channel in Hc. destruct (sync cfg); [eauto | discriminate]. }
      destruct Hs as [s Hs]. rewrite Hs in H14.
      rewrite (broadcast_with_channel _ _ _ _ _ Hc) in H14.
      inversion H14; subst s14. reflexivity. }
    assert (E15 : posted_of s15 = posted_of s14).
    { eapply keeps_run; [| exact H15]. unfold posted_of. frame. }
    assert (E16 : posted_of st' = posted_of s15).
    { eapply keeps_run; [| exact H]. unfold posted_of. frame. }
    exists (clock_reading s13).
    change (posted_of st) with (posted_of (tick st)). congruence.
Qed.

(** X30 (witness): a [set] on an instance with a channel. *)
Lemma messages_witness :
  has_channel (fst sync_api) = true
  /\ hooked_value (fst sync_api) "x" (JNum 1) no_options = Some (JNum 1)
  /\ LocalStorageAPI.set (fst sync_api) "x" (JNum 1) no_options (snd sync_api)
     = (Ok tt, exec (LocalStorageAPI.set (fst sync_api) "x" (JNum 1) no_options)
                    (snd sync_api))
  /\ exists t,
       posted_of (exec (LocalStorageAPI.set (fst sync_api) "x" (JNum 1) no_options)
                       (snd sync_api))
       = posted_of (snd sync_api)
         ++ [mkMessage "set" (tab_name (fst sync_api)) t (Some "x") (Some (JNum 1))].
Proof.
  split; [reflexivity |]. split; [reflexivity |]. split; [vm_compute; reflexivity |].
  apply (proj2 (proj2 (proj2 (messages_need_a_channel (fst sync_api))))
           "x" (JNum 1) (JNum 1) no_options (snd sync_api)).
  - reflexivity.
  - reflexivity.
  - vm_compute. reflexivity.
Defined.

(** ** The object [getMany] returns *)

Lemma set_property_own k v o o' :
  set_property k v o = Ok o' ->
  (forall k', k' <> k -> (In k' (m_keys (own o')) <-> In k' (m_keys (own o))))
  /\ (k <> "__proto__" -> In k (m_keys (own o')) /\ prototype o' = prototype o)
  /\ (NoDup (m_keys (own o)) -> NoDup (m_keys (own o')))
  /\ (k = "__proto__" -> prototype o = ObjectPrototype ->
      ~ In k (m_keys (own o)) -> own o' = own o).
Proof.
  unfold set_property. destruct (m_has k (own o)) eqn:Eh.
  - intro H. inversion H; subst o'. cbn [own prototype].
    rewrite m_keys_replace. apply m_has_In in Eh.
    repeat match goal with |- _ /\ _ => split end; tauto.
  - destruct (slot_above (prototype o) k) eqn:Es; try discriminate.
    + intro H. inversion H; subst o'. cbn [own prototype].
      repeat match goal with |- _ /\ _ => split end.
      * intros k' Hne. rewrite In_m_keys_define. tauto.
      * intros _. split; [| reflexivity]. rewrite In_m_keys_define. tauto.
      * apply NoDup_define.
      * intros -> Hp _. rewrite Hp in Es. discriminate.
    + assert (Ek : k = "__proto__"%string).
      { unfold slot_above, slot_of_Object_prototype in Es.
        destruct (String.eqb_spec k "__proto__") as [E | E]; [exact E |].
        destruct (prototype o) as [| | u]; try discriminate.
        destruct u; try discriminate;
          repeat match type of Es with
                 | (if ?b then _ else _) = _ => destruct b; try discriminate
                 end. }
      intro H. inversion H; subst o'.
      assert (Eo : own (match v with
                        | JNull => mkObj (own o) NullPrototype
                        | _ => if is_primitive v then o
                               else mkObj (own o) (ValuePrototype v)
                        end) = own o).
      { destruct v; reflexivity. }
      rewrite Eo.
      subst k. repeat match goal with |- _ /\ _ => split end; tauto.
Qed.

Lemma getMany_from_own cfg : forall ks results st r st',
  LocalStorageAPI.getMany_from cfg ks results st = (Ok r, st') ->
  (forall k, k <> "__proto__"%string ->
     (In k (m_keys (own r)) <-> In k (m_keys (own results)) \/ In k ks))
  /\ (NoDup (m_keys (own results)) -> NoDup (m_keys (own r)))
  /\ (~ In "__proto__"%string ks ->
      prototype r = prototype results
      /\ (In "__proto__"%string (m_keys (own r))
          <-> In "__proto__"%string (m_keys (own results))))
  /\ (prototype results = ObjectPrototype ->
      ~ In "__proto__"%string (m_keys (own results)) ->
      (count_occ string_dec ks "__proto__"%string <= 1)%nat ->
      ~ In "__proto__"%string (m_keys (own r))).
Proof.
  induction ks as [| key ks IH]; intros results st r st' H;
    cbn [LocalStorageAPI.getMany_from] in H.
  - unfold ret in H. inversion H; subst.
    repeat match goal with |- _ /\ _ => split end; simpl; tauto.
  - apply bind_Ok_inv in H as (v & s1 & _ & H).
    apply bind_Ok_inv in H as (o1 & s2 & H1 & H).
    unfold pure_of in H1. apply (f_equal fst) in H1. cbn [fst] in H1.
    destruct (set_property_own _ _ _ _ H1) as (P1 & P2 & P3 & P4).
    destruct (IH _ _ _ _ H) as (I1 & I2 & I3 & I4).
    repeat match goal with |- _ /\ _ => split end.
    + intros k Hk. rewrite (I1 k Hk). simpl.
      destruct (string_dec k key) as [-> | Hne].
      * destruct (P2 Hk) as [Hin _]. tauto.
      * rewrite (P1 k Hne). intuition congruence.
    + intro Hnd. apply I2, P3, Hnd.
    + intro Hn. simpl in Hn.
      assert (Hkey : key <> "__proto__"%string) by (intro E; apply Hn; left; exact E).
      assert (Hks : ~ In "__proto__"%string ks) by tauto.
      destruct (I3 Hks) as [J1 J2]. destruct (P2 Hkey) as [_ Q].
      split; [congruence |].
      rewrite J2. apply P1. congruence.
    + intros Hp Hown Hc. cbn [count_occ] in Hc.
      destruct (string_dec key "__proto__") as [E | E].
      * assert (Hks : ~ In "__proto__"%string ks).
        { intro Hin. apply (count_occ_In string_dec) in Hin. lia. }
        destruct (I3 Hks) as [_ J2]. rewrite J2.
        subst key. rewrite (P4 eq_refl Hp Hown). exact Hown.
      * destruct (P2 E) as [_ Q]. apply I4; [congruence | | exact Hc].
        rewrite (P1 "__proto__"%string); [exact Hown | congruence].
Qed.

(** X20: the object [getMany] returns has one own property for each
    distinct requested key other than "__proto__", and no other property
    but, possibly, "__proto__".  A request of "__proto__" reaches the
    accessor of [Object.prototype]: it creates no own property and, when
    the answer is [null] or an object, changes the prototype of the
    result; so the result owns "__proto__" only when the key was requested
    at least twice, and keeps [Object.prototype] as its prototype when the
    key was not requested. *)
Theorem getMany_answers_each_requested_key cfg ks st r st' :
  LocalStorageAPI.getMany cfg ks st = (Ok r, st') ->
  NoDup (m_keys (own r))
  /\ (forall k, k <> "__proto__"%string -> (In k (m_keys (own r)) <-> In k ks))
  /\ (In "__proto__"%string (m_keys (own r)) ->
      (2 <= count_occ string_dec ks "__proto__"%string)%nat)
  /\ (~ In "__proto__"%string ks -> prototype r = ObjectPrototype).
Proof.
  intro H. unfold LocalStorageAPI.getMany in H.
  destruct (getMany_from_own _ _ _ _ _ _ H) as (I1 & I2 & I3 & I4).
  cbn [own prototype m_keys map] in *.
  repeat match goal with |- _ /\ _ => split end.
  - apply I2. constructor.
  - intros k Hk. rewrite (I1 k Hk). simpl. tauto.
  - intro Hin.
    destruct (le_lt_dec (count_occ string_dec ks "__proto__"%string) 1) as [Hc | Hc];
      [| lia].
    exfalso. exact (I4 eq_refl (fun F => F) Hc Hin).
  - intro Hn. apply (I3 Hn).
Qed.

(** X20 (witness): x requested twice and __proto__ once, where the store
    holds x only: the answer [null] for __proto__ becomes the prototype of
    the result. *)
Lemma getMany_witness :
  LocalStorageAPI.getMany (fst node_api) ["x"; "__proto__"; "x"] after_set
  = (Ok (mkObj [("x", JNum 1)] NullPrototype),
     exec (LocalStorageAPI.getMany (fst node_api) ["x"; "__proto__"; "x"]) after_set)
  /\ NoDup (m_keys (own (mkObj [("x", JNum 1)] NullPrototype)))
  /\ (forall k, k <> "__proto__"%string ->
        (In k (m_keys (own (mkObj [("x", JNum 1)] NullPrototype)))
         <-> In k ["x"; "__proto__"; "x"]))
  /\ (In "__proto__"%string (m_keys (own (mkObj [("x", JNum 1)] NullPrototype))) ->
      (2 <= count_occ string_dec ["x"; "__proto__"; "x"] "__proto__"%string)%nat)
  /\ (~ In "__proto__"%string ["x"; "__proto__"; "x"] ->
      prototype (mkObj [("x", JNum 1)] NullPrototype) = ObjectPrototype).
Proof.
  split; [vm_compute; reflexivity |].
  apply (getMany_answers_each_requested_key (fst node_api) ["x"; "__proto__"; "x"]
           after_set (mkObj [("x", JNum 1)] NullPrototype)
           (exec (LocalStorageAPI.getMany (fst node_api) ["x"; "__proto__"; "x"])
                 after_set)).
  vm_compute. reflexivity.
Defined.

(** __proto__ requested twice where the store does not hold it: the first
    answer [null] takes the prototype away, the second becomes an own
    property. *)
Example getMany_of_proto_twice :
  result (LocalStorageAPI.getMany (fst node_api) ["__proto__"; "__proto__"]) after_set
  = Ok (mkObj [("__proto__", JNull)] NullPrototype).
Proof. vm_compute. reflexivity. Qed.

(** A name that the new prototype answers with a getter only: the
    assignment throws. *)
Example getMany_under_a_Map_prototype :
  exists e,
    result (LocalStorageAPI.set (fst node_api) "__proto__" (JMap []) no_options ;;
            LocalStorageAPI.getMany (fst node_api) ["__proto__"; "size"]) (snd node_api)
    = Throw e
    /\ e_class e = "TypeError"%string.
Proof. eexists. split; [vm_compute; reflexivity | reflexivity]. Qed.

(** ** The latency a [set] records *)

Lemma later_refl w : later w w.
Proof. split; [reflexivity | lia]. Qed.

Lemma later_trans a b c : later a b -> later b c -> later a c.
Proof. unfold later. intros [H1 H2] [H3 H4]. split; [congruence | lia]. Qed.

Lemma later_on_refl s : later_on s s.
Proof. apply later_refl. Qed.

Lemma later_on_trans a b c : later_on a b -> later_on b c -> later_on a c.
Proof. apply later_trans. Qed.

Ltac later_prim :=
  unfold respects, later; intro;
  unfold Date_now, LocalStorageStorage.setItem, LocalStorageStorage.getItem,
    LocalStorageStorage.removeItem, LocalStorageStorage.names,
    IndexedDBStorage.waitForReady, IndexedDBStorage.set_store, unmodelled, modify, gets;
  repeat match goal with
         | |- context [if ?b then _ else _] => destruct b
         | |- context [match ?x with _ => _ end] => destruct x
         end;
  cbn; (split; [reflexivity | lia]).

Ltac later_step :=
  match goal with
  | |- respects _ (bind _ _) => apply (respects_bind _ later_trans); [| intro]
  | |- respects _ (ret _) => apply (respects_ret _ later_refl)
  | |- respects _ (throw _) => apply (respects_throw _ later_refl)
  | |- respects _ (try_catch _ _) => apply (respects_try_catch _ later_trans); [| intro]
  | |- respects _ (match ?x with _ => _ end) => destruct x
  | |- respects _ _ => later_prim
  end.

Lemma Backend_get_later l key : respects later (Backend.get l key).
Proof.
  unfold Backend.get. destruct (kind l);
    unfold IndexedDBStorage.get, IndexedDBStorage.remove, LocalStorageStorage.get,
      LocalStorageStorage.remove, MemoryStorage.get, expired;
    repeat later_step.
Qed.

Lemma later_in_world {A} (m : M World A) :
  respects later m -> respects later_on (in_world m).
Proof.
  intros H st. unfold in_world, later_on. specialize (H (world st)).
  destruct (m (world st)) as [r w']. exact H.
Qed.

Lemma later_keeps_timeline {A} (m : M State A) :
  keeps timeline m -> respects later_on m.
Proof.
  intros H st. specialize (H st). unfold timeline in H. inversion H as [[Ht Hc]].
  split; [exact Hc | lia].
Qed.

Lemma now_later : respects later_on now.
Proof. intro st. rewrite now_run. cbn. split; [reflexivity | cbn; lia]. Qed.

Ltac on_step :=
  match goal with
  | |- respects _ (bind _ _) => apply (respects_bind _ later_on_trans); [| intro]
  | |- respects _ (ret _) => apply (respects_ret _ later_on_refl)
  | |- respects _ (throw _) => apply (respects_throw _ later_on_refl)
  | |- respects _ (pure_of _) => apply (respects_pure_of _ later_on_refl)
  | |- respects _ (try_catch _ _) => apply (respects_try_catch _ later_on_trans); [| intro]
  | |- respects _ now => apply now_later
  | |- respects _ (in_world (Backend.get _ _)) => apply later_in_world, Backend_get_later
  | |- respects _ (update _) => apply later_keeps_timeline; tframe
  | |- respects _ (read _) => apply later_keeps_timeline; tframe
  | |- respects _ (LocalStorageAPI.emit _) => apply later_keeps_timeline; tframe
  | |- respects _ (match ?x with _ => _ end) => destruct x
  end.

Lemma get_later cfg key : respects later_on (LocalStorageAPI.get cfg key).
Proof.
  unfold LocalStorageAPI.get, LocalStorageAPI.get_from_layer,
    LocalStorageAPI.count_read, LocalStorageAPI.on_error.
  repeat on_step.
Qed.

Lemma sync_step_timeline cfg key v st st' :
  (match sync cfg with
   | Some _ => LocalStorageAPI.broadcast cfg "set" (Some key) (Some v)
   | None => ret tt
   end) st = (Ok tt, st') ->
  timeline st'
  = (((if has_channel cfg then 1 else 0) + w_ticks (world st))%nat, w_clock (world st)).
Proof.
  unfold has_channel, LocalStorageAPI.broadcast.
  destruct (sync cfg) as [s |]; [destruct (channel s) |].
  - unfold bind. rewrite now_run. unfold update. intro H.
    apply (f_equal snd) in H. cbn [snd] in H. subst st'. reflexivity.
  - intro H. inversion H; subst. reflexivity.
  - intro H. inversion H; subst. reflexivity.
Qed.

(** X8: a [set] that returns normally and was not vetoed counts one
    write, appends one history record of type 'set' carrying the value the
    [beforeSet] hook left, emits exactly one ['change'] event with that
    value, and records no error and no deletion.  It records one write
    latency: the difference between a later reading of the clock and the
    first reading of the call; that later reading is the last one of the
    call, or the last but one when the instance has a channel to the other
    tabs, whose message takes the last. *)
Theorem successful_set_is_recorded_once cfg key v v' options st st' :
  hooked_value cfg key v options = Some v' ->
  LocalStorageAPI.set cfg key v options st = (Ok tt, st') ->
  writes (metrics (self st')) = writes (metrics (self st)) + 1
  /\ deletes (metrics (self st')) = deletes (metrics (self st))
  /\ errors (metrics (self st')) = errors (metrics (self st))
  /\ emitted (self st') = emitted (self st) ++ [EvChange key v']
  /\ (exists n,
        (w_ticks (world st) < n)%nat
        /\ w_ticks (world st') = (S n + (if has_channel cfg then 1 else 0))%nat
        /\ w_clock (world st') = w_clock (world st)
        /\ writeLatency (metrics (self st'))
           = writeLatency (metrics (self st))
             ++ [w_clock (world st) n - w_clock (world st) (w_ticks (world st))])
  /\ (exists old, operationHistory (self st')
                  = operationHistory (self st) ++ [mkHistory "set" key (Some v') old]).
Proof.
  intros Hh H. rewrite (set_as_commit _ _ _ _ _ _ Hh) in H.
  apply try_catch_Ok_inv in H; [| intros; apply on_error_not_Ok].
  unfold LocalStorageAPI.set_commit in H.
  apply bind_Ok_inv in H as ([] & s1 & H1 & H).
  apply bind_Ok_inv in H as (p & s2 & H2 & H).
  apply bind_Ok_inv in H as ([] & s3 & H3 & H).
  apply bind_Ok_inv in H as (t4 & s4 & H4 & H).
  apply bind_Ok_inv in H as ([] & s5 & H5 & H).
  apply bind_Ok_inv in H as (t6 & s6 & H6 & H).
  apply bind_Ok_inv in H as (sz & s7 & H7 & H).
  apply bind_Ok_inv in H as ([] & s8 & H8 & H).
  apply bind_Ok_inv in H as (old & s9 & H9 & H).
  apply bind_Ok_inv in H as ([] & s10 & H10 & H).
  apply bind_Ok_inv in H as ([] & s11 & H11 & H).
  apply bind_Ok_inv in H as (t12 & s12 & H12 & H).
  apply bind_Ok_inv in H as ([] & s13 & H13 & H).
  apply bind_Ok_inv in H as ([] & s14 & H14 & H).
  apply bind_Ok_inv in H as ([] & s15 & H15 & H).
  (* the clock *)
  assert (L1 : timeline s1 = timeline (tick st)).
  { eapply keeps_run; [| exact H1]. tframe. }
  assert (L2 : timeline s2 = timeline s1).
  { eapply keeps_run; [| exact H2]. tframe. }
  assert (L3 : w_ticks (world s3) = (readings (opt_ttl options) + w_ticks (world s2))%nat
               /\ w_clock (world s3) = w_clock (world s2)).
  { pose proof H3 as H3'. apply in_world_Ok_inv in H3' as [H3' _].
    eapply Backend_set_Ok_timeline. exact H3'. }
  pose proof H4 as H4'. apply now_Ok_inv in H4' as (_ & _ & L4).
  pose proof H5 as H5'. apply update_Ok_inv in H5' as (_ & L5).
  pose proof H6 as H6'. apply now_Ok_inv in H6' as (_ & _ & L6).
  assert (L7 : s7 = s6) by (unfold pure_of in H7; inversion H7; reflexivity).
  pose proof H8 as H8'. apply update_Ok_inv in H8' as (_ & L8).
  pose proof (respects_run _ _ _ _ _ (get_later cfg key) H9) as [C9 T9].
  pose proof H10 as H10'. apply update_Ok_inv in H10' as (_ & L10).
  pose proof H11 as H11'. apply update_Ok_inv in H11' as (_ & L11).
  pose proof H12 as H12'. apply now_Ok_inv in H12' as (Et12 & _ & L12).
  pose proof H13 as H13'. apply update_Ok_inv in H13' as (_ & L13).
  pose proof (sync_step_timeline _ _ _ _ _ H14) as L14.
  assert (L15 : timeline s15 = timeline s14).
  { eapply keeps_run; [| exact H15]. tframe. }
  assert (L16 : timeline st' = timeline s15).
  { eapply keeps_run; [| exact H]. tframe. }
  subst s7.
  apply timeline_inv in L1 as [T1 C1]. apply timeline_inv in L2 as [T2 C2].
  destruct L3 as [T3 C3].
  apply timeline_inv in L4 as [T4 C4]. apply timeline_inv in L5 as [T5 C5].
  apply timeline_inv in L6 as [T6 C6]. apply timeline_inv in L8 as [T8 C8].
  apply timeline_inv in L10 as [T10 C10]. apply timeline_inv in L11 as [T11 C11].
  apply timeline_inv in L12 as [T12 C12]. apply timeline_inv in L13 as [T13 C13].
  apply timeline_inv in L14 as [T14 C14].
  apply timeline_inv in L15 as [T15 C15]. apply timeline_inv in L16 as [T16 C16].
  cbn [tick world w_ticks w_clock set_ticks] in T1, C1.
  assert (Cl : w_clock (world s11) = w_clock (world st)) by congruence.
  assert (Tl : (w_ticks (world st) < w_ticks (world s11))%nat) by lia.
  (* the records *)
  assert (E1 : ledger s1 = ledger (tick st)).
  { eapply keeps_run; [| exact H1]. unfold ledger. frame. }
  assert (E2 : ledger s2 = ledger s1).
  { eapply keeps_run; [| exact H2]. unfold ledger. frame. }
  assert (E3 : ledger s3 = ledger s2).
  { eapply keeps_run; [| exact H3]. unfold ledger. frame. }
  assert (E4 : ledger s4 = ledger s3).
  { eapply keeps_run; [| exact H4]. unfold ledger. frame. }
  assert (E5 : ledger s5 = ledger s4).
  { eapply keeps_run; [| exact H5]. unfold ledger. frame. }
  assert (E6 : ledger s6 = ledger s5).
  { eapply keeps_run; [| exact H6]. unfold ledger. frame. }
  assert (E8 : ledger s8 = ledger s6).
  { eapply keeps_run; [| exact H8]. unfold ledger. frame. }
  assert (E9 : ledger s9 = ledger s8) by (eapply get_Ok_ledger; exact H9).
  assert (E12 : ledger s12 = ledger s11).
  { eapply keeps_run; [| exact H12]. unfold ledger. frame. }
  assert (E14 : ledger s14 = ledger s13).
  { eapply keeps_run; [| exact H14]. unfold ledger. frame. }
  assert (E16 : ledger st' = ledger s15).
  { eapply keeps_run; [| exact H]. unfold ledger. frame. }
  assert (E0 : ledger s9 = ledger st) by (change (ledger st) with (ledger (tick st)); congruence).
  clear E1 E2 E3 E4 E5 E6 E8 E9 H1 H2 H3 H4 H5 H6 H7 H8 H9.
  unfold update in H10, H11, H13. unfold LocalStorageAPI.emit in H15.
  inversion H10; subst s10. inversion H11; subst s11. inversion H13; subst s13.
  inversion H15; subst s15. clear H10 H11 H13 H15.
  unfold ledger in *. cbn in E12, E14, E16.
  inversion E0. inversion E12. inversion E14. inversion E16.
  repeat match goal with |- _ /\ _ => split end; try congruence.
  - exists (w_ticks (world s9)). cbn [world] in *.
    repeat match goal with |- _ /\ _ => split end.
    + lia.
    + lia.
    + congruence.
    + unfold clock_reading in *. rewrite <- Cl. rewrite <- Et12. congruence.
  - exists old. congruence.
Qed.

(** X8 (witness): the first [set] on a fresh instance. *)
Lemma successful_set_witness :
  hooked_value (fst node_api) "x" (JNum 1) no_options = Some (JNum 1)
  /\ LocalStorageAPI.set (fst node_api) "x" (JNum 1) no_options (snd node_api)
     = (Ok tt, after_set)
  /\ emitted (self after_set) = emitted (self (snd node_api)) ++ [EvChange "x" (JNum 1)].
Proof.
  split; [vm_compute; reflexivity |]. split; [vm_compute; reflexivity |].
  apply (successful_set_is_recorded_once (fst node_api) "x" (JNum 1) (JNum 1)
           no_options (snd node_api) after_set); vm_compute; reflexivity.
Defined.
